(** * Hitchy core: route compiler, routing-table normaliser, prefix analyser

    A shallow embedding of [lib/router/types/route.js] (classes [Route],
    [TerminalRoute], [PolicyRoute]) and of
    [lib/router/normalize/definition.js], together with the parts of the
    JavaScript run-time they rely on (strings, regular expressions, plain
    values).

    Scope of the model of JavaScript data:
    - strings are sequences of code units below 128 (ASCII); white space
      is TAB, LF, VT, FF, CR and SPACE, line terminators are LF and CR,
      case mapping is the one of the letters a-z;
    - numbers are integers;
    - objects are flat records of own properties in enumeration order,
      arrays are lists without holes; a value is a tree, so that every
      array, object or map in it is an object of its own (no two places
      of a value share one), while functions are known by an identity. *)

From Stdlib Require Import Ascii String List Bool Arith ZArith Lia.
From stdpp Require Import base option list strings gmap.

Local Open Scope bool_scope.
Local Open Scope nat_scope.

(* ===================================================================== *)
(** * JavaScript strings                                                  *)
(* ===================================================================== *)

Module Str.

Definition code (c : ascii) : nat := nat_of_ascii c.

Definition between (lo hi : nat) (c : ascii) : bool :=
  (lo <=? code c) && (code c <=? hi).

(** [WhiteSpace] and [LineTerminator] of ECMAScript, below 128. *)
Definition is_space (c : ascii) : bool := between 9 13 c || (code c =? 32).

Definition is_line_terminator (c : ascii) : bool :=
  (code c =? 10) || (code c =? 13).

Definition is_lower (c : ascii) : bool := between 97 122 c.
Definition is_upper (c : ascii) : bool := between 65 90 c.

Definition upper (c : ascii) : ascii :=
  if is_lower c then ascii_of_nat (code c - 32) else c.

Definition lower (c : ascii) : ascii :=
  if is_upper c then ascii_of_nat (code c + 32) else c.

Definition is_empty (s : string) : bool :=
  match s with EmptyString => true | String _ _ => false end.

Fixpoint map (f : ascii -> ascii) (s : string) : string :=
  match s with
  | EmptyString => EmptyString
  | String c s' => String (f c) (map f s')
  end.

(** [String.prototype.toUpperCase] *)
Definition toUpperCase (s : string) : string := map upper s.

Fixpoint trimStart (s : string) : string :=
  match s with
  | EmptyString => EmptyString
  | String c s' => if is_space c then trimStart s' else s
  end.

Fixpoint trimEnd (s : string) : string :=
  match s with
  | EmptyString => EmptyString
  | String c s' =>
      let t := trimEnd s' in
      if is_space c && is_empty t then EmptyString else String c t
  end.

(** [String.prototype.trim] *)
Definition trim (s : string) : string := trimEnd (trimStart s).

(** [s[0]], [undefined] on the empty string. *)
Definition head (s : string) : option ascii :=
  match s with EmptyString => None | String c _ => Some c end.

(** [s.slice( 1 )] *)
Definition slice1 (s : string) : string :=
  match s with EmptyString => EmptyString | String _ s' => s' end.

Fixpoint all (p : ascii -> bool) (s : string) : bool :=
  match s with
  | EmptyString => true
  | String c s' => p c && all p s'
  end.

(** The longest leading run of characters satisfying [p], and the rest. *)
Fixpoint span (p : ascii -> bool) (s : string) : string * string :=
  match s with
  | EmptyString => (EmptyString, EmptyString)
  | String c s' =>
      if p c then let '(a, b) := span p s' in (String c a, b)
      else (EmptyString, s)
  end.

Fixpoint take (n : nat) (s : string) : string :=
  match n, s with
  | S n', String c s' => String c (take n' s')
  | _, _ => EmptyString
  end.

Fixpoint drop (n : nat) (s : string) : string :=
  match n, s with
  | S n', String _ s' => drop n' s'
  | _, _ => s
  end.

Fixpoint concat (l : list string) : string :=
  match l with
  | [] => EmptyString
  | s :: l' => s +:+ concat l'
  end.

(** [Array.prototype.join] on strings. *)
Fixpoint join (sep : string) (l : list string) : string :=
  match l with
  | [] => EmptyString
  | [s] => s
  | s :: l' => s +:+ sep +:+ join sep l'
  end.

Definition char (n : nat) : string := String (ascii_of_nat n) EmptyString.

End Str.

(* ===================================================================== *)
(** * Regular expressions                                                 *)
(* ===================================================================== *)

(** The pattern language of ECMAScript as far as the sources use it:
    characters, classes, escapes, groups (capturing or not), look-ahead,
    the anchors, alternatives and the quantifiers [*], [+], [?] in their
    greedy and lazy forms.  A pattern is kept as its source text, as in
    the program, and is read by [RegExp.parse]; matching follows the
    back-tracking semantics of the language: [RegExp.run] lists the ways
    a pattern matches at a position in the order the matcher tries them,
    so that its first element is the match the program observes. *)

Module RegExp.

(** A set of characters: a list of inclusive ranges. *)
Definition cset := list (ascii * ascii).

Inductive regex : Type :=
| Empty
| Chars (neg : bool) (cs : cset)
| Bol
| Eol
| Seq (a b : regex)
| Alt (a b : regex)
| Quant (min : nat) (max : option nat) (greedy : bool) (r : regex)
| Group (n : nat) (r : regex)
| Look (neg : bool) (r : regex).

Definition single (c : ascii) : cset := [(c, c)].
Definition range (lo hi : nat) : ascii * ascii :=
  (ascii_of_nat lo, ascii_of_nat hi).

Definition digits : cset := [range 48 57].
Definition word : cset := [range 65 90; range 97 122; range 48 57; range 95 95].
Definition spaces : cset := [range 9 13; range 32 32].
Definition non_digits : cset := [range 0 47; range 58 255].
Definition non_word : cset :=
  [range 0 47; range 58 64; range 91 94; range 96 96; range 123 255].
Definition non_spaces : cset := [range 0 8; range 14 31; range 33 255].
Definition line_terminators : cset := [range 10 10; range 13 13].

Definition in_cset (cs : cset) (c : ascii) : bool :=
  existsb (fun r => Str.between (Str.code (fst r)) (Str.code (snd r)) c) cs.

(** Membership of a character in a class; with the flag [i] characters
    are compared after [Canonicalize]. *)
Definition char_matches (icase : bool) (neg : bool) (cs : cset) (c : ascii) : bool :=
  let hit :=
    if icase
    then in_cset cs (Str.upper c) || in_cset cs (Str.lower (Str.upper c))
    else in_cset cs c in
  xorb neg hit.

(** ** Reading a pattern *)

(** What a backslash escape stands for: a set of characters. *)
Definition escape_set (in_class : bool) (e : ascii) : option cset :=
  let n := Str.code e in
  if n =? 100 then Some digits                    (* d *)
  else if n =? 68 then Some non_digits            (* D *)
  else if n =? 119 then Some word                 (* w *)
  else if n =? 87 then Some non_word              (* W *)
  else if n =? 115 then Some spaces               (* s *)
  else if n =? 83 then Some non_spaces            (* S *)
  else if n =? 116 then Some [range 9 9]          (* t *)
  else if n =? 110 then Some [range 10 10]        (* n *)
  else if n =? 118 then Some [range 11 11]        (* v *)
  else if n =? 102 then Some [range 12 12]        (* f *)
  else if n =? 114 then Some [range 13 13]        (* r *)
  else if n =? 98 then (if in_class then Some [range 8 8] else None)  (* b *)
  else if (n =? 66) || (n =? 99) || (n =? 107) || (n =? 120) || (n =? 117)
          || (n =? 112) || (n =? 80) || Str.between 48 57 e
       then None                                  (* B c k x u p P 0-9 *)
  else Some (single e).

Definition is_single (cs : cset) : option ascii :=
  match cs with
  | [(a, b)] => if Ascii.eqb a b then Some a else None
  | _ => None
  end.

(** One atom of a class: its set and what follows it. *)
Definition class_atom (s : string) : option (cset * string) :=
  match s with
  | String "\" (String e s') =>
      match escape_set true e with
      | Some cs => Some (cs, s')
      | None => None
      end
  | String c s' => Some (single c, s')
  | EmptyString => None
  end.

(** The members of a class up to its closing bracket. *)
Fixpoint class_items (fuel : nat) (s : string) : option (cset * string) :=
  match fuel with
  | 0 => None
  | S fuel' =>
      match s with
      | EmptyString => None
      | String "]" s' => Some ([], s')
      | _ =>
          match class_atom s with
          | None => None
          | Some (a, s1) =>
              match s1 with
              | String "-" (String c2 s2) =>
                  if Ascii.eqb c2 "]"
                  then match class_items fuel' s1 with
                       | Some (cs, s3) => Some (a ++ cs, s3)
                       | None => None
                       end
                  else
                    match class_atom (String c2 s2) with
                    | None => None
                    | Some (b, s3) =>
                        let item :=
                          match is_single a, is_single b with
                          | Some lo, Some hi => [(lo, hi)]
                          | _, _ => a ++ single "-" ++ b
                          end in
                        match class_items fuel' s3 with
                        | Some (cs, s4) => Some (item ++ cs, s4)
                        | None => None
                        end
                    end
              | _ =>
                  match class_items fuel' s1 with
                  | Some (cs, s3) => Some (a ++ cs, s3)
                  | None => None
                  end
              end
          end
      end
  end.

(** An optional quantifier behind an atom. *)
Definition quantified (r : regex) (s : string) : regex * string :=
  let lazy (mn : nat) (mx : option nat) (s' : string) :=
    match s' with
    | String "?" s'' => (Quant mn mx false r, s'')
    | _ => (Quant mn mx true r, s')
    end in
  match s with
  | String "*" s' => lazy 0 None s'
  | String "+" s' => lazy 1 None s'
  | String "?" s' => lazy 0 (Some 1) s'
  | _ => (r, s)
  end.

Definition seq_of (a b : regex) : regex :=
  match b with Empty => a | _ => Seq a b end.

(** [disjunction fuel s n] reads alternatives up to a closing
    parenthesis or the end of [s]; [n] counts the capturing groups
    opened so far.  [None] stands for a syntax error and for syntax
    outside the modelled fragment. *)
Fixpoint disjunction (fuel : nat) (s : string) (n : nat)
  : option (regex * string * nat) :=
  match fuel with
  | 0 => None
  | S fuel' =>
      match alternative fuel' s n with
      | None => None
      | Some (a, String "|" s1, n1) =>
          match disjunction fuel' s1 n1 with
          | Some (b, s2, n2) => Some (Alt a b, s2, n2)
          | None => None
          end
      | Some r => Some r
      end
  end
with alternative (fuel : nat) (s : string) (n : nat)
  : option (regex * string * nat) :=
  match fuel with
  | 0 => None
  | S fuel' =>
      match s with
      | EmptyString => Some (Empty, s, n)
      | String "|" _ => Some (Empty, s, n)
      | String ")" _ => Some (Empty, s, n)
      | _ =>
          match term fuel' s n with
          | None => None
          | Some (t, s1, n1) =>
              match alternative fuel' s1 n1 with
              | Some (r, s2, n2) => Some (seq_of t r, s2, n2)
              | None => None
              end
          end
      end
  end
with term (fuel : nat) (s : string) (n : nat)
  : option (regex * string * nat) :=
  match fuel with
  | 0 => None
  | S fuel' =>
      let group (mk : regex -> regex) (body : string) (n' : nat) (quant : bool) :=
        match disjunction fuel' body n' with
        | Some (r, String ")" s1, n1) =>
            if quant
            then let '(q, s2) := quantified (mk r) s1 in Some (q, s2, n1)
            else Some (mk r, s1, n1)
        | _ => None
        end in
      match s with
      | EmptyString => None
      | String "^" s' => Some (Bol, s', n)
      | String "$" s' => Some (Eol, s', n)
      | String "." s' =>
          let '(q, s1) := quantified (Chars true line_terminators) s' in
          Some (q, s1, n)
      | String "\" (String e s') =>
          match escape_set false e with
          | Some cs => let '(q, s1) := quantified (Chars false cs) s' in Some (q, s1, n)
          | None => None
          end
      | String "\" EmptyString => None
      | String "[" (String "^" s') =>
          match class_items (S (String.length s')) s' with
          | Some (cs, s1) => let '(q, s2) := quantified (Chars true cs) s1 in Some (q, s2, n)
          | None => None
          end
      | String "[" s' =>
          match class_items (S (String.length s')) s' with
          | Some (cs, s1) => let '(q, s2) := quantified (Chars false cs) s1 in Some (q, s2, n)
          | None => None
          end
      | String "(" (String "?" (String ":" s')) => group (fun r => r) s' n true
      | String "(" (String "?" (String "=" s')) => group (Look false) s' n false
      | String "(" (String "?" (String "!" s')) => group (Look true) s' n false
      | String "(" (String "?" _) => None
      | String "(" s' => group (Group (S n)) s' (S n) true
      | String "*" _ | String "+" _ | String "?" _
      | String "{" _ | String "}" _ | String ")" _ | String "|" _ => None
      | String c s' =>
          let '(q, s1) := quantified (Chars false (single c)) s' in
          Some (q, s1, n)
      end
  end.

(** A compiled pattern: the tree, the number of capturing groups and
    the flag [i]. *)
Record compiled : Type := {
  tree : regex;
  ngroups : nat;
  icase : bool;
}.

(** The pattern object of the program: source text and flags. *)
Record t : Type := { source : string; flags : string }.

Definition parse (src : string) : option (regex * nat) :=
  match disjunction (4 * String.length src + 4) src 0 with
  | Some (r, EmptyString, n) => Some (r, n)
  | _ => None
  end.

Definition parse_flags (f : string) : option bool :=
  match f with
  | EmptyString => Some false
  | String "i" EmptyString => Some true
  | _ => None
  end.

Definition compile (re : t) : option compiled :=
  match parse (source re), parse_flags (flags re) with
  | Some (r, n), Some ic => Some {| tree := r; ngroups := n; icase := ic |}
  | _, _ => None
  end.

(** ** Matching *)

(** One way a pattern matches at a position: the text it consumed, the
    text left, and the captures it set, latest last ([None] resets a
    group at the start of an iteration). *)
Record mres : Type := {
  matched : string;
  rest : string;
  caps : list (nat * option string);
}.

Definition here (s : string) : mres :=
  {| matched := EmptyString; rest := s; caps := [] |}.

Definition after (y z : mres) : mres :=
  {| matched := matched y +:+ matched z;
     rest := rest z;
     caps := caps y ++ caps z |}.

(** The capturing groups inside a pattern. *)
Fixpoint groups_of (r : regex) : list nat :=
  match r with
  | Seq a b | Alt a b => groups_of a ++ groups_of b
  | Quant _ _ _ r' | Look _ r' => groups_of r'
  | Group n r' => n :: groups_of r'
  | _ => []
  end.

(** The matches of a quantified pattern, [RepeatMatcher] of the
    language: [body] lists the matches of the pattern under the
    quantifier, [resets] clears its groups at the start of an
    iteration, an iteration that consumes nothing is given up once
    the minimum is reached.  [fuel] bounds the number of iterations:
    the minimum plus the length of the text. *)
Section Repeat.

Variable body : bool -> string -> list mres.
Variable resets : list (nat * option string).
Variable greedy : bool.

Fixpoint repeat (fuel mn : nat) (mx : option nat) (bol : bool) (s : string)
  : list mres :=
  match mx, fuel with
  | Some 0, _ => [here s]
  | _, 0 => if mn =? 0 then [here s] else []
  | _, S fuel' =>
      let more :=
        flat_map (fun y =>
          if (mn =? 0) && Str.is_empty (matched y) then []
          else
            List.map (fun z =>
              {| matched := matched y +:+ matched z;
                 rest := rest z;
                 caps := resets ++ caps y ++ caps z |})
              (repeat fuel' (Nat.pred mn) (Nat.pred <$> mx)
                 (bol && Str.is_empty (matched y)) (rest y)))
          (body bol s) in
      if mn =? 0
      then if greedy then more ++ [here s] else here s :: more
      else more
  end.

End Repeat.

(** [run ic r bol s]: the matches of [r] against the text [s], where
    [bol] tells whether [s] starts at the beginning of the input. *)
Fixpoint run (ic : bool) (r : regex) (bol : bool) (s : string) : list mres :=
  match r with
  | Empty => [here s]
  | Chars neg cs =>
      match s with
      | String c s' =>
          if char_matches ic neg cs c
          then [{| matched := String c EmptyString; rest := s'; caps := [] |}]
          else []
      | EmptyString => []
      end
  | Bol => if bol then [here s] else []
  | Eol => if Str.is_empty s then [here s] else []
  | Seq a b =>
      flat_map (fun y =>
        List.map (after y) (run ic b (bol && Str.is_empty (matched y)) (rest y)))
        (run ic a bol s)
  | Alt a b => run ic a bol s ++ run ic b bol s
  | Group n r' =>
      List.map (fun y =>
        {| matched := matched y; rest := rest y;
           caps := caps y ++ [(n, Some (matched y))] |})
        (run ic r' bol s)
  | Look neg r' =>
      match run ic r' bol s with
      | [] => if neg then [here s] else []
      | y :: _ =>
          if neg then []
          else [{| matched := EmptyString; rest := s; caps := caps y |}]
      end
  | Quant mn mx greedy r' =>
      repeat (run ic r') (List.map (fun n => (n, @None string)) (groups_of r'))
        greedy (mn + String.length s) mn mx bol s
  end.

(** The value of capture [n] at the end of a match: its last entry. *)
Fixpoint capture (n : nat) (cs : list (nat * option string)) : option string :=
  match cs with
  | [] => None
  | (k, v) :: cs' =>
      if existsb (fun e => fst e =? n) cs' then capture n cs'
      else if k =? n then v else None
  end.

(** The array returned by [exec]: the matched text, then one entry per
    group ([None] is [undefined]), and the index of the match. *)
Record result : Type := {
  index : nat;
  whole : string;
  submatches : list (option string);
}.

Fixpoint exec_from (c : compiled) (i : nat) (s : string) : option result :=
  match run (icase c) (tree c) (i =? 0) s with
  | y :: _ =>
      Some {| index := i; whole := matched y;
              submatches := List.map (fun n => capture n (caps y)) (seq 1 (ngroups c)) |}
  | [] =>
      match s with
      | EmptyString => None
      | String _ s' => exec_from c (S i) s'
      end
  end.

(** [RegExp.prototype.exec] without the flags [g] and [y]. *)
Definition exec (c : compiled) (s : string) : option result := exec_from c 0 s.

(** [RegExp.prototype.test] *)
Definition test (c : compiled) (s : string) : bool :=
  match exec c s with Some _ => true | None => false end.

(** [String.prototype.replace] with a pattern without the flag [g] and
    the empty replacement: the first match is cut out. *)
Definition remove_first (c : compiled) (s : string) : string :=
  match exec c s with
  | Some m =>
      Str.take (index m) s +:+ Str.drop (index m + String.length (whole m)) s
  | None => s
  end.

(** [m[n]] for [n >= 1]; [None] is [undefined]. *)
Definition sub (m : result) (n : nat) : option string :=
  match nth_error (submatches m) (Nat.pred n) with
  | Some v => v
  | None => None
  end.

(** A pattern literal of the program. *)
Definition literal (src fl : string) : compiled :=
  match compile {| source := src; flags := fl |} with
  | Some c => c
  | None => {| tree := Chars false []; ngroups := 0; icase := false |}
  end.

End RegExp.

(* ===================================================================== *)
(** * JavaScript values, results and exceptions                           *)
(* ===================================================================== *)

#[warnings="-register-all"] Inductive value : Type :=
| VUndefined
| VNull
| VBool (b : bool)
| VNum (z : Z)
| VStr (s : string)
| VFun (id : nat)
| VArr (items : list value)
| VObj (props : list (string * value))
| VMap (entries : list (value * value)).

(** The exceptions of the program.  All are [TypeError]s of the sources
    but the last three, which stand for an exception of the run-time
    (calling what is no function, reading a property of [undefined]),
    for an exception thrown inside the pattern library, and for a
    pattern text [new RegExp] does not accept. *)
Inductive error : Type :=
| InvalidTypeOnRoute        (* invalid type on route for URL ... *)
| InvalidRoute              (* invalid route ... *)
| RouteWithInvalidType      (* route w/ invalid type ... *)
| InvalidUrlInRoute         (* invalid URL in route ... *)
| PathMustBeginWithSlash    (* path of route must begin with a slash *)
| InvalidApi                (* invalid type of API *)
| InvalidTargetSelector     (* invalid routing target selector ... *)
| InvalidTargetDescriptor   (* invalid routing target descriptor ... *)
| InvalidOptions            (* invalid set of options to filter *)
| InvalidMix                (* invalid mix of routing definitions ... *)
| UnexpectedStages          (* got one or more unexpected stages ... *)
| InvalidRouteDefinition    (* invalid route definition: ... *)
| InvalidArrayRoute         (* invalid array-based definition of a route *)
| InvalidRawList            (* invalid list of raw routing definitions *)
| RuntimeTypeError
| LibraryError
| PatternError.

(** The errors the sources raise themselves with [new TypeError]. *)
Definition is_definition_error (e : error) : bool :=
  match e with
  | RuntimeTypeError | LibraryError | PatternError => false
  | _ => true
  end.

Inductive res (A : Type) : Type :=
| Ok (a : A)
| Throw (e : error).

Arguments Ok {A} a.
Arguments Throw {A} e.

#[global] Instance res_ret : MRet res := fun A a => Ok a.

#[global] Instance res_bind : MBind res := fun A B f m =>
  match m with
  | Ok a => f a
  | Throw e => Throw e
  end.

#[global] Instance res_fmap : FMap res := fun A B f m =>
  match m with
  | Ok a => Ok (f a)
  | Throw e => Throw e
  end.

Definition throws {A : Type} (m : res A) : Prop := exists e, m = Throw e.

Module JS.

Inductive type : Type :=
| TUndefined | TObject | TBoolean | TNumber | TString | TFunction.

(** [typeof v] *)
Definition typeof (v : value) : type :=
  match v with
  | VUndefined => TUndefined
  | VNull => TObject
  | VBool _ => TBoolean
  | VNum _ => TNumber
  | VStr _ => TString
  | VFun _ => TFunction
  | VArr _ | VObj _ | VMap _ => TObject
  end.

(** [ToBoolean] *)
Definition truthy (v : value) : bool :=
  match v with
  | VUndefined | VNull => false
  | VBool b => b
  | VNum z => negb (z =? 0)%Z
  | VStr s => negb (Str.is_empty s)
  | _ => true
  end.

(** [a || b] *)
Definition or (a b : value) : value := if truthy a then a else b.

Definition isArray (v : value) : bool :=
  match v with VArr _ => true | _ => false end.

Definition isString (v : value) : bool :=
  match v with VStr _ => true | _ => false end.

Definition isFunction (v : value) : bool :=
  match v with VFun _ => true | _ => false end.

Fixpoint assoc {A : Type} (k : string) (l : list (string * A)) : option A :=
  match l with
  | [] => None
  | (k', v) :: l' => if String.eqb k k' then Some v else assoc k l'
  end.

(** [o.hasOwnProperty( k )] for the keys the program asks for (no
    index and no [length]). *)
Definition hasOwnProperty (o : value) (k : string) : bool :=
  match o with
  | VObj props => match assoc k props with Some _ => true | None => false end
  | _ => false
  end.

(** [o[k]] on a value that is neither [null] nor [undefined], for
    the same keys. *)
Definition get (o : value) (k : string) : value :=
  match o with
  | VObj props => match assoc k props with Some v => v | None => VUndefined end
  | _ => VUndefined
  end.

(** [o[k] = v] on own properties kept in order of creation. *)
Fixpoint set {A : Type} (k : string) (v : A) (l : list (string * A)) : list (string * A) :=
  match l with
  | [] => [(k, v)]
  | (k', v') :: l' => if String.eqb k k' then (k, v) :: l' else (k', v') :: set k v l'
  end.

(** [o[k] = v] on an object created by [{}].  The key [__proto__] is
    the accessor of [Object.prototype]: the assignment creates no
    property; it replaces the prototype of [o] when [v] is an object,
    and then [o.__proto__] reads as [v], and does nothing otherwise. *)
Definition assign (k : string) (v : value) (l : list (string * value))
  : list (string * value) :=
  if String.eqb k "__proto__"
  then match v with
       | VArr _ | VObj _ | VMap _ | VFun _ => set k v l
       | _ => l
       end
  else set k v l.

(** [ToString]; the text of a function is not modelled. *)
Fixpoint ToString (v : value) : string :=
  match v with
  | VUndefined => "undefined"
  | VNull => "null"
  | VBool true => "true"
  | VBool false => "false"
  | VNum z => pretty.pretty z
  | VStr s => s
  | VFun _ => "function () { [native code] }"
  | VArr items =>
      Str.join ","
        (List.map (fun x =>
           match x with
           | VUndefined | VNull => EmptyString
           | _ => ToString x
           end) items)
  | VObj _ => "[object Object]"
  | VMap _ => "[object Map]"
  end.

(** [SameValueZero], the comparison of [Map] keys: by content on
    primitive values and by identity on objects, and two arrays,
    objects or maps met at different places are different objects. *)
Definition sameValueZero (a b : value) : bool :=
  match a, b with
  | VUndefined, VUndefined | VNull, VNull => true
  | VBool x, VBool y => Bool.eqb x y
  | VNum x, VNum y => (x =? y)%Z
  | VStr x, VStr y => String.eqb x y
  | VFun i, VFun j => i =? j
  | _, _ => false
  end.

(** [Map.prototype.get], [has] and [set] on the entries of a map in
    insertion order. *)
Fixpoint map_get (k : value) (m : list (value * value)) : option value :=
  match m with
  | [] => None
  | (k', v) :: m' => if sameValueZero k' k then Some v else map_get k m'
  end.

Definition map_has (k : value) (m : list (value * value)) : bool :=
  match map_get k m with Some _ => true | None => false end.

Fixpoint map_set (k v : value) (m : list (value * value)) : list (value * value) :=
  match m with
  | [] => [(k, v)]
  | (k', v') :: m' =>
      if sameValueZero k' k then (k', v) :: m' else (k', v') :: map_set k v m'
  end.

(** [s.charAt( i )] *)
Definition charAt (s : string) (i : nat) : string :=
  match String.get i s with
  | Some c => String c EmptyString
  | None => EmptyString
  end.

Definition opt_value (o : option string) : value :=
  match o with Some s => VStr s | None => VUndefined end.

End JS.

(* ===================================================================== *)
(** * The interface of the pattern library                                *)
(* ===================================================================== *)

(** The sources import [pathToRegexp] and [compile] from the package
    path-to-regexp.  What they exchange with it is declared here; the
    route compiler below takes the two functions as parameters. *)

Module Key.

(** The name of a parameter: a string, or the index of an unnamed group. *)
Inductive name_t : Type :=
| Named (s : string)
| Indexed (n : nat).

(** A parameter as the library describes it. *)
Record t : Type := {
  name : name_t;
  prefix : string;
  suffix : string;
  pattern : string;
  modifier : string;
}.

(** [typeof name === "string"] *)
Definition is_named (n : name_t) : bool :=
  match n with Named _ => true | Indexed _ => false end.

(** The name as a property key and inside a template literal. *)
Definition to_string (n : name_t) : string :=
  match n with Named s => s | Indexed i => pretty.pretty i end.

End Key.

(** The options of [pathToRegexp] the sources set; [strict] and [end_]
    default to [false] and [true]. *)
Record parser_options : Type := {
  sensitive : bool;
  strict : bool;
  end_ : bool;
}.

(** [pathToRegexp( path, keys, options )]: the pattern and the keys it
    appends to [keys]. *)
Definition parser_t : Type :=
  string -> parser_options -> res (RegExp.t * list Key.t).

(** [compile( path, { encode: encodeURIComponent } )]: a function from an
    object of values to a path. *)
Definition compiler_t : Type := string -> res (value -> res string).

(* ===================================================================== *)
(** * lib/router/types/route.js                                           *)
(* ===================================================================== *)

Module Route.

(** The three classes; they differ in their static getters and in the
    default of [isMatchingPrefix]. *)
Inductive variant : Type := Base | Terminal | Policy.

(** [static get tailPattern()] *)
Definition tailPattern (v : variant) : RegExp.compiled :=
  match v with
  | Base | Terminal => RegExp.literal "Controller$" "i"
  | Policy => RegExp.literal "Policy$" "i"
  end.

(** [static get collectionSingularName()] *)
Definition collectionSingularName (v : variant) : string :=
  match v with
  | Base => ""
  | Terminal => "controller"
  | Policy => "policy"
  end.

(** [static get collectionPluralName()] *)
Definition collectionPluralName (v : variant) : string :=
  match v with
  | Base => ""
  | Terminal => "controllers"
  | Policy => "policies"
  end.

(** An implementation (a controller or a policy) is known by what
    reading a property of it yields, [undefined] for a missing one. *)
Definition implementation : Type := string -> value.

(** [_api.runtime]: from the name of a collection to its components,
    [None] when [_api.runtime] has no such property. *)
Definition runtime : Type := string -> option (gmap string implementation).

(** The result of [preparseSource]. *)
Record preparsed : Type := {
  type : string;
  url : string;
  matchPrefix : bool;  (* property [prefix] *)
  exact : bool;
}.

(** The result of [parseSource]. *)
Record compiledSource : Type := {
  cs_method : string;
  cs_definition : string;
  cs_pattern : RegExp.t;
  cs_parameters : list Key.t;
  cs_prefix : string;
  cs_render : value -> res string;
}.

(** The result of [parseTarget]; [None] is [null] or a missing
    property. *)
Record compiledTarget : Type := {
  ct_handler : value;
  ct_args : list value;
  ct_warning : option string;
}.

(** A route. *)
Record t : Type := {
  class : variant;
  source : value;
  target : value;
  method : string;
  path : string;
  prefix : string;
  pattern : RegExp.t;
  parameters : list Key.t;
  compile : value -> res string;
  handler : value;
  args : list value;
  warning : option string;
  isValid : bool;
}.

Definition sourcePattern : RegExp.compiled :=
  RegExp.literal "^(?:(\*|[a-z][-a-z]+)\s+)?([=~]?\/.*?)(?:\s*=>.+)?$" "i".

Definition invalidPathPattern : RegExp.compiled :=
  RegExp.literal "^[^/]|\/\/|\/:(?:\W|$)|\(\)" "".

Definition prefixPattern : RegExp.compiled :=
  RegExp.literal "^([^*+?(:[{]*)(.[*+?]|[(:[{]|$)" "".

Definition finalSlashPattern : RegExp.compiled := RegExp.literal "\/$" "".

Definition targetPattern : RegExp.compiled :=
  RegExp.literal "^(?:.+?=>\s*)?([^.:#]+)(?:(?:\.|::|#)(.+))?$" "".

Definition finalDollarPattern : RegExp.compiled := RegExp.literal "\$$" "".

(** The [switch] of [preparseSource]: the method and the address of a
    definition, still as values. *)
Definition read_source (definition : value) : res (value * value) :=
  match JS.typeof definition, definition with
  | JS.TString, VStr s =>
      let '(type, url) :=
        match RegExp.exec sourcePattern (Str.trim s) with
        | Some m => (JS.opt_value (RegExp.sub m 1), JS.opt_value (RegExp.sub m 2))
        | None => (VUndefined, VUndefined)
        end in
      Ok (match type with VUndefined | VNull => VStr "ALL" | _ => type end, url)
  | JS.TObject, _ =>
      match JS.truthy definition, JS.get definition "url" with
      | true, VStr u =>
          if 0 <? String.length (Str.trim u) then
            match JS.typeof (JS.get definition "type") with
            | JS.TUndefined | JS.TString =>
                Ok (if JS.hasOwnProperty definition "type"
                    then JS.get definition "type" else VStr "ALL",
                    VStr u)
            | _ => Throw InvalidTypeOnRoute
            end
          else Throw InvalidRoute
      | _, _ => Throw InvalidRoute
      end
  | _, _ => Throw InvalidRoute
  end.

(** The method of a route from the text given for it. *)
Definition normalize_type (type : string) : string :=
  let type := Str.toUpperCase (Str.trim type) in
  if Str.is_empty type || String.eqb type "*" then "ALL" else type.

(** [static preparseSource( definition )] *)
Definition preparseSource (definition : value) : res preparsed :=
  '(type, url) ← read_source definition;
  type ← match type with VStr t => Ok t | _ => Throw RouteWithInvalidType end;
  let type := normalize_type type in
  url ← match url with VStr u => Ok u | _ => Throw InvalidUrlInRoute end;
  let exact := match Str.head url with Some c => Ascii.eqb c "=" | None => false end in
  let prefix := match Str.head url with Some c => Ascii.eqb c "~" | None => false end in
  let url := if exact || prefix then Str.trim (Str.slice1 url) else url in
  if RegExp.test invalidPathPattern url then Throw PathMustBeginWithSlash
  else Ok {| type := type; url := url; matchPrefix := prefix; exact := exact |}.

(** The flag [end] that [parseSource] hands to the library. *)
Definition end_flag (isMatchingPrefix : bool) (p : preparsed) : bool :=
  let end_ := negb isMatchingPrefix in
  let end_ := if matchPrefix p then false else end_ in
  let end_ := if exact p then true else end_ in
  end_.

(** The options [parseSource] hands to the library. *)
Definition source_options (isMatchingPrefix : bool) (p : preparsed) : parser_options :=
  {| sensitive := true; strict := false; end_ := end_flag isMatchingPrefix p |}.

(** The extraction of the static prefix in [parseSource]: the first
    group of [prefixPattern], without a final slash, or a slash when
    nothing is left.  Destructuring a failed match is an exception. *)
Definition extractPrefix (url : string) : res string :=
  match RegExp.exec prefixPattern url with
  | Some m =>
      match RegExp.sub m 1 with
      | Some prefix =>
          let prefix := RegExp.remove_first finalSlashPattern prefix in
          Ok (if Str.is_empty prefix then "/" else prefix)
      | None => Throw RuntimeTypeError
      end
  | None => Throw RuntimeTypeError
  end.

(** The options [selectProbablyCoveredPrefixes] hands to the library. *)
Definition covering_options : parser_options :=
  {| sensitive := true; strict := false; end_ := true |}.

(** [Route.MATCH_PARTIAL] and [Route.MATCH_FULL] *)
Definition MATCH_PARTIAL : nat := 1.
Definition MATCH_FULL : nat := 2.

Definition reservedChars : string := ":/?#[]@%!$&'()*+,;=".
Definition unreservedChars : string :=
  "abcdefghijklmnopqrstuvwxyzABCDEFGHIJKLMNOPQRSTUVWXYZ0123456789-_.~".

(** The options of [generateExamples]. *)
Record example_options : Type := {
  fixValue : value;
  useNames : bool;
  minLengthOnly : bool;
  maxLengthOnly : bool;
}.

Definition default_example_options : example_options :=
  {| fixValue := VNull; useNames := false;
     minLengthOnly := false; maxLengthOnly := false |}.

(** An entry of [countsPerParameter]. *)
Record counter : Type := {
  c_name : Key.name_t;
  c_next : Z;
  c_min : Z;
  c_max : Z;
  c_hasCustom : bool;
  c_custom : value;
  c_repeat : bool;
}.

(** The body of the first loop of [generateExamples] for one
    parameter. *)
Definition count_parameter (customValues : list (string * value))
    (o : example_options) (p : Key.t) : counter :=
  let modifier := Key.modifier p in
  let name := Key.name p in
  let repeat := String.eqb modifier "*" || String.eqb modifier "+" in
  let hasCustom :=
    useNames o || JS.truthy (fixValue o)
    || JS.hasOwnProperty (VObj customValues) (Key.to_string name) in
  let value :=
    if hasCustom then
      if useNames o then
        VStr (if Key.is_named name
              then ":" +:+ Key.to_string name
              else ":numbered" +:+ Key.to_string name +:+ "*")
      else JS.or (fixValue o) (JS.get (VObj customValues) (Key.to_string name))
    else VUndefined in
  let min := 1%Z in
  let max := 1%Z in
  let min :=
    if (String.eqb modifier "?" || String.eqb modifier "*")
       && (negb hasCustom || negb (JS.truthy value) || useNames o
           || JS.truthy (fixValue o))
    then 0%Z else min in
  let max :=
    if repeat then
      match hasCustom, value with
      | true, VArr items => Z.of_nat (length items)
      | _, _ => 3%Z
      end
    else max in
  let '(min, max) :=
    if minLengthOnly o then (min, min)
    else if maxLengthOnly o then (max, max)
    else (min, max) in
  {| c_name := name; c_next := min; c_min := min; c_max := max;
     c_hasCustom := hasCustom;
     c_custom := if hasCustom then value else VNull;
     c_repeat := repeat |}.

(** [max - min + 1], the factor a parameter contributes to [count]. *)
Definition cardinality (c : counter) : Z := (c_max c - c_min c + 1)%Z.

(** [count] after the first loop. *)
Definition count_examples (cs : list counter) : Z :=
  fold_left (fun count c => (count * cardinality c)%Z) cs 1%Z.

(** The last loop of an iteration: the counters move on to the next
    case. *)
Fixpoint advance (overflow : bool) (cs : list counter) : list counter :=
  match cs with
  | [] => []
  | c :: cs' =>
      let next := if overflow then (c_next c + 1)%Z else c_next c in
      let '(next, overflow) :=
        if (c_max c <? next)%Z then (c_min c, true) else (next, false) in
      {| c_name := c_name c; c_next := next; c_min := c_min c; c_max := c_max c;
         c_hasCustom := c_hasCustom c; c_custom := c_custom c;
         c_repeat := c_repeat c |} :: advance overflow cs'
  end.

Section WithLibrary.

Variable Parser : parser_t.
Variable Compiler : compiler_t.

(** [Case.kebabToPascal] and [Case.camelToPascal] of
    [lib/utility/case.js]. *)
Variable kebabToPascal : string -> string.
Variable camelToPascal : string -> string.

(** The random generator: [random k mod numChars] is the value of
    [Math.floor( Math.random() * numChars )] at the [k]-th call, a
    number below [numChars]. *)
Variable random : nat -> nat.

(** [static parseSource( source, isMatchingPrefix = false )] *)
Definition parseSource (source : value) (isMatchingPrefix : bool)
  : res compiledSource :=
  p ← preparseSource source;
  '(pattern, parameters) ← Parser (url p) (source_options isMatchingPrefix p);
  prefix ← extractPrefix (url p);
  render ← Compiler (url p);
  Ok {| cs_method := type p;
        cs_definition := url p;
        cs_pattern := pattern;
        cs_parameters := parameters;
        cs_prefix := prefix;
        cs_render := render |}.

(** The first part of [parseTarget]: the module, the method and the
    own property [args] a target selects; a function is its own
    handler. *)
Inductive selection : Type :=
| Direct (handler : value)
| Selected (module method : value) (args : option value).

Definition selectTarget (target : value) : res selection :=
  match JS.typeof target, target with
  | JS.TString, VStr s =>
      match RegExp.exec targetPattern (Str.trim s) with
      | None => Throw InvalidTargetSelector
      | Some m =>
          Ok (Selected (JS.opt_value (RegExp.sub m 1))
                (JS.or (JS.opt_value (RegExp.sub m 2)) (VStr "index"))
                None)
      end
  | JS.TFunction, _ => Ok (Direct target)
  | JS.TObject, _ =>
      if JS.truthy target
         && JS.truthy (JS.or (JS.or (JS.get target "module") (JS.get target "controller"))
                         (JS.get target "policy"))
         && JS.truthy (JS.get target "method")
      then
        let args :=
          if JS.hasOwnProperty target "args"
          then Some (JS.get target "args") else None in
        if negb (JS.truthy (JS.get target "module"))
        then Ok (Selected (JS.or (JS.get target "controller") (JS.get target "policy"))
                   (JS.get target "method") args)
        else Ok (Selected (JS.get target "module") (JS.get target "method") args)
      else Throw InvalidTargetDescriptor
  | _, _ => Throw InvalidTargetDescriptor
  end.

(** The names tried in the collection, in order. *)
Definition candidates (module : string) : list string :=
  [module; kebabToPascal module; camelToPascal module].

(** [[ ... ].find( name => implementations.hasOwnProperty( name ) )] *)
Definition findImplementation (implementations : gmap string implementation)
    (module : string) : option string :=
  List.find (fun name => bool_decide (is_Some (implementations !! name)))
    (candidates module).

(** [static parseTarget( target, _api )]; [_api] is [None] when it
    fails the test at the head of the function. *)
Definition parseTarget (cls : variant) (target : value) (_api : option runtime)
  : res compiledTarget :=
  match _api with
  | None => Throw InvalidApi
  | Some rt =>
      sel ← selectTarget target;
      match sel with
      | Direct h => Ok {| ct_handler := h; ct_args := []; ct_warning := None |}
      | Selected module method args =>
          (* _target.module.replace( this.tailPattern, "" ) *)
          module ← match module with
                   | VStr s => Ok (RegExp.remove_first (tailPattern cls) s)
                   | _ => Throw RuntimeTypeError
                   end;
          (* implementations.hasOwnProperty on a missing collection *)
          implementations ← match rt (collectionPluralName cls) with
                            | Some c => Ok c
                            | None => Throw RuntimeTypeError
                            end;
          let implementName := findImplementation implementations module in
          let found :=
            match implementName with
            | Some n =>
                if Str.is_empty n then None else implementations !! n
            | None => None
            end in
          match found with
          | Some impl =>
              let handler := impl (JS.ToString method) in
              if JS.isFunction handler then
                Ok {| ct_handler := handler;
                      ct_args := match args with
                                 | Some (VArr items) => items
                                 | Some a => [a]
                                 | None => []
                                 end;
                      ct_warning := None |}
              else
                Ok {| ct_handler := handler;
                      ct_args := [];
                      ct_warning :=
                        Some ("invalid route to missing "
                              +:+ collectionSingularName cls +:+ " action "
                              +:+ module +:+ "." +:+ JS.ToString method) |}
          | None =>
              Ok {| ct_handler := VNull;
                    ct_args := [];
                    ct_warning :=
                      Some ("invalid route to missing "
                            +:+ collectionSingularName cls +:+ " " +:+ module
                            +:+ " (to contain action " +:+ JS.ToString method
                            +:+ ")") |}
          end
      end
  end.

(** [_isValid()] *)
Definition _isValid (handler : value) : bool := JS.isFunction handler.

(** [constructor( source, target, _api, { isMatchingPrefix } )] *)
Definition construct (cls : variant) (source target : value)
    (_api : option runtime) (isMatchingPrefix : bool) : res t :=
  compiledSource ← parseSource source isMatchingPrefix;
  compiledTarget ← parseTarget cls target _api;
  Ok {| class := cls;
        source := source;
        target := target;
        method := cs_method compiledSource;
        path := cs_definition compiledSource;
        prefix := cs_prefix compiledSource;
        pattern := cs_pattern compiledSource;
        parameters := cs_parameters compiledSource;
        compile := cs_render compiledSource;
        handler := ct_handler compiledTarget;
        args := ct_args compiledTarget;
        (* compiledTarget.warning || null *)
        warning := match ct_warning compiledTarget with
                   | Some w => if Str.is_empty w then None else Some w
                   | None => None
                   end;
        isValid := _isValid (ct_handler compiledTarget) |}.

(** [new Route( source, target, _api, { isMatchingPrefix } )] *)
Definition newRoute (source target : value) (_api : option runtime)
    (isMatchingPrefix : bool) : res t :=
  construct Base source target _api isMatchingPrefix.

(** [new TerminalRoute( source, target, _api )] *)
Definition newTerminalRoute (source target : value) (_api : option runtime) : res t :=
  construct Terminal source target _api false.

(** [new PolicyRoute( source, target, _api )] *)
Definition newPolicyRoute (source target : value) (_api : option runtime) : res t :=
  construct Policy source target _api true.

(** The default of [isMatchingPrefix] of each class. *)
Definition isMatchingPrefix_of (cls : variant) : bool :=
  match cls with Policy => true | _ => false end.

(** One random character of [generateExamples]. *)
Definition random_char (k : nat) : string :=
  let numUnreserved := String.length unreservedChars in
  let numChars := String.length reservedChars + numUnreserved in
  let index := random k mod numChars in
  if numUnreserved <=? index
  then JS.charAt reservedChars (index - numUnreserved)
  else JS.charAt unreservedChars index.

(** [n] random characters, from the [k]-th call of the generator on. *)
Fixpoint random_values (n k : nat) : list value :=
  match n with
  | 0 => []
  | S n' => VStr (random_char k) :: random_values n' (S k)
  end.

(** The values of one example: the second loop of an iteration. *)
Fixpoint example_values (cs : list counter) (values : list (string * value))
    (k : nat) : list (string * value) * nat :=
  match cs with
  | [] => (values, k)
  | info :: cs' =>
      if (c_next info =? 0)%Z then example_values cs' values k
      else
        let name := Key.to_string (c_name info) in
        let n := Z.to_nat (c_next info) in
        let '(value, k) :=
          if c_hasCustom info then (c_custom info, k)
          else (VArr (random_values n k), k + n) in
        let stored :=
          if c_repeat info && JS.isArray value then value
          else
            let value := VStr (JS.ToString value) in
            if c_repeat info then VArr [value] else value in
        example_values cs' (JS.assign name stored values) k
  end.

(** The main loop of [generateExamples], [n] iterations. *)
Fixpoint examples_loop (render : value -> res string) (n : nat)
    (cs : list counter) (k : nat) : res (list string) :=
  match n with
  | 0 => Ok []
  | S n' =>
      let '(values, k) := example_values cs [] k in
      example ← render (VObj values);
      examples ← examples_loop render n' (advance true cs) k;
      Ok (example :: examples)
  end.

(** [generateExamples( customValues, options )]; [customValues] is
    an object, given by its own properties. *)
Definition generateExamples (route : t) (customValues : list (string * value))
    (o : example_options) : res (list string) :=
  let countsPerParameter :=
    List.map (count_parameter customValues o) (parameters route) in
  let count := count_examples countsPerParameter in
  examples_loop (compile route) (Z.to_nat count) (rev countsPerParameter) 0.

(** The test at the head of [selectProbablyCoveredPrefixes]. *)
Definition invalid_option (i : value) : bool :=
  match i with
  | VStr s => String.length (Str.trim s) <? 1
  | _ => true
  end.

(** The body of the loop of [selectProbablyCoveredPrefixes].
    [covered] is an object created by [{}], and the value assigned
    is a number: the assignment to the key [__proto__] creates no
    property. *)
Definition cover (myPattern : RegExp.compiled) (covered : gmap string nat)
    (optionPrefix : value) : gmap string nat :=
  let text := JS.ToString optionPrefix in
  match RegExp.exec myPattern text with
  | Some m =>
      let indicator :=
        if JS.isString optionPrefix && String.eqb (RegExp.whole m) text
        then MATCH_FULL else MATCH_PARTIAL in
      if String.eqb text "__proto__" then covered
      else <[ text := indicator ]> covered
  | None => covered
  end.

(** The pattern [selectProbablyCoveredPrefixes] derives from the
    path of the route. *)
Definition coveringPattern (route : t) : res RegExp.compiled :=
  '(myPattern, _) ← Parser (path route) covering_options;
  match RegExp.compile
          {| RegExp.source :=
               RegExp.remove_first finalDollarPattern (RegExp.source myPattern);
             RegExp.flags := "" |} with
  | Some c => Ok c
  | None => Throw PatternError
  end.

(** [selectProbablyCoveredPrefixes( options )] *)
Definition selectProbablyCoveredPrefixes (route : t) (options : value)
  : res (gmap string nat) :=
  match options with
  | VArr items =>
      if existsb invalid_option items then Throw InvalidOptions
      else
        myPattern ← coveringPattern route;
        Ok (fold_left (cover myPattern) items ∅)
  | _ => Throw InvalidOptions
  end.

End WithLibrary.

End Route.

(* ===================================================================== *)
(** * lib/router/normalize/definition.js                                  *)
(* ===================================================================== *)

Module Normalize.

(** The shapes of a normalised definition: with all four stages, with
    two stages, or a single set. *)
Inductive tables : Type :=
| Staged4 (early before after late : value)
| Staged2 (before after : value)
| Flat (set : value).

(** [new Map()] *)
Definition emptyMap : value := VMap [].

(** The body of the loop of [_normalizeSet] over an array. *)
Definition add_route (mapping : list (value * value)) (route : value)
  : res (list (value * value)) :=
  '(source, target) ←
    match route with
    | VArr items =>
        match items with
        | [source; target] => Ok (source, target)
        | _ => Throw InvalidArrayRoute
        end
    | _ =>
        _source ← Route.preparseSource route;
        Ok (VStr (Route.type _source +:+ " " +:+ Route.url _source), route)
    end;
  match JS.map_get source mapping with
  | Some existing =>
      (* mapping.has( source ) *)
      if JS.isArray source then
        (* existing.push( target ) *)
        match existing with
        | VArr targets => Ok (JS.map_set source (VArr (targets ++ [target])) mapping)
        | _ => Throw RuntimeTypeError
        end
      else Ok (JS.map_set source (VArr [existing; target]) mapping)
  | None => Ok (JS.map_set source target mapping)
  end.

Fixpoint add_routes (mapping : list (value * value)) (routes : list value)
  : res (list (value * value)) :=
  match routes with
  | [] => Ok mapping
  | route :: routes' =>
      mapping ← add_route mapping route;
      add_routes mapping routes'
  end.

(** The body of the loop of [_normalizeSet] over the own properties of
    an object. *)
Definition add_property (raw : value) (mapping : list (value * value)) (name : string)
  : res (list (value * value)) :=
  source ← Route.preparseSource (VStr name);
  Ok (JS.map_set
        (VStr (Route.type source +:+ " "
               +:+ (if Route.exact source then "=" else "")
               +:+ (if Route.matchPrefix source then "~" else "")
               +:+ Route.url source))
        (JS.get raw name) mapping).

Fixpoint add_properties (raw : value) (mapping : list (value * value))
    (names : list string) : res (list (value * value)) :=
  match names with
  | [] => Ok mapping
  | name :: names' =>
      mapping ← add_property raw mapping name;
      add_properties raw mapping names'
  end.

(** The own enumerable properties a [for ... in] loop visits. *)
Definition own_names (o : value) : list string :=
  match o with
  | VObj props => List.map fst props
  | _ => []
  end.

(** [_normalizeSet( rawSetOfRoutes )] *)
Definition _normalizeSet (rawSetOfRoutes : value) : res value :=
  if negb (JS.truthy rawSetOfRoutes) then Ok emptyMap
  else
    match rawSetOfRoutes with
    | VMap _ => Ok rawSetOfRoutes
    | VArr routes => mapping ← add_routes [] routes; Ok (VMap mapping)
    | VObj _ =>
        mapping ← add_properties rawSetOfRoutes [] (own_names rawSetOfRoutes);
        Ok (VMap mapping)
    | _ => Throw InvalidRawList
    end.

(** The flags of the loop over the names of a raw definition. *)
Record scan : Type := {
  explicit : bool;
  foundExplicit : bool;
  unexpectedStages : bool;
}.

(** The [switch] on one name. *)
Definition scan_name (supportAllStages : bool) (name : string) (st : scan) : scan :=
  if String.eqb name "early" || String.eqb name "late" then
    {| explicit := explicit st;
       foundExplicit := true;
       unexpectedStages := if negb supportAllStages then true else unexpectedStages st |}
  else if String.eqb name "before" || String.eqb name "after" then
    {| explicit := explicit st;
       foundExplicit := true;
       unexpectedStages := unexpectedStages st |}
  else
    {| explicit := false;
       foundExplicit := foundExplicit st;
       unexpectedStages := unexpectedStages st |}.

(** The loop over the own names, left when [toCheck] is used up. *)
Fixpoint scan_names (supportAllStages : bool) (names : list string)
    (toCheck : nat) (st : scan) : scan :=
  match names with
  | [] => st
  | name :: names' =>
      match toCheck with
      | 0 => st
      | S toCheck' =>
          scan_names supportAllStages names' toCheck'
            (scan_name supportAllStages name st)
      end
  end.

(** [result[name]] after the loop over the stages of [result]. *)
Definition stage (rawDefinition : value) (name : string) : res value :=
  if JS.hasOwnProperty rawDefinition name
  then _normalizeSet (JS.get rawDefinition name)
  else Ok emptyMap.

(** The [return] behind the [switch]: the definition as one set. *)
Definition implicit (supportAnyStage supportAllStages : bool) (rawDefinition : value)
  : res tables :=
  let set := JS.or rawDefinition (VObj []) in
  if supportAnyStage then
    if supportAllStages then
      before ← _normalizeSet set;
      Ok (Staged4 emptyMap before emptyMap emptyMap)
    else
      before ← _normalizeSet set;
      Ok (Staged2 before emptyMap)
  else
    set ← _normalizeSet set;
    Ok (Flat set).

(** [_normalizeDefinition( supportAnyStage, supportAllStages, rawDefinition )] *)
Definition _normalizeDefinition (supportAnyStage supportAllStages : bool)
    (rawDefinition : value) : res tables :=
  match JS.typeof rawDefinition with
  | JS.TObject =>
      if JS.truthy rawDefinition && negb (JS.isArray rawDefinition) then
        let st :=
          if supportAnyStage
          then scan_names supportAllStages (own_names rawDefinition) 5
                 {| explicit := true; foundExplicit := false;
                    unexpectedStages := false |}
          else {| explicit := false; foundExplicit := false;
                  unexpectedStages := false |} in
        if supportAnyStage && foundExplicit st && negb (explicit st)
        then Throw InvalidMix
        else if negb (explicit st)
        then implicit supportAnyStage supportAllStages rawDefinition
        else if unexpectedStages st then Throw UnexpectedStages
        else if supportAllStages then
          early ← stage rawDefinition "early";
          before ← stage rawDefinition "before";
          after ← stage rawDefinition "after";
          late ← stage rawDefinition "late";
          Ok (Staged4 early before after late)
        else
          before ← stage rawDefinition "before";
          after ← stage rawDefinition "after";
          Ok (Staged2 before after)
      else implicit supportAnyStage supportAllStages rawDefinition
  | JS.TUndefined => implicit supportAnyStage supportAllStages rawDefinition
  | _ => Throw InvalidRouteDefinition
  end.

(** [module.exports] *)
Definition Plugin : value -> res tables := _normalizeDefinition true false.
Definition Custom : value -> res tables := _normalizeDefinition true true.
Definition Blueprint : value -> res tables := _normalizeDefinition false false.

End Normalize.

(* ===================================================================== *)
(** * The pattern library                                                 *)
(* ===================================================================== *)

(** Modelled from the spec: the Pattern Compiler of section 4.1, which
    the sources import from the package path-to-regexp and which is not
    part of the repository.  The grammar of a path, what is rejected and
    the text of the compiled pattern follow release 6.2 of that package,
    the one whose parameters carry the properties name, prefix, suffix,
    pattern and modifier the tests of the route compiler ask for. *)

Module PathToRegexp.

Inductive token_type : Type :=
| MODIFIER | ESCAPED_CHAR | OPEN | CLOSE | NAME | PATTERN | CHAR | END.

Definition token_type_eqb (a b : token_type) : bool :=
  match a, b with
  | MODIFIER, MODIFIER | ESCAPED_CHAR, ESCAPED_CHAR | OPEN, OPEN
  | CLOSE, CLOSE | NAME, NAME | PATTERN, PATTERN | CHAR, CHAR | END, END => true
  | _, _ => false
  end.

(** A token of the lexer; [None] is the [undefined] of an escape at
    the end of the text. *)
Record lex_token : Type := {
  lt_type : token_type;
  lt_value : option string;
}.

Definition tok (t : token_type) (v : string) : lex_token :=
  {| lt_type := t; lt_value := Some v |}.

Definition is_name_char (c : ascii) : bool :=
  Str.between 48 57 c || Str.between 65 90 c || Str.between 97 122 c
  || (Str.code c =? 95).

(** The text of a group behind its opening parenthesis: the pattern
    and what follows the closing parenthesis. *)
Fixpoint lex_pattern (s : string) (count : nat) (pattern : string)
  : res (string * string) :=
  match s with
  | EmptyString => Throw LibraryError                  (* unbalanced pattern *)
  | String "\" (String c s') =>
      lex_pattern s' count (pattern +:+ String "\" (String c EmptyString))
  | String "\" EmptyString => Throw LibraryError       (* unbalanced pattern *)
  | String ")" s' =>
      match count with
      | 0 | 1 => Ok (pattern, s')
      | S count' => lex_pattern s' count' (pattern +:+ ")")
      end
  | String "(" s' =>
      match s' with
      | String "?" _ => lex_pattern s' (S count) (pattern +:+ "(")
      | _ => Throw LibraryError                        (* capturing groups are not allowed *)
      end
  | String c s' => lex_pattern s' count (pattern +:+ String c EmptyString)
  end.

Fixpoint lexer (fuel : nat) (str : string) : res (list lex_token) :=
  match fuel with
  | 0 => Ok [tok END ""]
  | S fuel' =>
      match str with
      | EmptyString => Ok [tok END ""]
      | String c s' =>
          if Ascii.eqb c "*" || Ascii.eqb c "+" || Ascii.eqb c "?" then
            ts ← lexer fuel' s'; Ok (tok MODIFIER (String c EmptyString) :: ts)
          else if Ascii.eqb c "\" then
            match s' with
            | String e s'' =>
                ts ← lexer fuel' s''; Ok (tok ESCAPED_CHAR (String e EmptyString) :: ts)
            | EmptyString =>
                Ok [{| lt_type := ESCAPED_CHAR; lt_value := None |}; tok END ""]
            end
          else if Ascii.eqb c "{" then
            ts ← lexer fuel' s'; Ok (tok OPEN "{" :: ts)
          else if Ascii.eqb c "}" then
            ts ← lexer fuel' s'; Ok (tok CLOSE "}" :: ts)
          else if Ascii.eqb c ":" then
            let '(name, s'') := Str.span is_name_char s' in
            if Str.is_empty name then Throw LibraryError  (* missing parameter name *)
            else ts ← lexer fuel' s''; Ok (tok NAME name :: ts)
          else if Ascii.eqb c "(" then
            match s' with
            | String "?" _ => Throw LibraryError       (* pattern cannot start with ? *)
            | _ =>
                '(pattern, s'') ← lex_pattern s' 1 EmptyString;
                if Str.is_empty pattern then Throw LibraryError  (* missing pattern *)
                else ts ← lexer fuel' s''; Ok (tok PATTERN pattern :: ts)
            end
          else
            ts ← lexer fuel' s'; Ok (tok CHAR (String c EmptyString) :: ts)
      end
  end.

(** A token of a parsed path: text, or a parameter. *)
Inductive token : Type :=
| Text (s : string)
| Param (k : Key.t).

(** [escapeString] *)
Definition escaped : string := ".+*?=^!:${}()[]|/\".

Fixpoint escapeString (s : string) : string :=
  match s with
  | EmptyString => EmptyString
  | String c s' =>
      if existsb (Ascii.eqb c) (list_ascii_of_string escaped)
      then String "\" (String c (escapeString s'))
      else String c (escapeString s')
  end.

Definition defaultPattern : string := "[^" +:+ escapeString "/#?" +:+ "]+?".

(** [tryConsume( type )]: the value of the next token when it has the
    type (and the tokens behind it), nothing otherwise. *)
Definition tryConsume (t : token_type) (ts : list lex_token)
  : option (option string) * list lex_token :=
  match ts with
  | x :: ts' => if token_type_eqb (lt_type x) t then (Some (lt_value x), ts') else (None, ts)
  | [] => (None, ts)
  end.

(** A consumed value as the program tests it: [undefined] and the
    empty string count as nothing. *)
Definition taken (v : option (option string)) : option string :=
  match v with
  | Some (Some s) => if Str.is_empty s then None else Some s
  | _ => None
  end.

Definition or_empty (v : option string) : string :=
  match v with Some s => s | None => EmptyString end.

(** [consumeText()] *)
Fixpoint consumeText (fuel : nat) (ts : list lex_token) : string * list lex_token :=
  match fuel with
  | 0 => (EmptyString, ts)
  | S fuel' =>
      let '(c, ts1) := tryConsume CHAR ts in
      match taken c with
      | Some v => let '(r, ts2) := consumeText fuel' ts1 in (v +:+ r, ts2)
      | None =>
          let '(e, ts2) := tryConsume ESCAPED_CHAR ts1 in
          match taken e with
          | Some v => let '(r, ts3) := consumeText fuel' ts2 in (v +:+ r, ts3)
          | None => (EmptyString, ts2)
          end
      end
  end.

Definition flush (path : string) (result : list token) : list token :=
  if Str.is_empty path then result else result ++ [Text path].

(** The loop of [parse]: [key] counts the unnamed parameters, [path]
    is the text read since the last token. *)
Fixpoint parse_loop (fuel : nat) (ts : list lex_token) (key : nat)
    (path : string) (result : list token) : res (list token) :=
  match fuel with
  | 0 => Throw LibraryError
  | S fuel' =>
      match ts with
      | [] => Ok result
      | _ =>
          let '(char, ts1) := tryConsume CHAR ts in
          let '(name, ts2) := tryConsume NAME ts1 in
          let '(pattern, ts3) := tryConsume PATTERN ts2 in
          match taken name, taken pattern with
          | None, None =>
              let '(value, ts4) :=
                match taken char with
                | Some c => (Some c, ts3)
                | None => let '(e, ts4) := tryConsume ESCAPED_CHAR ts3 in (taken e, ts4)
                end in
              match value with
              | Some v => parse_loop fuel' ts4 key (path +:+ v) result
              | None =>
                  let result := flush path result in
                  let '(open, ts5) := tryConsume OPEN ts4 in
                  match taken open with
                  | Some _ =>
                      let '(prefix, ts6) := consumeText (length ts5) ts5 in
                      let '(name, ts7) := tryConsume NAME ts6 in
                      let '(pattern, ts8) := tryConsume PATTERN ts7 in
                      let '(suffix, ts9) := consumeText (length ts8) ts8 in
                      match tryConsume CLOSE ts9 with
                      | (Some (Some _), ts10) =>
                          let '(modifier, ts11) := tryConsume MODIFIER ts10 in
                          let name := or_empty (taken name) in
                          let pattern := or_empty (taken pattern) in
                          let unnamed := Str.is_empty name && negb (Str.is_empty pattern) in
                          parse_loop fuel' ts11
                            (if unnamed then S key else key) EmptyString
                            (result ++
                             [Param {| Key.name :=
                                         if unnamed then Key.Indexed key
                                         else Key.Named name;
                                       Key.pattern :=
                                         if negb (Str.is_empty name) && Str.is_empty pattern
                                         then defaultPattern else pattern;
                                       Key.prefix := prefix;
                                       Key.suffix := suffix;
                                       Key.modifier := or_empty (taken modifier) |}])
                      | _ => Throw LibraryError        (* unexpected token, expected CLOSE *)
                      end
                  | None =>
                      match tryConsume END ts5 with
                      | (Some (Some _), ts6) => parse_loop fuel' ts6 key EmptyString result
                      | _ => Throw LibraryError        (* unexpected token, expected END *)
                      end
                  end
              end
          | name, pattern =>
              let prefix := or_empty (taken char) in
              let '(path, prefix) :=
                if existsb (String.eqb prefix) [""; "."; "/"]
                then (path, prefix) else (path +:+ prefix, EmptyString) in
              let result := flush path result in
              let '(modifier, ts4) := tryConsume MODIFIER ts3 in
              parse_loop fuel' ts4
                (match name with Some _ => key | None => S key end) EmptyString
                (result ++
                 [Param {| Key.name :=
                             match name with
                             | Some n => Key.Named n
                             | None => Key.Indexed key
                             end;
                           Key.prefix := prefix;
                           Key.suffix := EmptyString;
                           Key.pattern :=
                             match pattern with
                             | Some p => p
                             | None => defaultPattern
                             end;
                           Key.modifier := or_empty (taken modifier) |}])
          end
      end
  end.

(** [parse( str )] *)
Definition parse (str : string) : res (list token) :=
  ts ← lexer (S (String.length str)) str;
  parse_loop (S (length ts)) ts 0 EmptyString [].

(** [flags( options )] *)
Definition flags (o : parser_options) : string :=
  if sensitive o then "" else "i".

Definition delimiterRe : string := "[" +:+ escapeString "/#?" +:+ "]".
Definition endsWithRe : string := "[]|$".

(** The text a token contributes to the pattern. *)
Definition token_source (t : token) : string :=
  match t with
  | Text s => escapeString s
  | Param k =>
      let prefix := escapeString (Key.prefix k) in
      let suffix := escapeString (Key.suffix k) in
      let modifier := Key.modifier k in
      let repeats := String.eqb modifier "+" || String.eqb modifier "*" in
      if negb (Str.is_empty (Key.pattern k)) then
        if negb (Str.is_empty prefix) || negb (Str.is_empty suffix) then
          if repeats then
            "(?:" +:+ prefix +:+ "((?:" +:+ Key.pattern k +:+ ")(?:" +:+ suffix
            +:+ prefix +:+ "(?:" +:+ Key.pattern k +:+ "))*)" +:+ suffix +:+ ")"
            +:+ (if String.eqb modifier "*" then "?" else "")
          else
            "(?:" +:+ prefix +:+ "(" +:+ Key.pattern k +:+ ")" +:+ suffix +:+ ")"
            +:+ modifier
        else if repeats then
          "((?:" +:+ Key.pattern k +:+ ")" +:+ modifier +:+ ")"
        else "(" +:+ Key.pattern k +:+ ")" +:+ modifier
      else "(?:" +:+ prefix +:+ suffix +:+ ")" +:+ modifier
  end.

Definition last_char (s : string) : option ascii :=
  String.get (Nat.pred (String.length s)) s.

(** The end of the pattern. *)
Definition end_source (tokens : list token) (o : parser_options) : string :=
  if end_ o then
    (if negb (strict o) then delimiterRe +:+ "?" else "") +:+ "$"
  else
    let isEndDelimited :=
      match last tokens with
      | Some (Text s) =>
          match last_char s with
          | Some c => existsb (Ascii.eqb c) (list_ascii_of_string delimiterRe)
          | None => false
          end
      | Some (Param _) => false
      | None => true
      end in
    (if negb (strict o)
     then "(?:" +:+ delimiterRe +:+ "(?=" +:+ endsWithRe +:+ "))?" else "")
    +:+ (if negb isEndDelimited
         then "(?=" +:+ delimiterRe +:+ "|" +:+ endsWithRe +:+ ")" else "").

Definition keys_of (tokens : list token) : list Key.t :=
  flat_map (fun t =>
    match t with
    | Param k => if Str.is_empty (Key.pattern k) then [] else [k]
    | Text _ => []
    end) tokens.

(** [tokensToRegexp( tokens, keys, options )] *)
Definition tokensToRegexp (tokens : list token) (o : parser_options)
  : res (RegExp.t * list Key.t) :=
  let route := "^" +:+ Str.concat (List.map token_source tokens) +:+ end_source tokens o in
  let re := {| RegExp.source := route; RegExp.flags := flags o |} in
  match RegExp.compile re with
  | Some _ => Ok (re, keys_of tokens)
  | None => Throw PatternError
  end.

(** [pathToRegexp( path, keys, options )] on a string. *)
Definition pathToRegexp : parser_t := fun path o =>
  tokens ← parse path;
  tokensToRegexp tokens o.

Definition hex_digit (n : nat) : ascii :=
  if n <? 10 then ascii_of_nat (48 + n) else ascii_of_nat (55 + n).

(** [encodeURIComponent] on characters below 128. *)
Definition encode_char (c : ascii) : string :=
  if is_name_char c
     || existsb (Ascii.eqb c) (list_ascii_of_string "-.!~*'()")
  then String c EmptyString
  else String "%" (String (hex_digit (Str.code c / 16))
                     (String (hex_digit (Str.code c mod 16)) EmptyString)).

Fixpoint encodeURIComponent (s : string) : string :=
  match s with
  | EmptyString => EmptyString
  | String c s' => encode_char c +:+ encodeURIComponent s'
  end.

(** The patterns [tokensToFunction] checks the values with. *)
Definition validator (k : Key.t) : option RegExp.compiled :=
  RegExp.compile {| RegExp.source := "^(?:" +:+ Key.pattern k +:+ ")$";
                    RegExp.flags := "i" |}.

Fixpoint render_segments (k : Key.t) (m : RegExp.compiled) (values : list value)
  : res string :=
  match values with
  | [] => Ok EmptyString
  | v :: values' =>
      let segment := encodeURIComponent (JS.ToString v) in
      if RegExp.test m segment then
        r ← render_segments k m values';
        Ok (Key.prefix k +:+ segment +:+ Key.suffix k +:+ r)
      else Throw LibraryError                          (* expected all to match *)
  end.

(** The function [tokensToFunction] returns, applied to [data]. *)
Fixpoint render_tokens (tokens : list token) (data : value) : res string :=
  match tokens with
  | [] => Ok EmptyString
  | Text s :: tokens' => r ← render_tokens tokens' data; Ok (s +:+ r)
  | Param k :: tokens' =>
      let value :=
        if JS.truthy data then JS.get data (Key.to_string (Key.name k)) else VUndefined in
      let optional := String.eqb (Key.modifier k) "?" || String.eqb (Key.modifier k) "*" in
      let repeat := String.eqb (Key.modifier k) "*" || String.eqb (Key.modifier k) "+" in
      m ← match validator k with Some m => Ok m | None => Throw PatternError end;
      match value with
      | VArr items =>
          if negb repeat then Throw LibraryError       (* expected not to repeat *)
          else
            match items with
            | [] =>
                if optional then render_tokens tokens' data
                else Throw LibraryError                (* expected not to be empty *)
            | _ =>
                segments ← render_segments k m items;
                r ← render_tokens tokens' data;
                Ok (segments +:+ r)
            end
      | VStr _ | VNum _ =>
          segments ← render_segments k m [value];
          r ← render_tokens tokens' data;
          Ok (segments +:+ r)
      | _ =>
          if optional then render_tokens tokens' data
          else Throw LibraryError                      (* expected a string or an array *)
      end
  end.

(** [compile( str, { encode: encodeURIComponent } )] *)
Definition compile : compiler_t := fun str =>
  tokens ← parse str;
  if forallb (fun k => bool_decide (is_Some (validator k)))
       (flat_map (fun t => match t with Param k => [k] | Text _ => [] end) tokens)
  then Ok (render_tokens tokens)
  else Throw PatternError.

End PathToRegexp.

(* ===================================================================== *)
(** * Notions the properties are stated with                              *)
(* ===================================================================== *)

Module Spec.

Definition one_of (set : string) (c : ascii) : bool :=
  existsb (Ascii.eqb c) (list_ascii_of_string set).

(** The characters [* + ?], the characters [( : [ {], and both. *)
Definition is_modifier : ascii -> bool := one_of "*+?".
Definition is_opener : ascii -> bool := one_of "(:[{".
Definition is_meta (c : ascii) : bool := is_modifier c || is_opener c.
Definition is_literal (c : ascii) : bool := negb (is_meta c).

(** A text without its final slash, if it has one. *)
Fixpoint stripFinalSlash (s : string) : string :=
  match s with
  | EmptyString => EmptyString
  | String c s' =>
      if Ascii.eqb c "/" && Str.is_empty s' then EmptyString
      else String c (stripFinalSlash s')
  end.

(** The final slash removed, and a slash when nothing is left. *)
Definition finish (s : string) : string :=
  let s' := stripFinalSlash s in
  if Str.is_empty s' then "/" else s'.

(** The longest literal run before the first metacharacter. *)
Definition literal_run (url : string) : string := fst (Str.span is_literal url).

(** The prefix as the specification words it. *)
Definition claimed_prefix (url : string) : string := finish (literal_run url).

(** What may stand right behind the prefix: the end of the text, one
    of [( : [ {], or a character followed by one of [* + ?]. *)
Definition closes_prefix (rest : string) : bool :=
  match rest with
  | EmptyString => true
  | String c rest' =>
      is_opener c
      || (negb (Str.is_line_terminator c)
          && match rest' with
             | String m _ => is_modifier m
             | EmptyString => false
             end)
  end.

(** A text split into all but its last character, and the last. *)
Fixpoint unsnoc (s : string) : option (string * ascii) :=
  match s with
  | EmptyString => None
  | String c s' =>
      match unsnoc s' with
      | None => Some (EmptyString, c)
      | Some (i, l) => Some (String c i, l)
      end
  end.

(** The prefix as the program extracts it: from the literal run when
    what follows it closes the prefix, else from the run without its
    last character when that character and the modifier behind it
    close the prefix; there is no prefix otherwise. *)
Definition amended_prefix (url : string) : res string :=
  let '(run, rest) := Str.span is_literal url in
  if closes_prefix rest then Ok (finish run)
  else
    match unsnoc run with
    | Some (run', x) =>
        if Str.is_line_terminator x then Throw RuntimeTypeError
        else Ok (finish run')
    | None => Throw RuntimeTypeError
    end.

(** The method token of a source: the first word of the trimmed
    text, unless the text starts with the path or its marker. *)
Definition method_token (source : string) : option string :=
  let s := Str.trim source in
  match s with
  | EmptyString => None
  | String c _ =>
      if one_of "/=~" c then None
      else Some (fst (Str.span (fun c => negb (Str.is_space c)) s))
  end.

(** The method the specification expects for a string source. *)
Definition expected_method (source : string) : string :=
  match method_token source with
  | None => "ALL"
  | Some token =>
      if String.eqb token "*" then "ALL" else Str.toUpperCase token
  end.

(** Whether the pattern is to be anchored at the end. *)
Definition anchored (isMatchingPrefix exact tilde : bool) : bool :=
  exact || negb (isMatchingPrefix || tilde).

(** The names of the stages. *)
Definition is_stage_name (name : string) : bool :=
  existsb (String.eqb name) ["early"; "before"; "after"; "late"].

(** The number of examples a parameter stands for. *)
Definition parameter_cardinality (k : Key.t) : nat :=
  let m := Key.modifier k in
  if String.eqb m "?" then 2
  else if String.eqb m "+" then 3
  else if String.eqb m "*" then 4
  else 1.

Fixpoint product (l : list nat) : nat :=
  match l with
  | [] => 1
  | n :: l' => n * product l'
  end.

End Spec.

(* ===================================================================== *)
(** * The patterns of the sources as trees                                *)
(* ===================================================================== *)

(** What [RegExp.parse] reads from the patterns the proofs reason about,
    and the lists of matches the proofs follow. *)

Module Trees.
Import RegExp.

Definition set_of (s : string) : cset :=
  List.map (fun c => (c, c)) (list_ascii_of_string s).

(** The last group of [prefixPattern]. *)
Definition prefixTail : regex :=
  Group 2 (Alt (Seq (Chars true line_terminators) (Chars false (set_of "*+?")))
               (Alt (Chars false (set_of "(:[{")) Eol)).

Definition prefixTree : regex :=
  Seq Bol
    (Seq (Group 1 (Quant 0 None true (Chars true (set_of "*+?(:[{"))))
         prefixTail).

Definition finalSlashTree : regex := Seq (Chars false (set_of "/")) Eol.

Definition methodTree : regex :=
  Alt (Chars false (set_of "*"))
      (Seq (Chars false [range 97 122])
           (Quant 1 None true (Chars false [range 45 45; range 97 122]))).

Definition urlTree : regex :=
  Seq (Quant 0 (Some 1) true (Chars false (set_of "=~")))
      (Seq (Chars false (set_of "/"))
           (Quant 0 None false (Chars true line_terminators))).

Definition arrowTree : regex :=
  Seq (Quant 0 None true (Chars false spaces))
      (Seq (Chars false (set_of "="))
           (Seq (Chars false (set_of ">"))
                (Quant 1 None true (Chars true line_terminators)))).

Definition sourceTree : regex :=
  Seq Bol
    (Seq (Quant 0 (Some 1) true
            (Seq (Group 1 methodTree) (Quant 1 None true (Chars false spaces))))
         (Seq (Group 2 urlTree)
              (Seq (Quant 0 (Some 1) true arrowTree) Eol))).

Definition not_space (c : ascii) : bool := negb (Str.is_space c).

(** The matches of a greedy starred class: the prefixes of the longest
    run of its characters, the longest first. *)
Fixpoint greedy_chars (p : ascii -> bool) (s : string) : list mres :=
  match s with
  | EmptyString => [here s]
  | String c s' =>
      if p c
      then List.map (fun z =>
             {| matched := String c (matched z); rest := rest z; caps := caps z |})
             (greedy_chars p s') ++ [here s]
      else [here s]
  end.

(** The first group of [prefixPattern] on a text, if the pattern
    matches: the longest literal run that [prefixTail] can follow. *)
Fixpoint prefix_split (url : string) : option string :=
  match url with
  | EmptyString => Some EmptyString
  | String c s' =>
      let last := if Spec.closes_prefix url then Some EmptyString else None in
      if Spec.is_literal c then
        match prefix_split s' with
        | Some m => Some (String c m)
        | None => last
        end
      else last
  end.

(** A match of the first group of [prefixPattern] behind the text
    [pre], and the matches of the whole pattern that start with it. *)
Definition wrap_pre (pre : string) (z : mres) : mres :=
  {| matched := pre +:+ matched z; rest := rest z;
     caps := caps z ++ [(1, Some (pre +:+ matched z))] |}.

Definition step (y : mres) : list mres :=
  List.map (after y)
    (run false prefixTail (true && Str.is_empty (matched y)) (rest y)).

End Trees.

(* ===================================================================== *)
(** * The registry of the tests, and values of the statements             *)
(* ===================================================================== *)

Module Examples.

(** The registry of the tests of the route compiler: a controller
    [Custom], a class with the static method [myHandler], and a policy
    [Filter] with the static method [myImplementation].  A class has a
    property [name], a string. *)
Definition CustomController : Route.implementation := fun property =>
  if String.eqb property "myHandler" then VFun 1
  else if String.eqb property "name" then VStr "CustomController"
  else VUndefined.

Definition FilterPolicy : Route.implementation := fun property =>
  if String.eqb property "myImplementation" then VFun 2
  else if String.eqb property "name" then VStr "FilterPolicy"
  else VUndefined.

Definition api : option Route.runtime :=
  Some (fun collection =>
    if String.eqb collection "controllers"
    then Some ({[ "Custom" := CustomController ]} : gmap string Route.implementation)
    else if String.eqb collection "policies"
    then Some ({[ "Filter" := FilterPolicy ]} : gmap string Route.implementation)
    else None).

(** A route of the modelled library. *)
Definition route (cls : Route.variant) (kebabToPascal camelToPascal : string -> string)
    (source target : value) : res Route.t :=
  Route.construct PathToRegexp.pathToRegexp PathToRegexp.compile
    kebabToPascal camelToPascal cls source target api
    (Route.isMatchingPrefix_of cls).

End Examples.

(** Values the statements below speak of. *)
Module Shape.

(** A pair of a source and a target, as an entry of a raw array. *)
Definition pair (key : string) (target : value) : value := VArr [VStr key; target].

(** What the program binds a key to when the targets [t :: ts] come
    under it one after the other. *)
Definition nested (t : value) (ts : list value) : value :=
  fold_left (fun existing target => VArr [existing; target]) ts t.

(** The indicator the program computes for a candidate its pattern
    matches. *)
Definition indicator (m : RegExp.result) (candidate : string) : nat :=
  if String.eqb (RegExp.whole m) candidate
  then Route.MATCH_FULL else Route.MATCH_PARTIAL.

(** The candidate [candidate] as an element of the array of options. *)
Definition is_candidate (candidate : string) (v : value) : bool :=
  match v with VStr s => String.eqb s candidate | _ => false end.

End Shape.

(** The suffix of a component name each class drops, as its
    [tailPattern] spells it, and the pattern of a word at the end of a
    text. *)
Module Tail.

Definition suffix (cls : Route.variant) : string :=
  match cls with
  | Route.Base | Route.Terminal => "Controller"
  | Route.Policy => "Policy"
  end.

Fixpoint word (w : string) : RegExp.regex :=
  match w with
  | EmptyString => RegExp.Eol
  | String c w' => RegExp.Seq (RegExp.Chars false (RegExp.single c)) (word w')
  end.

End Tail.

(** A normalised definition as the value the program returns: an object
    with its stages in the order they are created, or the map of a
    single set. *)
Module Tables.

Definition to_value (t : Normalize.tables) : value :=
  match t with
  | Normalize.Staged4 early before after late =>
      VObj [("early", early); ("before", before); ("after", after); ("late", late)]
  | Normalize.Staged2 before after => VObj [("before", before); ("after", after)]
  | Normalize.Flat set => set
  end.

(** The sets of a normalised definition. *)
Definition sets (t : Normalize.tables) : list value :=
  match t with
  | Normalize.Staged4 early before after late => [early; before; after; late]
  | Normalize.Staged2 before after => [before; after]
  | Normalize.Flat set => [set]
  end.

(** [v instanceof Map] *)
Definition is_map (v : value) : bool :=
  match v with VMap _ => true | _ => false end.

End Tables.

(** The pattern of a target selector, part by part, and the words the
    properties of selectors are stated with. *)
Module Selector.
Import RegExp.

(** [.+?=>\s*] *)
Definition leadTree : regex :=
  Seq (Quant 1 None false (Chars true line_terminators))
      (Seq (Chars false (Trees.set_of "="))
           (Seq (Chars false (Trees.set_of ">"))
                (Quant 0 None true (Chars false spaces)))).

(** [[^.:#]+] *)
Definition moduleTree : regex := Quant 1 None true (Chars true (Trees.set_of ".:#")).

(** [\.|::|#] *)
Definition separatorTree : regex :=
  Alt (Chars false (Trees.set_of "."))
      (Alt (Seq (Chars false (Trees.set_of ":")) (Chars false (Trees.set_of ":")))
           (Chars false (Trees.set_of "#"))).

(** [.+] *)
Definition methodTree : regex := Quant 1 None true (Chars true line_terminators).

Definition targetTree : regex :=
  Seq Bol
    (Seq (Quant 0 (Some 1) true leadTree)
         (Seq (Group 1 moduleTree)
              (Seq (Quant 0 (Some 1) true (Seq separatorTree (Group 2 methodTree)))
                   Eol))).

(** The separators between the module and the method of a selector. *)
Definition separators : list string := ["."; "::"; "#"].

(** A character of the name of a module in a selector. *)
Definition is_name_char (c : ascii) : bool := negb (Spec.one_of ".:#" c).

(** A character that is no line break: what a dot of a pattern takes. *)
Definition no_break (c : ascii) : bool := negb (Str.is_line_terminator c).

(** A text that starts with a character that is no white space. *)
Definition starts_word (s : string) : bool :=
  match s with
  | String c _ => negb (Str.is_space c)
  | EmptyString => false
  end.

(** A text with the arrow [=>] in it. *)
Fixpoint has_arrow (s : string) : bool :=
  match s with
  | EmptyString => false
  | String c s' =>
      (Ascii.eqb c "=" && match s' with
                          | String d _ => Ascii.eqb d ">"
                          | EmptyString => false
                          end)
      || has_arrow s'
  end.

End Selector.

(** The words the properties of source texts are stated with. *)
Module Source.
Import RegExp.

(** The end of [sourcePattern]: [(?:\s*=>.+)?$] *)
Definition tailTree : regex := Seq (Quant 0 (Some 1) true Trees.arrowTree) Eol.

(** The marks in front of a path: none, [=] and [~]. *)
Definition marks : list string := [""; "="; "~"].

Definition is_letter (c : ascii) : bool := Str.is_lower c || Str.is_upper c.

Definition is_token_char (c : ascii) : bool := is_letter c || Ascii.eqb c "-".

(** A character of a path that is no white space and no equals sign. *)
Definition is_path_char (c : ascii) : bool :=
  negb (Str.is_space c) && negb (Ascii.eqb c "=").

(** A method as a source text spells it: [*], or a letter and one or
    more letters and hyphens behind it. *)
Definition is_method (m : string) : bool :=
  String.eqb m "*"
  || match m with
     | String c m' => is_letter c && negb (Str.is_empty m') && Str.all is_token_char m'
     | EmptyString => false
     end.

End Source.

(* ===================================================================== *)
(** * Properties                                                          *)
(* ===================================================================== *)

#[local] Arguments String.append : simpl nomatch.
#[local] Arguments RegExp.char_matches : simpl never.

Module StrFacts.

Lemma app_nil_r (s : string) : s +:+ "" = s.
Proof. induction s as [|c s IH]; simpl; [reflexivity | now rewrite IH]. Qed.

Lemma app_assoc (a b c : string) : (a +:+ b) +:+ c = a +:+ (b +:+ c).
Proof. induction a as [|x a IH]; simpl; [reflexivity | now rewrite IH]. Qed.

Lemma length_app (a b : string) :
  String.length (a +:+ b) = String.length a + String.length b.
Proof. induction a as [|x a IH]; simpl; [reflexivity | now rewrite IH]. Qed.

Lemma span_app (p : ascii -> bool) (s : string) :
  fst (Str.span p s) +:+ snd (Str.span p s) = s.
Proof.
  induction s as [|c s IH]; simpl; [reflexivity|].
  destruct (p c); [|reflexivity].
  destruct (Str.span p s) as [a b]; simpl in *. now rewrite IH.
Qed.

Lemma span_all (p : ascii -> bool) (s : string) :
  Str.all p (fst (Str.span p s)) = true.
Proof.
  induction s as [|c s IH]; simpl; [reflexivity|].
  destruct (p c) eqn:E; [|reflexivity].
  destruct (Str.span p s) as [a b]; simpl in *. now rewrite E, IH.
Qed.

Lemma span_rest (p : ascii -> bool) (s : string) :
  match snd (Str.span p s) with
  | EmptyString => True
  | String c _ => p c = false
  end.
Proof.
  induction s as [|c s IH]; simpl; [exact I|].
  destruct (p c) eqn:E; [|exact E].
  destruct (Str.span p s) as [a b]; simpl in *. exact IH.
Qed.

End StrFacts.

Module RegExpFacts.
Import RegExp.

Lemma hd_flat_map {A B : Type} (f : A -> list B) (x : A) (l : list A) :
  hd_error (flat_map f (x :: l)) =
  match f x with
  | y :: _ => Some y
  | [] => hd_error (flat_map f l)
  end.
Proof. simpl. destruct (f x); reflexivity. Qed.

(** Every match of a pattern splits the text it was given. *)
Definition splits_text (body : bool -> string -> list mres) : Prop :=
  forall bol s y, In y (body bol s) -> s = matched y +:+ rest y.

Lemma repeat_split body resets greedy :
  splits_text body ->
  forall fuel mn mx, splits_text (repeat body resets greedy fuel mn mx).
Proof.
  intros Hb fuel. induction fuel as [|fuel IH]; intros mn mx bol s y Hy.
  - simpl in Hy. destruct mx as [[|m]|]; try (destruct (mn =? 0));
      simpl in Hy; intuition; subst; reflexivity.
  - simpl in Hy.
    assert (Hmore : forall y,
      In y (flat_map (fun y0 =>
          if (mn =? 0) && Str.is_empty (matched y0) then []
          else List.map (fun z =>
                 {| matched := matched y0 +:+ matched z; rest := rest z;
                    caps := resets ++ caps y0 ++ caps z |})
                 (repeat body resets greedy fuel (Nat.pred mn) (Nat.pred <$> mx)
                    (bol && Str.is_empty (matched y0)) (rest y0)))
        (body bol s)) -> s = matched y +:+ rest y).
    { intros y' Hy'. apply in_flat_map in Hy' as (y0 & H0 & Hy').
      destruct ((mn =? 0) && Str.is_empty (matched y0)); [destruct Hy'|].
      apply in_map_iff in Hy' as (z & <- & Hz). simpl.
      apply IH in Hz. apply Hb in H0. rewrite H0 at 1. rewrite Hz at 1.
      now rewrite StrFacts.app_assoc. }
    destruct mx as [[|m]|].
    + simpl in Hy. destruct Hy as [<-|[]]. reflexivity.
    + destruct (mn =? 0); [destruct greedy|]; simpl in Hy.
      * apply in_app_iff in Hy as [Hy|[<-|[]]]; [now apply Hmore | reflexivity].
      * destruct Hy as [<-|Hy]; [reflexivity | now apply Hmore].
      * now apply Hmore.
    + destruct (mn =? 0); [destruct greedy|]; simpl in Hy.
      * apply in_app_iff in Hy as [Hy|[<-|[]]]; [now apply Hmore | reflexivity].
      * destruct Hy as [<-|Hy]; [reflexivity | now apply Hmore].
      * now apply Hmore.
Qed.

Lemma run_split ic r : splits_text (run ic r).
Proof.
  induction r as [| neg cs | | | a IHa b IHb | a IHa b IHb
                  | mn mx g r IH | n r IH | neg r IH]; intros bol s y Hy;
    simpl in Hy.
  - destruct Hy as [<-|[]]. reflexivity.
  - destruct s as [|c s]; [destruct Hy|].
    destruct (char_matches ic neg cs c); [|destruct Hy].
    destruct Hy as [<-|[]]. reflexivity.
  - destruct bol; [|destruct Hy]. destruct Hy as [<-|[]]. reflexivity.
  - destruct (Str.is_empty s); [|destruct Hy]. destruct Hy as [<-|[]]. reflexivity.
  - apply in_flat_map in Hy as (y1 & H1 & Hy).
    apply in_map_iff in Hy as (y2 & <- & H2). simpl.
    apply IHa in H1. apply IHb in H2. rewrite H1 at 1. rewrite H2 at 1.
    now rewrite StrFacts.app_assoc.
  - apply in_app_iff in Hy as [Hy|Hy]; eauto.
  - eapply repeat_split; eauto.
  - apply in_map_iff in Hy as (y1 & <- & H1). simpl. eauto.
  - destruct (run ic r bol s) as [|y1 l]; destruct neg; simpl in Hy;
      intuition; subst; reflexivity.
Qed.

(** The captures of a match belong to the groups of the pattern. *)
Definition caps_within (gs : list nat) (body : bool -> string -> list mres) : Prop :=
  forall bol s y, In y (body bol s) -> Forall (fun e => In (fst e) gs) (caps y).

Lemma repeat_caps body greedy gs :
  caps_within gs body ->
  forall fuel mn mx,
    caps_within gs
      (repeat body (List.map (fun n => (n, @None string)) gs) greedy fuel mn mx).
Proof.
  intros Hb fuel.
  assert (Hres : Forall (fun e : nat * option string => In (fst e) gs)
                   (List.map (fun n => (n, @None string)) gs)).
  { apply List.Forall_forall. intros e He. apply in_map_iff in He as (n & <- & Hn). exact Hn. }
  induction fuel as [|fuel IH]; intros mn mx bol s y Hy.
  - simpl in Hy. destruct mx as [[|m]|]; try (destruct (mn =? 0));
      simpl in Hy; intuition; subst; constructor.
  - simpl in Hy.
    assert (Hmore : forall y,
      In y (flat_map (fun y0 =>
          if (mn =? 0) && Str.is_empty (matched y0) then []
          else List.map (fun z =>
                 {| matched := matched y0 +:+ matched z; rest := rest z;
                    caps := List.map (fun n => (n, @None string)) gs ++ caps y0 ++ caps z |})
                 (repeat body (List.map (fun n => (n, @None string)) gs) greedy fuel
                    (Nat.pred mn) (Nat.pred <$> mx)
                    (bol && Str.is_empty (matched y0)) (rest y0)))
        (body bol s)) -> Forall (fun e => In (fst e) gs) (caps y)).
    { intros y' Hy'. apply in_flat_map in Hy' as (y0 & H0 & Hy').
      destruct ((mn =? 0) && Str.is_empty (matched y0)); [destruct Hy'|].
      apply in_map_iff in Hy' as (z & <- & Hz). simpl.
      apply IH in Hz. apply Hb in H0.
      apply List.Forall_app; split; [exact Hres|]. apply List.Forall_app; split; assumption. }
    destruct mx as [[|m]|].
    + simpl in Hy. destruct Hy as [<-|[]]. constructor.
    + destruct (mn =? 0); [destruct greedy|]; simpl in Hy.
      * apply in_app_iff in Hy as [Hy|[<-|[]]]; [now apply Hmore | constructor].
      * destruct Hy as [<-|Hy]; [constructor | now apply Hmore].
      * now apply Hmore.
    + destruct (mn =? 0); [destruct greedy|]; simpl in Hy.
      * apply in_app_iff in Hy as [Hy|[<-|[]]]; [now apply Hmore | constructor].
      * destruct Hy as [<-|Hy]; [constructor | now apply Hmore].
      * now apply Hmore.
Qed.

Lemma Forall_in_weaken {A : Type} (l : list (nat * A)) (gs gs' : list nat) :
  (forall n, In n gs -> In n gs') ->
  Forall (fun e => In (fst e) gs) l -> Forall (fun e => In (fst e) gs') l.
Proof. intros H. apply List.Forall_impl. intros e He. auto. Qed.

Lemma run_caps ic r : caps_within (groups_of r) (run ic r).
Proof.
  induction r as [| neg cs | | | a IHa b IHb | a IHa b IHb
                  | mn mx g r IH | n r IH | neg r IH]; intros bol s y Hy;
    simpl in Hy.
  - destruct Hy as [<-|[]]. constructor.
  - destruct s as [|c s]; [destruct Hy|].
    destruct (char_matches ic neg cs c); [|destruct Hy].
    destruct Hy as [<-|[]]. constructor.
  - destruct bol; [|destruct Hy]. destruct Hy as [<-|[]]. constructor.
  - destruct (Str.is_empty s); [|destruct Hy]. destruct Hy as [<-|[]]. constructor.
  - apply in_flat_map in Hy as (y1 & H1 & Hy).
    apply in_map_iff in Hy as (y2 & <- & H2). simpl.
    apply IHa in H1. apply IHb in H2. apply List.Forall_app; split.
    + eapply Forall_in_weaken; [|exact H1]. intros; apply in_or_app; auto.
    + eapply Forall_in_weaken; [|exact H2]. intros; apply in_or_app; auto.
  - simpl. apply in_app_iff in Hy as [Hy|Hy].
    + eapply Forall_in_weaken; [|eapply IHa; eauto]. intros; apply in_or_app; auto.
    + eapply Forall_in_weaken; [|eapply IHb; eauto]. intros; apply in_or_app; auto.
  - simpl. eapply repeat_caps; eauto.
  - apply in_map_iff in Hy as (y1 & <- & H1). simpl.
    apply List.Forall_app; split.
    + eapply List.Forall_impl; [|eapply IH; eauto]. intros e He. right. exact He.
    + constructor; [left; reflexivity | constructor].
  - simpl. destruct (run ic r bol s) as [|y1 l] eqn:E; destruct neg; simpl in Hy;
      try (destruct Hy as [<-|[]]); try destruct Hy; try constructor.
    simpl. eapply IH. rewrite E. left. reflexivity.
Qed.

Lemma capture_app_miss n (l1 l2 : list (nat * option string)) :
  existsb (fun e => fst e =? n) l2 = false ->
  capture n (l1 ++ l2) = capture n l1.
Proof.
  induction l1 as [|[k v] l1 IH]; intros H; simpl.
  - induction l2 as [|[k v] l2 IH2]; simpl in *; [reflexivity|].
    apply orb_false_iff in H as [Hk H]. rewrite H, Hk. reflexivity.
  - rewrite existsb_app, H, orb_false_r, IH by exact H. reflexivity.
Qed.

Lemma capture_last n v (l : list (nat * option string)) :
  capture n (l ++ [(n, v)]) = v.
Proof.
  induction l as [|[k w] l IH]; simpl.
  - now rewrite Nat.eqb_refl.
  - rewrite existsb_app. simpl. rewrite Nat.eqb_refl, orb_true_r. exact IH.
Qed.

Lemma no_entry (n : nat) (gs : list nat) (l : list (nat * option string)) :
  Forall (fun e => In (fst e) gs) l -> ~ In n gs ->
  existsb (fun e => fst e =? n) l = false.
Proof.
  intros H Hn. induction H as [|e l He H IH]; simpl; [reflexivity|].
  rewrite IH, orb_false_r. apply Nat.eqb_neq. intros E. rewrite E in He. auto.
Qed.

End RegExpFacts.

Module PrefixFacts.
Import RegExp Trees RegExpFacts.

Lemma prefixPattern_tree :
  Route.prefixPattern = {| tree := prefixTree; ngroups := 2; icase := false |}.
Proof. reflexivity. Qed.

Lemma finalSlashPattern_tree :
  Route.finalSlashPattern = {| tree := finalSlashTree; ngroups := 0; icase := false |}.
Proof. reflexivity. Qed.

Ltac by_cases c := destruct c as [[] [] [] [] [] [] [] []]; reflexivity.

Lemma literal_class c :
  char_matches false true (set_of "*+?(:[{") c = Spec.is_literal c.
Proof. by_cases c. Qed.

Lemma modifier_class c :
  char_matches false false (set_of "*+?") c = Spec.is_modifier c.
Proof. by_cases c. Qed.

Lemma opener_class c :
  char_matches false false (set_of "(:[{") c = Spec.is_opener c.
Proof. by_cases c. Qed.

Lemma dot_class c :
  char_matches false true line_terminators c = negb (Str.is_line_terminator c).
Proof. by_cases c. Qed.

Lemma slash_class c :
  char_matches false false (set_of "/") c = Ascii.eqb c "/".
Proof. by_cases c. Qed.

Lemma greedy_chars_caps p s y : In y (greedy_chars p s) -> caps y = [].
Proof.
  revert y. induction s as [|c s IH]; intros y Hy; simpl in Hy.
  - destruct Hy as [<-|[]]. reflexivity.
  - destruct (p c).
    + apply in_app_iff in Hy as [Hy|[<-|[]]]; [|reflexivity].
      apply in_map_iff in Hy as (z & <- & Hz). simpl. auto.
    + destruct Hy as [<-|[]]. reflexivity.
Qed.

Lemma repeat_chars ic neg cs fuel bol s :
  String.length s <= fuel ->
  repeat (run ic (Chars neg cs)) [] true fuel 0 None bol s
  = greedy_chars (char_matches ic neg cs) s.
Proof.
  revert bol s. induction fuel as [|fuel IH]; intros bol s Hlen.
  - destruct s; [reflexivity | simpl in Hlen; lia].
  - destruct s as [|c s]; [reflexivity|].
    simpl. destruct (char_matches ic neg cs c); [|reflexivity].
    simpl. rewrite app_nil_r. rewrite IH by (simpl in Hlen; lia).
    reflexivity.
Qed.

End PrefixFacts.

Module PrefixFacts2.
Import RegExp Trees RegExpFacts PrefixFacts.

Lemma run_tail bol s :
  if Spec.closes_prefix s then exists y l, run false prefixTail bol s = y :: l
  else run false prefixTail bol s = [].
Proof.
  unfold prefixTail. destruct s as [|c [|m s]]; simpl.
  - eauto.
  - rewrite dot_class, opener_class.
    destruct (Str.is_line_terminator c), (Spec.is_opener c); simpl; eauto.
  - rewrite dot_class, opener_class.
    destruct (Str.is_line_terminator c), (Spec.is_opener c); simpl;
      rewrite ?modifier_class; destruct (Spec.is_modifier m); simpl; eauto.
Qed.

Lemma tail_caps bol s y : In y (run false prefixTail bol s) ->
  existsb (fun e => fst e =? 1) (caps y) = false.
Proof.
  intros Hy. apply run_caps in Hy. eapply no_entry; [exact Hy|].
  simpl. intros [H|[]]. discriminate.
Qed.

Lemma last_step pre s :
  if Spec.closes_prefix s
  then exists y l, step (wrap_pre pre (here s)) = y :: l
                   /\ capture 1 (caps y) = Some pre
  else step (wrap_pre pre (here s)) = [].
Proof.
  unfold step, wrap_pre, here. cbn [matched rest caps].
  pose proof (run_tail (true && Str.is_empty (pre +:+ "")) s) as H.
  destruct (Spec.closes_prefix s).
  - destruct H as (y & l & E). rewrite E. cbn [List.map]. eexists _, _.
    split; [reflexivity|].
    unfold after. cbn [matched rest caps app].
    change ((1, Some (pre +:+ "")) :: caps y)
      with (([] ++ [(1, Some (pre +:+ ""))]) ++ caps y).
    rewrite capture_app_miss.
    + rewrite capture_last. now rewrite StrFacts.app_nil_r.
    + eapply tail_caps. rewrite E. left. reflexivity.
  - rewrite H. reflexivity.
Qed.

Lemma wrap_cons pre c (l : list mres) :
  List.map (wrap_pre pre)
    (List.map (fun z => {| matched := String c (matched z); rest := rest z;
                            caps := caps z |}) l)
  = List.map (wrap_pre (pre +:+ String c "")) l.
Proof.
  rewrite List.map_map. apply List.map_ext. intros z. unfold wrap_pre. simpl.
  rewrite StrFacts.app_assoc. reflexivity.
Qed.

Lemma split_steps p s :
  (forall c, p c = Spec.is_literal c) ->
  forall pre,
  match prefix_split s with
  | Some m =>
      exists y l, flat_map step (List.map (wrap_pre pre) (greedy_chars p s)) = y :: l
                  /\ capture 1 (caps y) = Some (pre +:+ m)
  | None => flat_map step (List.map (wrap_pre pre) (greedy_chars p s)) = []
  end.
Proof.
  intros Hp. induction s as [|c s IH]; intros pre.
  - cbn [prefix_split greedy_chars List.map flat_map]. rewrite app_nil_r.
    pose proof (last_step pre "") as H. cbn [Spec.closes_prefix] in H.
    destruct H as (y & l & E & Hc). rewrite E.
    eexists _, _. split; [reflexivity|]. now rewrite StrFacts.app_nil_r.
  - cbn [prefix_split greedy_chars]. rewrite Hp.
    pose proof (last_step pre (String c s)) as Hlast.
    destruct (Spec.is_literal c).
    + rewrite List.map_app, flat_map_app, wrap_cons.
      specialize (IH (pre +:+ String c "")).
      cbn [List.map flat_map]. rewrite app_nil_r.
      destruct (prefix_split s) as [m|].
      * destruct IH as (y & l & E & Hc). rewrite E. cbn [app].
        eexists _, _. split; [reflexivity|]. rewrite Hc.
        now rewrite StrFacts.app_assoc.
      * rewrite IH. cbn [app].
        destruct (Spec.closes_prefix (String c s)).
        -- destruct Hlast as (y & l & E & Hc). rewrite E. eexists _, _.
           split; [reflexivity|]. now rewrite StrFacts.app_nil_r.
        -- exact Hlast.
    + cbn [List.map flat_map]. rewrite app_nil_r.
      destruct (Spec.closes_prefix (String c s)).
      * destruct Hlast as (y & l & E & Hc). rewrite E. eexists _, _.
        split; [reflexivity|]. now rewrite StrFacts.app_nil_r.
      * exact Hlast.
Qed.

Lemma exec_from_bol r n ic i s :
  exec_from {| tree := Seq Bol r; ngroups := n; icase := ic |} (S i) s = None.
Proof. revert i. induction s as [|c s IH]; intros i; simpl; auto. Qed.

Lemma run_seq ic a b bol s :
  run ic (Seq a b) bol s
  = flat_map (fun y =>
      List.map (after y) (run ic b (bol && Str.is_empty (matched y)) (rest y)))
      (run ic a bol s).
Proof. reflexivity. Qed.

Lemma run_group ic n r bol s :
  run ic (Group n r) bol s
  = List.map (fun y => {| matched := matched y; rest := rest y;
                          caps := caps y ++ [(n, Some (matched y))] |})
      (run ic r bol s).
Proof. reflexivity. Qed.

Lemma run_quant ic mn mx g r bol s :
  run ic (Quant mn mx g r) bol s
  = repeat (run ic r) (List.map (fun n => (n, @None string)) (groups_of r))
      g (mn + String.length s) mn mx bol s.
Proof. reflexivity. Qed.

Lemma run_prefixTree url :
  run false prefixTree true url
  = List.map (after (here url))
      (flat_map step (List.map (wrap_pre "") (greedy_chars (char_matches false true (set_of "*+?(:[{")) url))).
Proof.
  unfold prefixTree. rewrite run_seq.
  change (run false Bol true url) with [here url].
  cbn [flat_map]. rewrite app_nil_r.
  f_equal. cbn [andb Str.is_empty matched rest here].
  rewrite run_seq, run_group, run_quant.
  cbn [groups_of List.map]. rewrite repeat_chars by (simpl; lia).
  reflexivity.
Qed.

(** What [prefixPattern] finds in a text. *)
Lemma exec_prefixPattern url :
  match prefix_split url with
  | Some m => exists r, exec Route.prefixPattern url = Some r /\ sub r 1 = Some m
  | None => exec Route.prefixPattern url = None
  end.
Proof.
  rewrite prefixPattern_tree. unfold exec.
  pose proof (split_steps (char_matches false true (set_of "*+?(:[{")) url
                literal_class "") as H.
  destruct (prefix_split url) as [m|].
  - destruct H as (y & l & E & Hc).
    destruct url as [|c url]; cbn [exec_from tree icase ngroups Nat.eqb];
      rewrite run_prefixTree, E; simpl; eexists; (split; [reflexivity|]);
      unfold sub; simpl; exact Hc.
  - destruct url as [|c url]; cbn [exec_from tree icase ngroups Nat.eqb];
      rewrite run_prefixTree, H; simpl; [reflexivity|].
    apply exec_from_bol.
Qed.

End PrefixFacts2.

Module PrefixFacts3.
Import RegExp Trees RegExpFacts PrefixFacts PrefixFacts2.

Lemma take_app_length (a b : string) : Str.take (String.length a) (a +:+ b) = a.
Proof. induction a as [|c a IH]; simpl; [destruct b; reflexivity | now rewrite IH]. Qed.

Lemma drop_app_length (a b : string) : Str.drop (String.length a) (a +:+ b) = b.
Proof. induction a as [|c a IH]; simpl; [reflexivity | exact IH]. Qed.

Lemma drop_app_succ (a : string) c (b : string) :
  Str.drop (String.length a + 1) (a +:+ String c b) = b.
Proof. induction a as [|x a IH]; simpl; [reflexivity | exact IH]. Qed.

Lemma cut_final_slash pre s :
  match exec_from Route.finalSlashPattern (String.length pre) s with
  | Some m =>
      Str.take (index m) (pre +:+ s)
      +:+ Str.drop (index m + String.length (whole m)) (pre +:+ s)
  | None => pre +:+ s
  end = pre +:+ Spec.stripFinalSlash s.
Proof.
  rewrite finalSlashPattern_tree. revert pre.
  induction s as [|c s IH]; intros pre; [reflexivity|].
  cbn [exec_from tree icase ngroups]. unfold finalSlashTree. rewrite run_seq.
  cbn [run]. rewrite slash_class. cbn [Spec.stripFinalSlash].
  destruct (Ascii.eqb_spec c "/") as [->|Hc].
  - destruct s as [|d s].
    + simpl. rewrite take_app_length, drop_app_succ. reflexivity.
    + cbn [flat_map List.map Str.is_empty rest matched app andb].
      specialize (IH (pre +:+ "/")).
      rewrite StrFacts.length_app, !StrFacts.app_assoc in IH.
      change (String.length "/") with 1 in IH. rewrite Nat.add_1_r in IH.
      exact IH.
  - cbn [flat_map andb].
    specialize (IH (pre +:+ String c "")).
    rewrite StrFacts.length_app, !StrFacts.app_assoc in IH.
    change (String.length (String c "")) with 1 in IH. rewrite Nat.add_1_r in IH.
    exact IH.
Qed.

Lemma remove_final_slash s :
  remove_first Route.finalSlashPattern s = Spec.stripFinalSlash s.
Proof. exact (cut_final_slash "" s). Qed.

Lemma literal_not_opener c : Spec.is_literal c = true -> Spec.is_opener c = false.
Proof. unfold Spec.is_literal, Spec.is_meta. destruct (Spec.is_modifier c), (Spec.is_opener c); simpl; congruence. Qed.

Lemma literal_not_modifier c : Spec.is_literal c = true -> Spec.is_modifier c = false.
Proof. unfold Spec.is_literal, Spec.is_meta. destruct (Spec.is_modifier c), (Spec.is_opener c); simpl; congruence. Qed.

Lemma not_literal c :
  Spec.is_literal c = false -> Spec.is_opener c = false -> Spec.is_modifier c = true.
Proof. unfold Spec.is_literal, Spec.is_meta. destruct (Spec.is_modifier c), (Spec.is_opener c); simpl; congruence. Qed.

Lemma modifier_not_terminator c :
  Spec.is_modifier c = true -> Str.is_line_terminator c = false.
Proof. destruct c as [[] [] [] [] [] [] [] []]; vm_compute; congruence. Qed.

(** The first group of [prefixPattern], without recursion. *)
Lemma prefix_split_spec url :
  prefix_split url =
  let '(run, rest) := Str.span Spec.is_literal url in
  if Spec.closes_prefix rest then Some run
  else match Spec.unsnoc run with
       | Some (run', x) => if Str.is_line_terminator x then None else Some run'
       | None => None
       end.
Proof.
  induction url as [|c s IH]; [reflexivity|].
  cbn [prefix_split Str.span].
  destruct (Spec.is_literal c) eqn:Hc.
  - rewrite IH.
    pose proof (StrFacts.span_app Spec.is_literal s) as Happ.
    pose proof (StrFacts.span_all Spec.is_literal s) as Hall.
    pose proof (StrFacts.span_rest Spec.is_literal s) as Hrest.
    destruct (Str.span Spec.is_literal s) as [run rest]. simpl in Happ, Hall, Hrest.
    destruct (Spec.closes_prefix rest) eqn:Hclose; [reflexivity|].
    cbn [Spec.unsnoc].
    assert (Hfirst : Spec.closes_prefix (String c s)
                     = match run with
                       | EmptyString => negb (Str.is_line_terminator c)
                       | String _ _ => false
                       end).
    { cbn [Spec.closes_prefix]. rewrite (literal_not_opener c Hc). simpl.
      subst s. destruct run as [|d run]; simpl.
      - destruct rest as [|m rest]; [discriminate|].
        cbn [Spec.closes_prefix] in Hclose.
        apply orb_false_iff in Hclose as [Hop _].
        rewrite (not_literal m Hrest Hop). now rewrite andb_true_r.
      - simpl in Hall. apply andb_true_iff in Hall as [Hd _].
        rewrite (literal_not_modifier d Hd). now rewrite andb_false_r. }
    destruct (Spec.unsnoc run) as [[run' x]|] eqn:Hun.
    + destruct (Str.is_line_terminator x); [|reflexivity].
      rewrite Hfirst. destruct run; [discriminate | reflexivity].
    + rewrite Hfirst. destruct run as [|d run].
      * destruct (Str.is_line_terminator c); reflexivity.
      * simpl in Hun. destruct (Spec.unsnoc run) as [[? ?]|]; discriminate.
  - reflexivity.
Qed.

(** The prefix the program extracts, for every text. *)
Lemma extractPrefix_spec url : Route.extractPrefix url = Spec.amended_prefix url.
Proof.
  unfold Route.extractPrefix, Spec.amended_prefix.
  pose proof (exec_prefixPattern url) as H. rewrite prefix_split_spec in H.
  destruct (Str.span Spec.is_literal url) as [run rest].
  destruct (Spec.closes_prefix rest).
  - destruct H as (r & -> & ->). rewrite remove_final_slash. reflexivity.
  - destruct (Spec.unsnoc run) as [[run' x]|].
    + destruct (Str.is_line_terminator x).
      * rewrite H. reflexivity.
      * destruct H as (r & -> & ->). rewrite remove_final_slash. reflexivity.
    + rewrite H. reflexivity.
Qed.

End PrefixFacts3.

Module MatchFacts.
Import RegExp Trees RegExpFacts PrefixFacts PrefixFacts2.

Lemma in_run_seq ic a b bol s y :
  In y (run ic (Seq a b) bol s) ->
  exists y1 y2, In y1 (run ic a bol s)
    /\ In y2 (run ic b (bol && Str.is_empty (matched y1)) (rest y1))
    /\ y = after y1 y2.
Proof.
  rewrite run_seq. intros H. apply in_flat_map in H as (y1 & H1 & H).
  apply in_map_iff in H as (y2 & <- & H2). eauto.
Qed.

Lemma in_run_alt ic a b bol s y :
  In y (run ic (Alt a b) bol s) -> In y (run ic a bol s) \/ In y (run ic b bol s).
Proof. simpl. apply in_app_iff. Qed.

Lemma in_run_group ic n r bol s y :
  In y (run ic (Group n r) bol s) ->
  exists y1, In y1 (run ic r bol s)
    /\ y = {| matched := matched y1; rest := rest y1;
              caps := caps y1 ++ [(n, Some (matched y1))] |}.
Proof. rewrite run_group. intros H. apply in_map_iff in H as (y1 & <- & H1). eauto. Qed.

Lemma in_run_chars ic neg cs bol s y :
  In y (run ic (Chars neg cs) bol s) ->
  exists c s', s = String c s' /\ char_matches ic neg cs c = true
    /\ y = {| matched := String c ""; rest := s'; caps := [] |}.
Proof.
  simpl. destruct s as [|c s']; [intros []|].
  destruct (char_matches ic neg cs c) eqn:E; [|intros []].
  intros [<-|[]]. eauto.
Qed.

(** An optional pattern matches nothing, or as the pattern does. *)
Lemma in_run_opt ic g r bol s z :
  In z (run ic (Quant 0 (Some 1) g r) bol s) ->
  z = here s
  \/ exists y, In y (run ic r bol s)
       /\ z = {| matched := matched y +:+ ""; rest := rest y;
                 caps := List.map (fun n => (n, @None string)) (groups_of r)
                         ++ caps y ++ [] |}.
Proof.
  rewrite run_quant. cbn [Nat.add].
  destruct (String.length s) as [|f]; cbn [repeat Nat.eqb].
  - intros [<-|[]]. now left.
  - intros H.
    assert (Hmore : forall z,
      In z (flat_map (fun y =>
          if true && Str.is_empty (matched y) then []
          else List.map (fun z =>
                 {| matched := matched y +:+ matched z; rest := rest z;
                    caps := List.map (fun n => (n, @None string)) (groups_of r)
                            ++ caps y ++ caps z |})
                 (repeat (run ic r)
                    (List.map (fun n => (n, @None string)) (groups_of r)) g f
                    (Nat.pred 0) (Nat.pred <$> Some 1)
                    (bol && Str.is_empty (matched y)) (rest y)))
        (run ic r bol s)) ->
      exists y, In y (run ic r bol s)
        /\ z = {| matched := matched y +:+ ""; rest := rest y;
                  caps := List.map (fun n => (n, @None string)) (groups_of r)
                          ++ caps y ++ [] |}).
    { intros z' Hz. apply in_flat_map in Hz as (y & Hy & Hz).
      destruct (true && Str.is_empty (matched y)); [destruct Hz|].
      cbn [fmap option_fmap option_map Nat.pred] in Hz.
      destruct f; cbn [repeat] in Hz; destruct Hz as [<-|[]]; eauto. }
    destruct g.
    + apply in_app_iff in H as [H|[<-|[]]]; [right; auto | now left].
    + destruct H as [<-|H]; [now left | right; auto].
Qed.

(** A starred or plussed class matches a run of its characters. *)
Lemma in_repeat_chars ic neg cs g fuel mn bol s z :
  In z (repeat (run ic (Chars neg cs)) [] g fuel mn None bol s) ->
  Str.all (char_matches ic neg cs) (matched z) = true
  /\ caps z = [] /\ mn <= String.length (matched z).
Proof.
  revert mn bol s z. induction fuel as [|fuel IH]; intros mn bol s z H.
  - cbn [repeat] in H. destruct (Nat.eqb_spec mn 0) as [->|]; [|destruct H].
    destruct H as [<-|[]]. simpl. auto.
  - cbn [repeat] in H.
    assert (Hmore : forall z,
      In z (flat_map (fun y =>
          if (mn =? 0) && Str.is_empty (matched y) then []
          else List.map (fun z =>
                 {| matched := matched y +:+ matched z; rest := rest z;
                    caps := [] ++ caps y ++ caps z |})
                 (repeat (run ic (Chars neg cs)) [] g fuel (Nat.pred mn)
                    (Nat.pred <$> None) (bol && Str.is_empty (matched y)) (rest y)))
        (run ic (Chars neg cs) bol s)) ->
      Str.all (char_matches ic neg cs) (matched z) = true
      /\ caps z = [] /\ mn <= String.length (matched z)).
    { intros z' Hz. apply in_flat_map in Hz as (y & Hy & Hz).
      apply in_run_chars in Hy as (c & s' & -> & Hc & ->).
      cbn [matched rest caps Str.is_empty andb] in Hz.
      rewrite andb_false_r in Hz.
      apply in_map_iff in Hz as (z0 & <- & Hz0).
      apply IH in Hz0 as (Hall & Hcaps & Hlen).
      cbn [matched caps]. simpl. rewrite Hc, Hall, Hcaps. repeat split. lia. }
    destruct (Nat.eqb_spec mn 0) as [->|Hmn].
    + destruct g.
      * apply in_app_iff in H as [H|[<-|[]]]; [now apply Hmore | simpl; auto].
      * destruct H as [<-|H]; [simpl; auto | now apply Hmore].
    + now apply Hmore.
Qed.

Lemma in_run_repeat_chars ic neg cs g mn bol s z :
  In z (run ic (Quant mn None g (Chars neg cs)) bol s) ->
  Str.all (char_matches ic neg cs) (matched z) = true
  /\ caps z = [] /\ mn <= String.length (matched z)
  /\ s = matched z +:+ rest z.
Proof.
  intros H. pose proof (run_split _ _ _ _ _ H) as Hs.
  rewrite run_quant in H. apply in_repeat_chars in H. tauto.
Qed.

Lemma exec_at_start r n ic s m :
  exec {| tree := Seq Bol r; ngroups := n; icase := ic |} s = Some m ->
  exists y, In y (run ic r true s)
    /\ whole m = matched y
    /\ submatches m = List.map (fun n => capture n (caps y)) (seq 1 n).
Proof.
  unfold exec. intros H.
  assert (Hrun : exists y l, run ic (Seq Bol r) true s = y :: l /\
            m = {| index := 0; whole := matched y;
                   submatches := List.map (fun n => capture n (caps y)) (seq 1 n) |}).
  { destruct s as [|c s]; cbn [exec_from tree icase ngroups Nat.eqb] in H;
      destruct (run ic (Seq Bol r) true _) as [|y l] eqn:E;
      try discriminate; try (rewrite exec_from_bol in H; discriminate);
      injection H as <-; eauto. }
  destruct Hrun as (y & l & E & ->).
  assert (Hy : In y (run ic (Seq Bol r) true s)) by (rewrite E; now left).
  apply in_run_seq in Hy as (y0 & y1 & H0 & H1 & ->).
  simpl in H0. destruct H0 as [<-|[]]. simpl in H1.
  exists y1. split; [exact H1|]. split; reflexivity.
Qed.

End MatchFacts.

Module SourceFacts.
Import RegExp Trees RegExpFacts PrefixFacts PrefixFacts2 MatchFacts.

Lemma sourcePattern_tree :
  Route.sourcePattern = {| tree := sourceTree; ngroups := 2; icase := true |}.
Proof. reflexivity. Qed.

Ltac class_cases c :=
  destruct c as [[] [] [] [] [] [] [] []]; vm_compute; intros; try discriminate; auto.

Lemma star_class c :
  char_matches true false (set_of "*") c = true -> c = "*"%char.
Proof. class_cases c. Qed.

Lemma letter_class c :
  char_matches true false [range 97 122] c = true ->
  not_space c = true /\ Spec.one_of "/=~" c = false.
Proof. class_cases c. Qed.

Lemma token_class c :
  char_matches true false [range 45 45; range 97 122] c = true -> not_space c = true.
Proof. class_cases c. Qed.

Lemma space_class c : char_matches true false spaces c = Str.is_space c.
Proof. destruct c as [[] [] [] [] [] [] [] []]; reflexivity. Qed.

Lemma marker_class c :
  char_matches true false (set_of "=~") c = true -> Spec.one_of "/=~" c = true.
Proof. class_cases c. Qed.

Lemma slash_class_i c :
  char_matches true false (set_of "/") c = true -> Spec.one_of "/=~" c = true.
Proof. class_cases c. Qed.

Lemma all_impl (p q : ascii -> bool) s :
  (forall c, p c = true -> q c = true) -> Str.all p s = true -> Str.all q s = true.
Proof.
  intros H. induction s as [|c s IH]; simpl; [reflexivity|].
  intros Hs. apply andb_true_iff in Hs as [Hc Hs]. now rewrite (H c Hc), IH.
Qed.

Lemma all_ext (p q : ascii -> bool) s :
  (forall c, p c = q c) -> Str.all p s = Str.all q s.
Proof. intros H. induction s as [|c s IH]; simpl; [reflexivity|]. now rewrite H, IH. Qed.

(** Where the path of a source starts. *)
Lemma url_start bol s y :
  In y (run true urlTree bol s) ->
  exists c s', s = String c s' /\ Spec.one_of "/=~" c = true.
Proof.
  unfold urlTree. intros H.
  apply in_run_seq in H as (ya & yb & Ha & Hb & _).
  apply in_run_opt in Ha as [->|(yc & Hc & _)].
  - apply in_run_seq in Hb as (ys & _ & Hs & _).
    apply in_run_chars in Hs as (c & s' & E & Hc & _). simpl in E.
    eauto using slash_class_i.
  - apply in_run_chars in Hc as (c & s' & E & Hc & _). eauto using marker_class.
Qed.

(** What a method token looks like. *)
Lemma method_shape bol s y :
  In y (run true methodTree bol s) ->
  caps y = []
  /\ Str.all not_space (matched y) = true
  /\ exists c t, matched y = String c t /\ Spec.one_of "/=~" c = false.
Proof.
  unfold methodTree. intros H. apply in_run_alt in H as [H|H].
  - apply in_run_chars in H as (c & s' & _ & Hc & ->).
    apply star_class in Hc as ->. cbn [matched caps].
    split; [reflexivity|]. split; [reflexivity|].
    eexists _, _. split; reflexivity.
  - apply in_run_seq in H as (yl & yt & Hl & Ht & ->).
    apply in_run_chars in Hl as (c & s' & _ & Hc & ->).
    apply in_run_repeat_chars in Ht as (Hall & Hcaps & _ & _).
    apply letter_class in Hc as [Hsp Hc].
    cbn [after matched caps app]. rewrite Hcaps. split; [reflexivity|].
    simpl. rewrite Hsp. split; [|eauto].
    eapply all_impl; [|exact Hall]. apply token_class.
Qed.

(** What [sourcePattern] finds in a text: either no method, and the
    text starts with the path, or a method token followed by white
    space. *)
Lemma source_match s m :
  exec Route.sourcePattern s = Some m ->
  (sub m 1 = None
   /\ exists c s', s = String c s' /\ Spec.one_of "/=~" c = true)
  \/ (exists token w rest,
        sub m 1 = Some token
        /\ s = token +:+ String w rest
        /\ Str.is_space w = true
        /\ Str.all not_space token = true
        /\ exists c t, token = String c t /\ Spec.one_of "/=~" c = false).
Proof.
  rewrite sourcePattern_tree. intros H.
  apply exec_at_start in H as (y & Hy & _ & Hsub).
  assert (Hsub1 : sub m 1 = capture 1 (caps y)).
  { unfold sub. rewrite Hsub. reflexivity. }
  rewrite Hsub1. clear Hsub Hsub1 m.
  apply in_run_seq in Hy as (y1 & y' & H1 & H' & ->).
  assert (Hmiss : existsb (fun e => fst e =? 1) (caps y') = false).
  { eapply no_entry; [eapply run_caps; exact H'|].
    simpl. intros [E|[]]. discriminate. }
  cbn [after caps]. rewrite capture_app_miss by exact Hmiss.
  apply in_run_opt in H1 as [->|(yb & Hb & ->)].
  - left. split; [reflexivity|].
    cbn [here matched rest Str.is_empty andb] in H'.
    apply in_run_seq in H' as (yg & _ & Hg & _).
    apply in_run_group in Hg as (yu & Hu & _).
    eapply url_start; eauto.
  - right. clear H' Hmiss y'.
    pose proof (run_split _ _ _ _ _ Hb) as Hs.
    apply in_run_seq in Hb as (yg & ysp & Hg & Hsp & ->).
    apply in_run_group in Hg as (ym & Hm & ->).
    apply method_shape in Hm as (Hcaps & Hall & Hfirst).
    apply in_run_repeat_chars in Hsp as (Hspaces & Hcsp & Hlen & _).
    cbn [after matched rest caps] in *. rewrite Hcaps, Hcsp in *.
    destruct (matched ysp) as [|w sp] eqn:Ew; [simpl in Hlen; lia|].
    simpl in Hspaces. apply andb_true_iff in Hspaces as [Hw _].
    rewrite space_class in Hw.
    exists (matched ym), w, (sp +:+ rest ysp). split.
    + unfold methodTree. cbn [groups_of List.map app].
      change ([(1, None); (1, Some (matched ym))])
        with ([(1, @None string)] ++ [(1, Some (matched ym))]).
      apply capture_last.
    + repeat split; auto.
      rewrite Hs. rewrite StrFacts.app_assoc. reflexivity.
Qed.

End SourceFacts.

Module ResFacts.

Lemma bind_ok {A B : Type} (m : res A) (f : A -> res B) (b : B) :
  m ≫= f = Ok b -> exists a, m = Ok a /\ f a = Ok b.
Proof. destruct m as [a|e]; simpl; [eauto | discriminate]. Qed.

Lemma bind_throw {A B : Type} (m : res A) (f : A -> res B) (e : error) :
  m = Throw e -> m ≫= f = Throw e.
Proof. intros ->. reflexivity. Qed.

End ResFacts.

Module SourceFacts2.
Import RegExp Trees RegExpFacts SourceFacts ResFacts.

Lemma span_exact (p : ascii -> bool) a w r :
  Str.all p a = true -> p w = false ->
  Str.span p (a +:+ String w r) = (a, String w r).
Proof.
  intros Ha Hw. induction a as [|c a IH]; simpl.
  - now rewrite Hw.
  - simpl in Ha. apply andb_true_iff in Ha as [Hc Ha]. now rewrite Hc, IH.
Qed.

Lemma trimEnd_id s : Str.all not_space s = true -> Str.trimEnd s = s.
Proof.
  induction s as [|c s IH]; simpl; [reflexivity|].
  intros H. apply andb_true_iff in H as [Hc Hs]. rewrite (IH Hs).
  unfold not_space in Hc. apply negb_true_iff in Hc. now rewrite Hc.
Qed.

Lemma trim_id s : Str.all not_space s = true -> Str.trim s = s.
Proof.
  intros H. unfold Str.trim.
  assert (Str.trimStart s = s) as ->; [|now apply trimEnd_id].
  destruct s as [|c s]; simpl; [reflexivity|].
  simpl in H. apply andb_true_iff in H as [Hc _].
  unfold not_space in Hc. apply negb_true_iff in Hc. now rewrite Hc.
Qed.

Lemma upper_star c : Str.upper c = "*"%char -> c = "*"%char.
Proof. destruct c as [[] [] [] [] [] [] [] []]; vm_compute; congruence. Qed.

Lemma toUpperCase_star s : String.eqb (Str.toUpperCase s) "*" = String.eqb s "*".
Proof.
  destruct s as [|c [|d s]]; try reflexivity.
  - simpl. destruct (Ascii.eqb_spec (Str.upper c) "*") as [E|E].
    + apply upper_star in E as ->. reflexivity.
    + destruct (Ascii.eqb_spec c "*") as [->|]; [|reflexivity].
      exfalso. apply E. reflexivity.
  - simpl. destruct (Ascii.eqb (Str.upper c) "*"), (Ascii.eqb c "*"); reflexivity.
Qed.

(** The method [read_source] finds in a string is the token the
    specification names. *)
Lemma read_source_method s type url :
  Route.read_source (VStr s) = Ok (type, url) -> url <> VUndefined ->
  exists t, type = VStr t /\ Route.normalize_type t = Spec.expected_method s.
Proof.
  unfold Route.read_source. cbn [JS.typeof].
  destruct (exec Route.sourcePattern (Str.trim s)) as [m|] eqn:E.
  - apply source_match in E as [(H1 & c & s' & Hs & Hc)|(token & w & rest & H1 & Hs & Hw & Hall & c & t & Ht & Hc)].
    + rewrite H1. cbn [JS.opt_value]. intros [= <- <-] _.
      exists "ALL". split; [reflexivity|].
      unfold Spec.expected_method, Spec.method_token. rewrite Hs.
      cbv beta zeta. rewrite Hc. reflexivity.
    + rewrite H1. cbn [JS.opt_value]. intros [= <- <-] _.
      exists token. split; [reflexivity|].
      unfold Spec.expected_method, Spec.method_token. rewrite Hs.
      subst token. cbn [String.append]. cbv beta zeta. rewrite Hc.
      change (fun c0 : ascii => negb (Str.is_space c0)) with not_space.
      change (String c (t +:+ String w rest)) with (String c t +:+ String w rest).
      rewrite span_exact by (auto; unfold not_space; now rewrite Hw).
      cbn [fst]. unfold Route.normalize_type. rewrite trim_id by exact Hall.
      rewrite toUpperCase_star. reflexivity.
  - intros [= <- <-] H. congruence.
Qed.

End SourceFacts2.

Import ResFacts.

(** C6.  The method of a string source: for every string source that
    [preparseSource] accepts, the method is the method token of the source
    in upper case; a source without a method token, and the token [*],
    give [ALL]; any other token passes through in upper case. *)
Theorem C6_method_of_string_source (source : string) (p : Route.preparsed) :
  Route.preparseSource (VStr source) = Ok p ->
  Route.type p = Spec.expected_method source
  /\ (Spec.method_token source = None -> Route.type p = "ALL")
  /\ (Spec.method_token source = Some "*" -> Route.type p = "ALL")
  /\ (forall token, Spec.method_token source = Some token -> token <> "*" ->
        Route.type p = Str.toUpperCase token)
  /\ Route.type <$> Route.preparseSource (VStr "GET /") = Ok "GET"
  /\ Route.type <$> Route.preparseSource (VStr "get /") = Ok "GET"
  /\ Route.type <$> Route.preparseSource (VStr "* /") = Ok "ALL"
  /\ Route.type <$> Route.preparseSource (VStr "/") = Ok "ALL"
  /\ Route.type <$> Route.preparseSource (VStr "ANYTHING /") = Ok "ANYTHING".
Proof.
  intros H.
  assert (Htype : Route.type p = Spec.expected_method source).
  { unfold Route.preparseSource in H.
    apply bind_ok in H as ([type url] & Hread & H).
    destruct type as [| | | |t| | | |]; try discriminate.
    destruct url as [| | | |u| | | |]; try discriminate.
    apply SourceFacts2.read_source_method in Hread as (t' & [= <-] & Hm); [|discriminate].
    cbn in H. destruct (RegExp.test Route.invalidPathPattern _); [discriminate|].
    injection H as <-. exact Hm. }
  split; [exact Htype|].
  unfold Spec.expected_method in Htype.
  split; [intros E; rewrite E in Htype; exact Htype|].
  split; [intros E; rewrite E in Htype; exact Htype|].
  split.
  { intros token E Hne. rewrite E in Htype.
    destruct (String.eqb_spec token "*"); [contradiction | exact Htype]. }
  repeat split; vm_compute; reflexivity.
Qed.

(** A source with a method the program accepts. *)
Lemma C6_method_of_string_source_witness :
  Route.preparseSource (VStr "get /") = Ok {| Route.type := "GET"; Route.url := "/";
                                              Route.matchPrefix := false;
                                              Route.exact := false |}
  /\ Route.type {| Route.type := "GET"; Route.url := "/";
                   Route.matchPrefix := false; Route.exact := false |}
     = Spec.expected_method "get /".
Proof.
  assert (H : Route.preparseSource (VStr "get /")
              = Ok {| Route.type := "GET"; Route.url := "/";
                      Route.matchPrefix := false; Route.exact := false |})
    by (vm_compute; reflexivity).
  split; [exact H|].
  exact (proj1 (C6_method_of_string_source "get /" _ H)).
Defined.

Module RouteFacts.

(** What [parseSource] does with a source it accepts. *)
Lemma parseSource_ok (Parser : parser_t) (Compiler : compiler_t) source imp c :
  Route.parseSource Parser Compiler source imp = Ok c ->
  exists p render,
    Route.preparseSource source = Ok p
    /\ Parser (Route.url p) (Route.source_options imp p)
       = Ok (Route.cs_pattern c, Route.cs_parameters c)
    /\ Route.extractPrefix (Route.url p) = Ok (Route.cs_prefix c)
    /\ Compiler (Route.url p) = Ok render
    /\ Route.cs_definition c = Route.url p
    /\ Route.cs_method c = Route.type p.
Proof.
  unfold Route.parseSource. intros H.
  apply bind_ok in H as (p & Hp & H).
  apply bind_ok in H as ([pattern parameters] & Hparse & H).
  apply bind_ok in H as (prefix & Hprefix & H).
  apply bind_ok in H as (render & Hrender & H).
  injection H as <-. exists p, render. simpl. auto 10.
Qed.

Lemma end_flag_anchored imp p :
  Route.end_flag imp p = Spec.anchored imp (Route.exact p) (Route.matchPrefix p).
Proof.
  unfold Route.end_flag, Spec.anchored.
  destruct imp, (Route.exact p), (Route.matchPrefix p); reflexivity.
Qed.

(** The markers [preparseSource] reports are read off the first
    character of the address, and exclude each other. *)
Lemma preparseSource_markers source p :
  Route.preparseSource source = Ok p ->
  exists type url,
    Route.read_source source = Ok (type, VStr url)
    /\ Route.exact p = match Str.head url with Some c => Ascii.eqb c "=" | None => false end
    /\ Route.matchPrefix p = match Str.head url with Some c => Ascii.eqb c "~" | None => false end
    /\ Route.exact p && Route.matchPrefix p = false.
Proof.
  unfold Route.preparseSource. intros H.
  apply bind_ok in H as ([type url] & Hread & H).
  destruct type as [| | | |t| | | |]; try discriminate.
  destruct url as [| | | |u| | | |]; try discriminate.
  cbn in H. destruct (RegExp.test Route.invalidPathPattern _); [discriminate|].
  injection H as <-. exists (VStr t), u. cbn.
  repeat split; auto.
  destruct (Str.head u) as [c|]; [|reflexivity].
  destruct (Ascii.eqb_spec c "=") as [->|]; reflexivity.
Qed.

End RouteFacts.

(** C3 (as amended).  The static prefix of a path is taken from the
    longest run of characters before the first of [* + ? ( : [ {]: it is
    that run when the run is followed by the end of the path, by one of
    [( : [ {], or by a character and one of [* + ?]; it is the run without
    its last character when the run is followed by a single one of
    [* + ?] and that last character is no line break; there is no prefix
    otherwise.  In both cases a final slash is removed and a slash is the
    prefix when nothing is left.  In particular the prefix of ["/"] is
    ["/"], of ["/test/more/:name"] is ["/test/more"], and of
    ["/tes(t)?/(more)"] is ["/tes"]. *)
Theorem C3_static_prefix (url : string) :
  Route.extractPrefix url = Spec.amended_prefix url
  /\ (forall (Parser : parser_t) (Compiler : compiler_t) source isMatchingPrefix c,
        Route.parseSource Parser Compiler source isMatchingPrefix = Ok c ->
        Spec.amended_prefix (Route.cs_definition c) = Ok (Route.cs_prefix c))
  /\ (Spec.closes_prefix (snd (Str.span Spec.is_literal url)) = true ->
        Route.extractPrefix url = Ok (Spec.claimed_prefix url))
  /\ Route.extractPrefix "/" = Ok "/"
  /\ Route.extractPrefix "/test/more/:name" = Ok "/test/more"
  /\ Route.extractPrefix "/tes(t)?/(more)" = Ok "/tes".
Proof.
  split; [apply PrefixFacts3.extractPrefix_spec|].
  split.
  { intros Parser Compiler source imp c H.
    apply RouteFacts.parseSource_ok in H as (p & render & _ & _ & Hprefix & _ & -> & _).
    now rewrite <- PrefixFacts3.extractPrefix_spec. }
  split.
  { intros H. rewrite PrefixFacts3.extractPrefix_spec.
    unfold Spec.amended_prefix, Spec.claimed_prefix, Spec.literal_run.
    destruct (Str.span Spec.is_literal url) as [run rest]. simpl in *.
    now rewrite H. }
  repeat split; vm_compute; reflexivity.
Qed.

(** C3 fails as stated: the path [/test\*], which the route compiler
    accepts, has the literal run [/test\] before its first metacharacter,
    and the prefix [/test]. *)
Lemma C3_static_prefix_counterexample :
  exists c,
    Route.parseSource PathToRegexp.pathToRegexp PathToRegexp.compile
      (VStr "/test\*") false = Ok c
    /\ Route.cs_definition c = "/test\*"
    /\ Route.cs_prefix c = "/test"
    /\ Spec.claimed_prefix (Route.cs_definition c) = "/test\"
    /\ Route.cs_prefix c <> Spec.claimed_prefix (Route.cs_definition c).
Proof.
  eexists. split; [vm_compute; reflexivity|].
  repeat split; try (vm_compute; reflexivity).
  vm_compute. discriminate.
Qed.

(** C5.  End anchoring: the route compiler asks the pattern library for
    a case-sensitive pattern, anchored at the end exactly when the source
    carries the marker [=], or when neither the route matches prefixes
    nor the source carries the marker [~]; the two markers exclude each
    other. *)
Theorem C5_end_anchoring (Parser : parser_t) (Compiler : compiler_t)
    (source : value) (isMatchingPrefix : bool) (c : Route.compiledSource) :
  Route.parseSource Parser Compiler source isMatchingPrefix = Ok c ->
  exists p,
    Route.preparseSource source = Ok p
    /\ Parser (Route.url p)
         {| sensitive := true; strict := false;
            end_ := Spec.anchored isMatchingPrefix (Route.exact p) (Route.matchPrefix p) |}
       = Ok (Route.cs_pattern c, Route.cs_parameters c)
    /\ (Route.exact p = true ->
        Spec.anchored isMatchingPrefix (Route.exact p) (Route.matchPrefix p) = true)
    /\ (Route.exact p = false ->
        Spec.anchored isMatchingPrefix (Route.exact p) (Route.matchPrefix p)
        = negb (isMatchingPrefix || Route.matchPrefix p))
    /\ Route.exact p && Route.matchPrefix p = false
    /\ exists type url,
         Route.read_source source = Ok (type, VStr url)
         /\ Route.exact p = match Str.head url with Some c => Ascii.eqb c "=" | None => false end
         /\ Route.matchPrefix p = match Str.head url with Some c => Ascii.eqb c "~" | None => false end.
Proof.
  intros H.
  apply RouteFacts.parseSource_ok in H as (p & render & Hp & Hparse & _).
  exists p. split; [exact Hp|].
  unfold Route.source_options in Hparse. rewrite RouteFacts.end_flag_anchored in Hparse.
  split; [exact Hparse|].
  split; [intros ->; reflexivity|].
  split; [intros ->; reflexivity|].
  apply RouteFacts.preparseSource_markers in Hp as (type & url & Hread & He & Hm & Hx).
  split; [exact Hx|]. eauto.
Qed.

Lemma C5_end_anchoring_witness :
  exists c p,
    Route.parseSource PathToRegexp.pathToRegexp PathToRegexp.compile
      (VStr "GET =/api/:id") true = Ok c
    /\ Route.preparseSource (VStr "GET =/api/:id") = Ok p
    /\ Route.exact p = true
    /\ PathToRegexp.pathToRegexp (Route.url p)
         {| sensitive := true; strict := false; end_ := true |}
       = Ok (Route.cs_pattern c, Route.cs_parameters c).
Proof.
  assert (H : exists c,
             Route.parseSource PathToRegexp.pathToRegexp PathToRegexp.compile
               (VStr "GET =/api/:id") true = Ok c).
  { eexists. lazy -[PathToRegexp.render_tokens]. reflexivity. }
  destruct H as [c Hc].
  destruct (C5_end_anchoring PathToRegexp.pathToRegexp PathToRegexp.compile
              (VStr "GET =/api/:id") true c Hc)
    as (p & Hp & Hparse & Hexact & _).
  exists c, p.
  split; [exact Hc|]. split; [exact Hp|].
  assert (He : Route.exact p = true).
  { revert Hp. vm_compute. intros [= <-]. reflexivity. }
  split; [exact He|].
  specialize (Hexact He). rewrite Hexact in Hparse. exact Hparse.
Defined.

Module TargetFacts.

Lemma construct_ok (Parser : parser_t) (Compiler : compiler_t) k2p c2p cls source target api imp r :
  Route.construct Parser Compiler k2p c2p cls source target api imp = Ok r ->
  exists cs ct,
    Route.parseSource Parser Compiler source imp = Ok cs
    /\ Route.parseTarget k2p c2p cls target api = Ok ct
    /\ Route.handler r = Route.ct_handler ct
    /\ Route.isValid r = JS.isFunction (Route.ct_handler ct)
    /\ Route.path r = Route.cs_definition cs
    /\ Route.parameters r = Route.cs_parameters cs
    /\ Route.compile r = Route.cs_render cs
    /\ Route.prefix r = Route.cs_prefix cs
    /\ Route.warning r = match Route.ct_warning ct with
                         | Some w => if Str.is_empty w then None else Some w
                         | None => None
                         end.
Proof.
  unfold Route.construct. intros H.
  apply bind_ok in H as (cs & Hcs & H).
  apply bind_ok in H as (ct & Hct & H).
  injection H as <-. exists cs, ct. simpl. auto 12.
Qed.

(** A target that selects a module missing from the collection. *)
Lemma missing_module k2p c2p cls target rt module method args implementations name :
  Route.selectTarget target = Ok (Route.Selected (VStr module) method args) ->
  rt (Route.collectionPluralName cls) = Some implementations ->
  name = RegExp.remove_first (Route.tailPattern cls) module ->
  Route.findImplementation k2p c2p implementations name = None ->
  exists w,
    Route.parseTarget k2p c2p cls target (Some rt)
    = Ok {| Route.ct_handler := VNull; Route.ct_args := []; Route.ct_warning := Some w |}
    /\ Str.is_empty w = false.
Proof.
  intros Hsel Hrt -> Hfind. unfold Route.parseTarget. rewrite Hsel.
  cbn [mbind res_bind]. rewrite Hrt. cbn [mbind res_bind]. rewrite Hfind.
  eexists. split; reflexivity.
Qed.

End TargetFacts.

(** C1.  A target whose module is in the collection but whose method is
    not callable: the route is compiled, it is not valid and carries a
    warning, but its handler is the value found under the name of the
    method, not [null].  Here the target [Custom::name] against the
    registry of the tests: the handler is the string [CustomController].
    What holds of every route: it is valid exactly when its handler is a
    function, and a target whose module is missing from the collection
    gives the handler [null] and a warning that is not empty. *)
Theorem C1_handler_of_unresolved_method (kebabToPascal camelToPascal : string -> string) :
  (exists r,
     Examples.route Route.Terminal kebabToPascal camelToPascal (VStr "/") (VStr "Custom::name")
     = Ok r
     /\ Route.handler r = VStr "CustomController"
     /\ Route.handler r <> VNull
     /\ Route.isValid r = false
     /\ Route.warning r = Some "invalid route to missing controller action Custom.name")
  /\ (exists r,
     Examples.route Route.Terminal kebabToPascal camelToPascal (VStr "/")
       (VObj [("controller", VStr "Custom"); ("method", VStr "missing")])
     = Ok r
     /\ Route.handler r = VUndefined
     /\ Route.handler r <> VNull
     /\ Route.isValid r = false
     /\ Route.warning r = Some "invalid route to missing controller action Custom.missing")
  /\ (forall (Parser : parser_t) (Compiler : compiler_t) cls source target api imp r,
        Route.construct Parser Compiler kebabToPascal camelToPascal cls source target api imp
        = Ok r ->
        Route.isValid r = JS.isFunction (Route.handler r))
  /\ (forall cls target rt module method args implementations,
        Route.selectTarget target = Ok (Route.Selected (VStr module) method args) ->
        rt (Route.collectionPluralName cls) = Some implementations ->
        Route.findImplementation kebabToPascal camelToPascal implementations
          (RegExp.remove_first (Route.tailPattern cls) module) = None ->
        exists w,
          Route.parseTarget kebabToPascal camelToPascal cls target (Some rt)
          = Ok {| Route.ct_handler := VNull; Route.ct_args := []; Route.ct_warning := Some w |}
          /\ Str.is_empty w = false).
Proof.
  split.
  { eexists. split; [vm_compute; reflexivity|].
    repeat split; try (vm_compute; reflexivity). vm_compute. discriminate. }
  split.
  { eexists. split; [vm_compute; reflexivity|].
    repeat split; try (vm_compute; reflexivity). vm_compute. discriminate. }
  split.
  { intros Parser Compiler cls source target api imp r H.
    apply TargetFacts.construct_ok in H as (cs & ct & _ & _ & -> & -> & _). reflexivity. }
  intros cls target rt module method args implementations Hsel Hrt Hfind.
  eapply TargetFacts.missing_module; eauto.
Qed.

Module NormalizeFacts.
Import Normalize Shape.

Lemma add_route_again key existing target :
  add_route [(VStr key, existing)] (pair key target)
  = Ok [(VStr key, VArr [existing; target])].
Proof.
  unfold add_route, pair. cbn. rewrite String.eqb_refl. cbn.
  rewrite ?String.eqb_refl. reflexivity.
Qed.

Lemma add_routes_same key existing ts :
  add_routes [(VStr key, existing)] (List.map (pair key) ts)
  = Ok [(VStr key, nested existing ts)].
Proof.
  revert existing. induction ts as [|t ts IH]; intros existing; [reflexivity|].
  cbn [List.map add_routes]. rewrite add_route_again. cbn [mbind res_bind].
  rewrite IH. reflexivity.
Qed.

Lemma normalizeSet_same key t ts :
  _normalizeSet (VArr (List.map (pair key) (t :: ts)))
  = Ok (VMap [(VStr key, nested t ts)]).
Proof.
  unfold _normalizeSet. cbn [JS.truthy negb List.map add_routes].
  change (add_route [] (pair key t)) with (Ok [(VStr key, t)] : res _).
  cbn [mbind res_bind]. rewrite add_routes_same. reflexivity.
Qed.

(** [add_properties] fails as soon as one name is no source. *)
Lemma add_properties_throws raw names name :
  In name names -> throws (Route.preparseSource (VStr name)) ->
  forall mapping, throws (add_properties raw mapping names).
Proof.
  intros Hin [e He]. induction names as [|n names IH]; [destruct Hin|].
  intros mapping. cbn [add_properties]. unfold add_property at 1.
  destruct Hin as [->|Hin].
  - rewrite He. eexists. reflexivity.
  - destruct (Route.preparseSource (VStr n)) as [src|e']; cbn [mbind res_bind].
    + apply IH. exact Hin.
    + eexists. reflexivity.
Qed.

Lemma stage_name_throws name :
  Spec.is_stage_name name = true -> throws (Route.preparseSource (VStr name)).
Proof.
  unfold Spec.is_stage_name. cbn [existsb]. rewrite !orb_true_iff.
  intros [H|[H|[H|[H|H]]]]; try discriminate;
    apply String.eqb_eq in H as ->; eexists; vm_compute; reflexivity.
Qed.

(** The loop over the names: what the flags tell. *)
Lemma scan_names_all supportAllStages names toCheck st :
  explicit (scan_names supportAllStages names toCheck st) = true ->
  explicit st = true
  /\ forallb Spec.is_stage_name (firstn toCheck names) = true.
Proof.
  revert toCheck st. induction names as [|n names IH]; intros toCheck st H.
  - cbn in *. destruct toCheck; auto.
  - destruct toCheck as [|toCheck]; [cbn in *; auto|].
    cbn [scan_names] in H. apply IH in H as [Hst Hall].
    cbn [firstn forallb]. rewrite Hall, andb_true_r.
    unfold scan_name, Spec.is_stage_name in *. cbn [existsb].
    destruct (String.eqb n "early"), (String.eqb n "late"),
             (String.eqb n "before"), (String.eqb n "after");
      cbn in *; auto; discriminate.
Qed.

Lemma scan_names_found supportAllStages names toCheck st :
  foundExplicit st = false ->
  foundExplicit (scan_names supportAllStages names toCheck st) = false ->
  forallb (fun n => negb (Spec.is_stage_name n)) (firstn toCheck names) = true.
Proof.
  revert toCheck st. induction names as [|n names IH]; intros toCheck st Hst H.
  - destruct toCheck; reflexivity.
  - destruct toCheck as [|toCheck]; [reflexivity|].
    cbn [scan_names] in H. cbn [firstn forallb].
    destruct (Spec.is_stage_name n) eqn:En.
    + exfalso.
      assert (Hf : foundExplicit (scan_name supportAllStages n st) = true).
      { unfold scan_name, Spec.is_stage_name in *. cbn [existsb] in En.
        destruct (String.eqb n "early"), (String.eqb n "late"),
                 (String.eqb n "before"), (String.eqb n "after");
          cbn in *; auto; discriminate. }
      clear -H Hf. revert toCheck H.
      generalize (scan_name supportAllStages n st) as st', Hf. clear.
      induction names as [|m names IH]; intros st' Hf toCheck H.
      * destruct toCheck; cbn in H; congruence.
      * destruct toCheck as [|toCheck]; [cbn in H; congruence|].
        cbn [scan_names] in H. eapply IH; [|exact H].
        unfold scan_name.
        destruct (String.eqb m "early" || String.eqb m "late"); [reflexivity|].
        destruct (String.eqb m "before" || String.eqb m "after"); [reflexivity|].
        exact Hf.
    + cbn. eapply IH; [|exact H].
      unfold scan_name, Spec.is_stage_name in *. cbn [existsb] in En.
      destruct (String.eqb n "early"), (String.eqb n "late"),
               (String.eqb n "before"), (String.eqb n "after");
        cbn in *; auto; discriminate.
Qed.

Lemma scan_names_unexpected names toCheck st :
  unexpectedStages st = false ->
  unexpectedStages (scan_names false names toCheck st) = false ->
  forallb (fun n => negb (String.eqb n "early" || String.eqb n "late"))
    (firstn toCheck names) = true.
Proof.
  revert toCheck st. induction names as [|n names IH]; intros toCheck st Hst H.
  - destruct toCheck; reflexivity.
  - destruct toCheck as [|toCheck]; [reflexivity|].
    cbn [scan_names] in H. cbn [firstn forallb].
    destruct (String.eqb n "early" || String.eqb n "late") eqn:En.
    + exfalso.
      assert (Hf : unexpectedStages (scan_name false n st) = true).
      { unfold scan_name. rewrite En. reflexivity. }
      clear -H Hf. revert toCheck H.
      generalize (scan_name false n st) as st', Hf. clear.
      induction names as [|m names IH]; intros st' Hf toCheck H.
      * destruct toCheck; cbn in H; congruence.
      * destruct toCheck as [|toCheck]; [cbn in H; congruence|].
        cbn [scan_names] in H. eapply IH; [|exact H].
        unfold scan_name.
        destruct (String.eqb m "early" || String.eqb m "late"); [reflexivity|].
        destruct (String.eqb m "before" || String.eqb m "after"); exact Hf.
    + cbn. eapply IH; [|exact H].
      unfold scan_name. rewrite En.
      destruct (String.eqb n "before" || String.eqb n "after"); exact Hst.
Qed.

(** No five different names are all names of stages. *)
Lemma stage_names_few names :
  List.NoDup names -> forallb Spec.is_stage_name names = true -> length names <= 4.
Proof.
  intros Hnd Hall.
  change 4 with (length ["early"; "before"; "after"; "late"]).
  apply List.NoDup_incl_length; [exact Hnd|].
  intros n Hn. rewrite List.forallb_forall in Hall. specialize (Hall n Hn).
  unfold Spec.is_stage_name in Hall. apply List.existsb_exists in Hall as (m & Hm & E).
  apply String.eqb_eq in E as ->. exact Hm.
Qed.

Lemma In_firstn {A : Type} n (l : list A) x : In x (firstn n l) -> In x l.
Proof.
  revert n. induction l as [|y l IH]; intros n H; destruct n; cbn in *; try tauto.
  destruct H as [H|H]; eauto.
Qed.

Lemma NoDup_firstn {A : Type} n (l : list A) : List.NoDup l -> List.NoDup (firstn n l).
Proof.
  revert n. induction l as [|x l IH]; intros n H; destruct n; cbn; try constructor.
  - inversion H as [|? ? Hx Hl]; subst. intros Hin. apply Hx.
    eapply In_firstn; eauto.
  - inversion H; subst. auto.
Qed.

Lemma scan_names_explicit supportAllStages names toCheck st :
  forallb Spec.is_stage_name (firstn toCheck names) = true ->
  explicit (scan_names supportAllStages names toCheck st) = explicit st.
Proof.
  revert toCheck st. induction names as [|n names IH]; intros toCheck st H.
  - destruct toCheck; reflexivity.
  - destruct toCheck as [|toCheck]; [reflexivity|].
    cbn [firstn forallb] in H. apply andb_true_iff in H as [Hn H].
    cbn [scan_names]. rewrite IH by exact H.
    unfold scan_name, Spec.is_stage_name in *. cbn [existsb] in Hn.
    destruct (String.eqb n "early"), (String.eqb n "late"),
             (String.eqb n "before"), (String.eqb n "after");
      cbn in *; auto; discriminate.
Qed.

Lemma preparseSource_error definition e :
  Route.preparseSource definition = Throw e -> is_definition_error e = true.
Proof.
  unfold Route.preparseSource, Route.read_source.
  repeat (case_match; cbn [mbind res_bind]; try discriminate);
    intros [= <-]; reflexivity.
Qed.

Lemma add_properties_error raw names mapping e :
  add_properties raw mapping names = Throw e -> is_definition_error e = true.
Proof.
  revert mapping. induction names as [|n names IH]; intros mapping; [discriminate|].
  cbn [add_properties]. unfold add_property at 1.
  destruct (Route.preparseSource (VStr n)) as [src|e'] eqn:E; cbn [mbind res_bind].
  - apply IH.
  - intros [= <-]. eapply preparseSource_error; eauto.
Qed.

(** A plain object with the name of a stage among its own names is no
    set of routes. *)
Lemma normalizeSet_stage_name props name :
  In name (List.map fst props) -> Spec.is_stage_name name = true ->
  exists e, _normalizeSet (VObj props) = Throw e /\ is_definition_error e = true.
Proof.
  intros Hin Hstage. unfold _normalizeSet. cbn [JS.truthy negb own_names].
  destruct (add_properties_throws (VObj props) _ name Hin
              (stage_name_throws name Hstage) []) as [e He].
  rewrite He. exists e. split; [reflexivity|].
  eapply add_properties_error; eauto.
Qed.

End NormalizeFacts.

(** C2.  Entries of a raw array that share a source: for the targets
    [t1], [t2], ..., [tn] given in pairs under one key, the program binds
    the key to [t1] for one entry, to the array of [t1] and [t2] for two,
    and from the third entry on to an array of the value bound before and
    the new target: three targets give an array holding the array of
    [t1] and [t2], and [t3], not the flat array of the three. *)
Theorem C2_targets_under_one_source (key : string) (t1 t2 t3 : value) (ts : list value) :
  Normalize._normalizeSet
    (VArr [VArr [VStr key; t1]; VArr [VStr key; t2]; VArr [VStr key; t3]])
  = Ok (VMap [(VStr key, VArr [VArr [t1; t2]; t3])])
  /\ VArr [VArr [t1; t2]; t3] <> VArr [t1; t2; t3]
  /\ Normalize._normalizeSet (VArr [VArr [VStr key; t1]; VArr [VStr key; t2]])
     = Ok (VMap [(VStr key, VArr [t1; t2])])
  /\ Normalize._normalizeSet
       (VArr (List.map (Shape.pair key) (t1 :: ts)))
     = Ok (VMap [(VStr key, Shape.nested t1 ts)]).
Proof.
  split; [exact (NormalizeFacts.normalizeSet_same key t1 [t2; t3])|].
  split; [discriminate|].
  split; [exact (NormalizeFacts.normalizeSet_same key t1 [t2])|].
  apply NormalizeFacts.normalizeSet_same.
Qed.

(** C7.  Stages in a raw definition: a normaliser that supports stages
    fails on a plain object some of whose own names are names of stages
    and some are not, and it fails on one whose names are all names of
    stages when it does not support all stages and one of them is
    [early] or [late].  The own names of an object differ from each
    other. *)
Theorem C7_stage_mixing (supportAllStages : bool) (props : list (string * value)) :
  List.NoDup (List.map fst props) ->
  ((exists name, In name (List.map fst props) /\ Spec.is_stage_name name = true) ->
   (exists name, In name (List.map fst props) /\ Spec.is_stage_name name = false) ->
   exists e, Normalize._normalizeDefinition true supportAllStages (VObj props) = Throw e
             /\ is_definition_error e = true)
  /\ (forallb Spec.is_stage_name (List.map fst props) = true ->
      supportAllStages = false ->
      (In "early" (List.map fst props) \/ In "late" (List.map fst props)) ->
      Normalize._normalizeDefinition true supportAllStages (VObj props)
      = Throw UnexpectedStages)
  /\ Normalize.Plugin (VObj [("before", VObj []); ("customKey", VObj [])]) = Throw InvalidMix
  /\ Normalize.Custom (VObj [("before", VObj []); ("customKey", VObj [])]) = Throw InvalidMix
  /\ Normalize.Plugin (VObj [("early", VObj [])]) = Throw UnexpectedStages.
Proof.
  intros Hnd.
  assert (Hfew : forallb Spec.is_stage_name (firstn 5 (List.map fst props)) = true ->
                 firstn 5 (List.map fst props) = List.map fst props).
  { intros Hall. apply List.firstn_all2.
    pose proof (NormalizeFacts.stage_names_few _
                  (NormalizeFacts.NoDup_firstn 5 _ Hnd) Hall) as Hlen.
    rewrite List.length_firstn in Hlen. lia. }
  split; [|split].
  - intros (stage & Hin & Hstage) (other & Hin' & Hother).
    unfold Normalize._normalizeDefinition.
    cbn [JS.typeof JS.truthy JS.isArray negb andb Normalize.own_names].
    set (st := Normalize.scan_names _ _ _ _).
    destruct (Normalize.foundExplicit st && negb (Normalize.explicit st)) eqn:Hmix.
    { exists InvalidMix. split; reflexivity. }
    destruct (Normalize.explicit st) eqn:Hexp; cbn [negb].
    + exfalso. apply NormalizeFacts.scan_names_all in Hexp as [_ Hall].
      rewrite (Hfew Hall) in Hall. rewrite List.forallb_forall in Hall.
      rewrite (Hall other Hin') in Hother. discriminate.
    + destruct (NormalizeFacts.normalizeSet_stage_name props stage Hin Hstage)
        as (e & He & Hdef).
      exists e. split; [|exact Hdef].
      unfold Normalize.implicit. cbn [JS.or JS.truthy]. rewrite He.
      destruct supportAllStages; reflexivity.
  - intros Hall -> Hearly.
    unfold Normalize._normalizeDefinition.
    cbn [JS.typeof JS.truthy JS.isArray negb andb Normalize.own_names].
    set (st := Normalize.scan_names _ _ _ _).
    assert (Hall5 : forallb Spec.is_stage_name (firstn 5 (List.map fst props)) = true).
    { rewrite List.forallb_forall in *. intros n Hn. apply Hall.
      eapply NormalizeFacts.In_firstn; eauto. }
    assert (Hexp : Normalize.explicit st = true).
    { unfold st. now rewrite NormalizeFacts.scan_names_explicit. }
    rewrite Hexp, andb_false_r. cbn [negb].
    destruct (Normalize.unexpectedStages st) eqn:Hun; [reflexivity|].
    exfalso. apply NormalizeFacts.scan_names_unexpected in Hun; [|reflexivity].
    rewrite (Hfew Hall5) in Hun. rewrite List.forallb_forall in Hun.
    destruct Hearly as [Hin|Hin]; specialize (Hun _ Hin); discriminate.
  - repeat split; vm_compute; reflexivity.
Qed.

(** An object with the stage [early] and a route, given to the
    normaliser of a plugin and to the one of the application. *)
Lemma C7_stage_mixing_witness :
  List.NoDup (List.map fst [("early", VObj []); ("/a", VStr "Custom")])
  /\ (exists e,
        Normalize._normalizeDefinition true false
          (VObj [("early", VObj []); ("/a", VStr "Custom")]) = Throw e
        /\ is_definition_error e = true)
  /\ Normalize._normalizeDefinition true false (VObj [("early", VObj [])])
     = Throw UnexpectedStages.
Proof.
  assert (H1 : List.NoDup (List.map fst [("early", VObj []); ("/a", VStr "Custom")])).
  { repeat constructor; cbn; intuition discriminate. }
  assert (H2 : List.NoDup (List.map fst [("early", VObj [])])).
  { repeat constructor; cbn; intuition. }
  split; [exact H1|]. split.
  - apply (proj1 (C7_stage_mixing false _ H1)).
    + exists "early". split; [left; reflexivity | reflexivity].
    + exists "/a". split; [right; left; reflexivity | reflexivity].
  - apply (proj1 (proj2 (C7_stage_mixing false _ H2))).
    + reflexivity.
    + reflexivity.
    + left. left. reflexivity.
Defined.

Module ExampleFacts.

Lemma examples_loop_length random render n cs k examples :
  Route.examples_loop random render n cs k = Ok examples -> length examples = n.
Proof.
  revert cs k examples. induction n as [|n IH]; intros cs k examples H.
  - injection H as <-. reflexivity.
  - cbn [Route.examples_loop] in H.
    destruct (Route.example_values random cs [] k) as [values k'].
    apply bind_ok in H as (example & _ & H).
    apply bind_ok in H as (rest & Hrest & H).
    injection H as <-. cbn. f_equal. eapply IH; eauto.
Qed.

Lemma examples_loop_total random render n cs k :
  (forall values, exists path, render values = Ok path) ->
  exists examples, Route.examples_loop random render n cs k = Ok examples.
Proof.
  intros Hrender. revert cs k. induction n as [|n IH]; intros cs k.
  - eexists. reflexivity.
  - cbn [Route.examples_loop].
    destruct (Route.example_values random cs [] k) as [values k'].
    destruct (Hrender (VObj values)) as [path ->].
    destruct (IH (Route.advance true cs) k') as [rest ->].
    eexists. reflexivity.
Qed.

(** The factor of a parameter when no value is given for it. *)
Lemma cardinality_without_custom customValues o p :
  JS.truthy (Route.fixValue o) = false ->
  Route.minLengthOnly o = false -> Route.maxLengthOnly o = false ->
  JS.hasOwnProperty (VObj customValues) (Key.to_string (Key.name p)) = false ->
  Route.cardinality (Route.count_parameter customValues o p)
  = Z.of_nat (Spec.parameter_cardinality p).
Proof.
  intros Hfix Hmin Hmax Hown.
  unfold Route.count_parameter, Route.cardinality, Spec.parameter_cardinality.
  cbv zeta. rewrite Hfix, Hmin, Hmax, Hown.
  destruct (String.eqb (Key.modifier p) "?") eqn:E1.
  { apply String.eqb_eq in E1. rewrite E1.
    destruct (Route.useNames o), (Key.is_named (Key.name p)); reflexivity. }
  destruct (String.eqb (Key.modifier p) "+") eqn:E2.
  { apply String.eqb_eq in E2. rewrite E2.
    destruct (Route.useNames o), (Key.is_named (Key.name p)); reflexivity. }
  destruct (String.eqb (Key.modifier p) "*") eqn:E3.
  { destruct (Route.useNames o), (Key.is_named (Key.name p)); reflexivity. }
  destruct (Route.useNames o), (Key.is_named (Key.name p)); reflexivity.
Qed.

Lemma count_from (cs : list Route.counter) (start : Z) :
  fold_left (fun count c => (count * Route.cardinality c)%Z) cs start
  = (start * fold_right (fun c n => (Route.cardinality c * n)%Z) 1%Z cs)%Z.
Proof.
  revert start. induction cs as [|c cs IH]; intros start; cbn; [lia|].
  rewrite IH. lia.
Qed.

Lemma count_without_custom customValues o ps :
  JS.truthy (Route.fixValue o) = false ->
  Route.minLengthOnly o = false -> Route.maxLengthOnly o = false ->
  (forall p, In p ps ->
     JS.hasOwnProperty (VObj customValues) (Key.to_string (Key.name p)) = false) ->
  Route.count_examples (List.map (Route.count_parameter customValues o) ps)
  = Z.of_nat (Spec.product (List.map Spec.parameter_cardinality ps)).
Proof.
  intros Hfix Hmin Hmax Hown. unfold Route.count_examples. rewrite count_from.
  rewrite Z.mul_1_l. induction ps as [|p ps IH]; [reflexivity|].
  cbn [List.map fold_right Spec.product].
  rewrite IH by (intros; apply Hown; now right).
  rewrite cardinality_without_custom by (auto; apply Hown; now left). lia.
Qed.

End ExampleFacts.

(** C8.  The number of examples: when no value is given for a parameter
    (no fixed value, no custom value under its name) and neither
    [minLengthOnly] nor [maxLengthOnly] is set, the list of examples
    [generateExamples] returns has as many entries as the product over the
    parameters of the route of 1 for a mandatory single parameter, 2 for
    an optional one, 3 for a repeatable mandatory one and 4 for a
    repeatable optional one; and it returns such a list whenever rendering
    a path does not fail. *)
Theorem C8_number_of_examples (random : nat -> nat) (route : Route.t)
    (customValues : list (string * value)) (o : Route.example_options) :
  JS.truthy (Route.fixValue o) = false ->
  Route.minLengthOnly o = false ->
  Route.maxLengthOnly o = false ->
  (forall p, In p (Route.parameters route) ->
     JS.hasOwnProperty (VObj customValues) (Key.to_string (Key.name p)) = false) ->
  (forall examples,
     Route.generateExamples random route customValues o = Ok examples ->
     length examples
     = Spec.product (List.map Spec.parameter_cardinality (Route.parameters route)))
  /\ ((forall values, exists path, Route.compile route values = Ok path) ->
      exists examples,
        Route.generateExamples random route customValues o = Ok examples
        /\ length examples
           = Spec.product (List.map Spec.parameter_cardinality (Route.parameters route)))
  /\ (forall p, Key.modifier p = "" -> Spec.parameter_cardinality p = 1)
  /\ (forall p, Key.modifier p = "?" -> Spec.parameter_cardinality p = 2)
  /\ (forall p, Key.modifier p = "+" -> Spec.parameter_cardinality p = 3)
  /\ (forall p, Key.modifier p = "*" -> Spec.parameter_cardinality p = 4)
  /\ (forall p q, Key.modifier p = "?" -> Key.modifier q = "?" ->
        Spec.product (List.map Spec.parameter_cardinality [p; q]) = 4)
  /\ (forall p q, Key.modifier p = "?" -> Key.modifier q = "+" ->
        Spec.product (List.map Spec.parameter_cardinality [p; q]) = 6).
Proof.
  intros Hfix Hmin Hmax Hown.
  assert (Hlen : forall examples,
    Route.generateExamples random route customValues o = Ok examples ->
    length examples
    = Spec.product (List.map Spec.parameter_cardinality (Route.parameters route))).
  { intros examples H. unfold Route.generateExamples in H.
    apply ExampleFacts.examples_loop_length in H. rewrite H.
    rewrite ExampleFacts.count_without_custom by assumption.
    apply Nat2Z.id. }
  split; [exact Hlen|]. split.
  { intros Hrender.
    destruct (ExampleFacts.examples_loop_total random (Route.compile route)
                (Z.to_nat (Route.count_examples
                   (List.map (Route.count_parameter customValues o) (Route.parameters route))))
                (rev (List.map (Route.count_parameter customValues o) (Route.parameters route)))
                0 Hrender) as [examples H].
    exists examples. split; [exact H|]. apply Hlen. exact H. }
  unfold Spec.parameter_cardinality.
  repeat split; intros; cbn; repeat match goal with H : Key.modifier _ = _ |- _ => rewrite H end;
    reflexivity.
Qed.

Lemma C8_number_of_examples_witness :
  exists route examples,
    Examples.route Route.Terminal id id (VStr "/myPrefix/:param?/more-static") (VFun 0)
    = Ok route
    /\ Route.generateExamples (fun _ => 0) route [] Route.default_example_options
       = Ok examples
    /\ length examples = 2.
Proof.
  assert (H : exists route,
             Examples.route Route.Terminal id id
               (VStr "/myPrefix/:param?/more-static") (VFun 0) = Ok route
             /\ Route.generateExamples (fun _ => 0) route [] Route.default_example_options
                = Ok ["/myPrefix/more-static"; "/myPrefix/a/more-static"]
             /\ List.map Key.modifier (Route.parameters route) = ["?"]).
  { eexists. split; [lazy -[PathToRegexp.render_tokens]; reflexivity|].
    split; vm_compute; reflexivity. }
  destruct H as (route & Hroute & Hexamples & Hparameters).
  destruct (C8_number_of_examples (fun _ => 0) route []
              Route.default_example_options eq_refl eq_refl eq_refl
              (fun p _ => eq_refl)) as (Hlen & _).
  exists route. eexists. split; [exact Hroute|]. split; [exact Hexamples|].
  reflexivity.
Defined.

Module CoverFacts.

Import Shape.

Lemma valid_options items :
  existsb Route.invalid_option items = false ->
  forall i, In i items -> exists s, i = VStr s.
Proof.
  intros H i Hi. destruct i; eauto;
    exfalso; (assert (existsb Route.invalid_option items = true);
              [apply List.existsb_exists; eexists; split; [exact Hi | reflexivity]
              |congruence]).
Qed.

Lemma cover_lookup (myPattern : RegExp.compiled) (covered : gmap string nat) s c :
  Route.cover myPattern covered (VStr s) !! c
  = match RegExp.exec myPattern c with
    | Some m =>
        if String.eqb s c && negb (String.eqb c "__proto__")
        then Some (indicator m c) else covered !! c
    | None => covered !! c
    end.
Proof.
  unfold Route.cover. cbn [JS.ToString JS.isString andb].
  destruct (String.eqb_spec s c) as [->|Hne]; cbn [andb].
  - destruct (RegExp.exec myPattern c) as [m|]; [|reflexivity].
    destruct (String.eqb c "__proto__"); cbn [negb]; [reflexivity|].
    now rewrite lookup_insert_eq.
  - destruct (RegExp.exec myPattern s) as [m|].
    + destruct (String.eqb s "__proto__").
      * destruct (RegExp.exec myPattern c); reflexivity.
      * rewrite lookup_insert_ne by exact Hne.
        destruct (RegExp.exec myPattern c); reflexivity.
    + destruct (RegExp.exec myPattern c); reflexivity.
Qed.

Lemma fold_cover (myPattern : RegExp.compiled) items (covered : gmap string nat) c :
  (forall i, In i items -> exists s, i = VStr s) ->
  fold_left (Route.cover myPattern) items covered !! c
  = match RegExp.exec myPattern c with
    | Some m =>
        if existsb (is_candidate c) items && negb (String.eqb c "__proto__")
        then Some (indicator m c) else covered !! c
    | None => covered !! c
    end.
Proof.
  revert covered. induction items as [|i items IH]; intros covered Hstr.
  - cbn. destruct (RegExp.exec myPattern c); reflexivity.
  - destruct (Hstr i (or_introl eq_refl)) as [s ->].
    cbn [fold_left existsb is_candidate].
    rewrite IH by (intros; apply Hstr; now right).
    rewrite cover_lookup.
    destruct (RegExp.exec myPattern c) as [m|]; [|reflexivity].
    destruct (String.eqb s c), (existsb (is_candidate c) items),
      (String.eqb c "__proto__"); reflexivity.
Qed.

Lemma is_candidate_In c items :
  existsb (is_candidate c) items = true <-> In (VStr c) items.
Proof.
  rewrite List.existsb_exists. split.
  - intros (v & Hv & E). destruct v; try discriminate.
    apply String.eqb_eq in E as ->. exact Hv.
  - intros H. exists (VStr c). split; [exact H|]. cbn. apply String.eqb_refl.
Qed.

Lemma covered_of_path (Parser : parser_t) (r : Route.t) url options :
  Route.path r = url ->
  Route.selectProbablyCoveredPrefixes Parser r options
  = match options with
    | VArr items =>
        if existsb Route.invalid_option items then Throw InvalidOptions
        else
          '(myPattern, _) ← Parser url Route.covering_options;
          match RegExp.compile
                  {| RegExp.source :=
                       RegExp.remove_first Route.finalDollarPattern
                         (RegExp.source myPattern);
                     RegExp.flags := "" |} with
          | Some c => Ok (fold_left (Route.cover c) items ∅)
          | None => Throw PatternError
          end
    | _ => Throw InvalidOptions
    end.
Proof.
  intros <-. unfold Route.selectProbablyCoveredPrefixes, Route.coveringPattern.
  destruct options; try reflexivity.
  destruct (existsb Route.invalid_option items); [reflexivity|].
  destruct (Parser (Route.path r) Route.covering_options) as [[myPattern keys]|e];
    [|reflexivity].
  cbn [mbind res_bind].
  destruct (RegExp.compile _); reflexivity.
Qed.

End CoverFacts.

(** C9.  The covered prefixes: for a list of candidates that passes the
    test of the arguments, and the pattern derived from the path of the
    route without the anchor at its end, a candidate other than
    [__proto__] is mapped to [MATCH_FULL] exactly when the match of the
    pattern is the whole candidate, to [MATCH_PARTIAL] exactly when the
    pattern matches less than the candidate, and is missing from the
    result exactly when the pattern does not match it.  The candidate
    [__proto__] is never in the result: with the modelled pattern
    library the route with the path [/:name?] matches the empty head of
    it, and the result is empty.  With the same library the route with
    the path [/] covers [/test/name/sub] (partially), and the route with
    the path [/teste] does not. *)
Theorem C9_covered_prefixes (Parser : parser_t) (route : Route.t)
    (items : list value) (myPattern : RegExp.compiled) :
  existsb Route.invalid_option items = false ->
  Route.coveringPattern Parser route = Ok myPattern ->
  exists covered : gmap string nat,
    Route.selectProbablyCoveredPrefixes Parser route (VArr items) = Ok covered
    /\ (forall candidate : string,
          candidate <> "__proto__" ->
          (covered !! candidate = Some Route.MATCH_FULL <->
             In (VStr candidate) items
             /\ exists m, RegExp.exec myPattern candidate = Some m
                          /\ RegExp.whole m = candidate)
          /\ (covered !! candidate = Some Route.MATCH_PARTIAL <->
             In (VStr candidate) items
             /\ exists m, RegExp.exec myPattern candidate = Some m
                          /\ RegExp.whole m <> candidate)
          /\ (covered !! candidate = None <->
             ~ In (VStr candidate) items \/ RegExp.exec myPattern candidate = None))
    /\ covered !! "__proto__" = None
    /\ (forall r, Route.path r = "/:name?" ->
          (exists pattern m,
             Route.coveringPattern PathToRegexp.pathToRegexp r = Ok pattern
             /\ RegExp.exec pattern "__proto__" = Some m
             /\ RegExp.index m = 0
             /\ RegExp.whole m = "")
          /\ Route.selectProbablyCoveredPrefixes PathToRegexp.pathToRegexp r
               (VArr [VStr "__proto__"])
             = Ok ∅)
    /\ (forall r, Route.path r = "/" ->
          Route.selectProbablyCoveredPrefixes PathToRegexp.pathToRegexp r
            (VArr [VStr "/test/name/sub"])
          = Ok {[ "/test/name/sub" := Route.MATCH_PARTIAL ]})
    /\ (forall r, Route.path r = "/teste" ->
          Route.selectProbablyCoveredPrefixes PathToRegexp.pathToRegexp r
            (VArr [VStr "/test/name/sub"])
          = Ok ∅).
Proof.
  intros Hvalid Hpattern.
  exists (fold_left (Route.cover myPattern) items ∅). split.
  { unfold Route.selectProbablyCoveredPrefixes. rewrite Hvalid, Hpattern. reflexivity. }
  pose proof (CoverFacts.fold_cover myPattern items ∅) as Hfold.
  split.
  { intros candidate Hproto.
    pose proof (Hfold candidate (CoverFacts.valid_options items Hvalid)) as H.
    rewrite lookup_empty in H.
    apply String.eqb_neq in Hproto. rewrite Hproto, andb_true_r in H.
    pose proof (CoverFacts.is_candidate_In candidate items) as Hin.
    destruct (RegExp.exec myPattern candidate) as [m|] eqn:E.
    - destruct (existsb (Shape.is_candidate candidate) items) eqn:Hex.
      + assert (Hc : In (VStr candidate) items) by (apply Hin; reflexivity).
        rewrite H. unfold Shape.indicator.
        destruct (String.eqb_spec (RegExp.whole m) candidate) as [Hw|Hw].
        * split; [|split].
          -- split; [eauto|reflexivity].
          -- split; [discriminate|]. intros (_ & m' & [= <-] & Hne). contradiction.
          -- split; [discriminate|]. intros [Hn|Hn]; [contradiction | discriminate].
        * split; [|split].
          -- split; [discriminate|]. intros (_ & m' & [= <-] & He). contradiction.
          -- split; [eauto|reflexivity].
          -- split; [discriminate|]. intros [Hn|Hn]; [contradiction | discriminate].
      + assert (Hc : ~ In (VStr candidate) items).
        { intros Hc. apply Hin in Hc. congruence. }
        rewrite H. split; [|split].
        * split; [discriminate|]. intros [Hn _]. contradiction.
        * split; [discriminate|]. intros [Hn _]. contradiction.
        * split; auto.
    - rewrite H. split; [|split].
      + split; [discriminate|]. intros (_ & m' & Hm & _). discriminate.
      + split; [discriminate|]. intros (_ & m' & Hm & _). discriminate.
      + split; auto. }
  split.
  { rewrite (Hfold "__proto__" (CoverFacts.valid_options items Hvalid)).
    rewrite lookup_empty. cbn [String.eqb Ascii.eqb Bool.eqb negb].
    rewrite andb_false_r. destruct (RegExp.exec myPattern "__proto__"); reflexivity. }
  split; [|split].
  - intros r Hr. split.
    + unfold Route.coveringPattern. rewrite Hr.
      eexists. eexists. split; [vm_compute; reflexivity|].
      split; [vm_compute; reflexivity|]. split; reflexivity.
    + rewrite (CoverFacts.covered_of_path _ r _ _ Hr). vm_compute. reflexivity.
  - intros r Hr. rewrite (CoverFacts.covered_of_path _ r _ _ Hr). vm_compute. reflexivity.
  - intros r Hr. rewrite (CoverFacts.covered_of_path _ r _ _ Hr). vm_compute. reflexivity.
Qed.

Lemma C9_covered_prefixes_witness :
  exists route myPattern covered,
    Examples.route Route.Terminal id id (VStr "/test") (VFun 0) = Ok route
    /\ Route.coveringPattern PathToRegexp.pathToRegexp route = Ok myPattern
    /\ Route.selectProbablyCoveredPrefixes PathToRegexp.pathToRegexp route
         (VArr [VStr "/test"; VStr "/test/name"; VStr "/other"]) = Ok covered
    /\ covered !! "/test" = Some Route.MATCH_FULL
    /\ covered !! "/test/name" = Some Route.MATCH_PARTIAL
    /\ covered !! "/other" = None.
Proof.
  assert (H : exists route myPattern,
             Examples.route Route.Terminal id id (VStr "/test") (VFun 0) = Ok route
             /\ Route.coveringPattern PathToRegexp.pathToRegexp route = Ok myPattern
             /\ (exists m, RegExp.exec myPattern "/test" = Some m
                           /\ RegExp.whole m = "/test")
             /\ (exists m, RegExp.exec myPattern "/test/name" = Some m
                           /\ RegExp.whole m <> "/test/name")
             /\ RegExp.exec myPattern "/other" = None).
  { eexists. eexists. split; [lazy -[PathToRegexp.render_tokens]; reflexivity|].
    split; [vm_compute; reflexivity|].
    split; [eexists; split; [vm_compute; reflexivity|reflexivity]|].
    split; [eexists; split; [vm_compute; reflexivity|discriminate]|].
    vm_compute. reflexivity. }
  destruct H as (route & myPattern & Hroute & Hpattern & Hfull & Hpartial & Hnone).
  destruct (C9_covered_prefixes PathToRegexp.pathToRegexp route
              [VStr "/test"; VStr "/test/name"; VStr "/other"] myPattern
              eq_refl Hpattern)
    as (covered & Hsel & Hchar & _).
  exists route, myPattern, covered.
  split; [exact Hroute|]. split; [exact Hpattern|]. split; [exact Hsel|].
  split; [|split].
  - apply (Hchar "/test"); [discriminate|]. split; [simpl; auto|exact Hfull].
  - apply (Hchar "/test/name"); [discriminate|]. split; [simpl; auto|exact Hpartial].
  - apply (Hchar "/other"); [discriminate|]. right. exact Hnone.
Defined.

(** C10.  The arguments of the analyzer of covered prefixes are tested
    first: an argument that is no array, and an array with an element
    that is no string or a string that is empty after trimming, make the
    operation throw its [TypeError], whatever the pattern library would
    do with the path of the route; the empty array passes the test, and
    the result is the empty mapping as soon as the pattern is derived. *)
Theorem C10_options_are_tested_first (Parser : parser_t) (route : Route.t) :
  (forall options : value,
     (forall items, options <> VArr items) ->
     Route.selectProbablyCoveredPrefixes Parser route options = Throw InvalidOptions)
  /\ (forall (items : list value) (i : value),
        In i items ->
        (forall s, i <> VStr s)
        \/ (exists s, i = VStr s /\ String.length (Str.trim s) = 0) ->
        Route.selectProbablyCoveredPrefixes Parser route (VArr items)
        = Throw InvalidOptions)
  /\ Route.selectProbablyCoveredPrefixes Parser route (VArr [])
     = (myPattern ← Route.coveringPattern Parser route; Ok ∅)
  /\ (forall myPattern,
        Route.coveringPattern Parser route = Ok myPattern ->
        Route.selectProbablyCoveredPrefixes Parser route (VArr []) = Ok ∅)
  /\ (forall r, Route.path r = "/" ->
        Route.selectProbablyCoveredPrefixes PathToRegexp.pathToRegexp r (VArr [])
        = Ok ∅)
  /\ is_definition_error InvalidOptions = true.
Proof.
  split; [|split; [|split; [|split; [|split]]]].
  - intros options Hno. destruct options; try reflexivity.
    exfalso. apply (Hno items). reflexivity.
  - intros items i Hi Hbad. unfold Route.selectProbablyCoveredPrefixes.
    assert (E : existsb Route.invalid_option items = true).
    { apply List.existsb_exists. exists i. split; [exact Hi|].
      destruct Hbad as [Hno | (s & -> & Hlen)].
      - destruct i; try reflexivity. exfalso. apply (Hno s). reflexivity.
      - cbn [Route.invalid_option]. rewrite Hlen. reflexivity. }
    rewrite E. reflexivity.
  - reflexivity.
  - intros myPattern H. unfold Route.selectProbablyCoveredPrefixes.
    cbn [existsb]. rewrite H. reflexivity.
  - intros r Hr. rewrite (CoverFacts.covered_of_path _ r _ _ Hr). vm_compute. reflexivity.
  - reflexivity.
Qed.

Module SearchFacts.
Import RegExp.

(** A pattern that matches at some place of a text is found by
    [exec]. *)
Lemma exec_from_found c i a b :
  run (icase c) (tree c) (i + String.length a =? 0) b <> [] ->
  exec_from c i (a +:+ b) <> None.
Proof.
  revert i. induction a as [|x a IH]; intros i H.
  - cbn [String.append]. cbn [String.length] in H. rewrite Nat.add_0_r in H.
    destruct b as [|y b]; cbn [exec_from];
      destruct (run (icase c) (tree c) (i =? 0) _); congruence.
  - cbn [String.append exec_from].
    destruct (run (icase c) (tree c) (i =? 0) _); [|discriminate].
    apply IH. cbn [String.length] in H. now rewrite Nat.add_succ_r in H.
Qed.

Lemma test_found c a b :
  run (icase c) (tree c) (String.length a =? 0) b <> [] ->
  test c (a +:+ b) = true.
Proof.
  intros H. unfold test, exec.
  pose proof (exec_from_found c 0 a b H) as Hf.
  destruct (exec_from c 0 (a +:+ b)); congruence.
Qed.

Lemma alt_found_l ic a b bol s :
  run ic a bol s <> [] -> run ic (Alt a b) bol s <> [].
Proof. cbn [run]. destruct (run ic a bol s); [congruence | discriminate]. Qed.

Lemma alt_found_r ic a b bol s :
  run ic b bol s <> [] -> run ic (Alt a b) bol s <> [].
Proof.
  cbn [run]. intros H E. apply app_eq_nil in E as [_ E]. contradiction.
Qed.

Lemma invalidPathPattern_tree :
  Route.invalidPathPattern
  = {| tree :=
         Alt (Seq Bol (Chars true (single "/")))
           (Alt (Seq (Chars false (single "/")) (Chars false (single "/")))
              (Alt (Seq (Chars false (single "/"))
                      (Seq (Chars false (single ":")) (Alt (Chars false non_word) Eol)))
                 (Seq (Chars false (single "(")) (Chars false (single ")")))));
       ngroups := 0; icase := false |}.
Proof. vm_compute. reflexivity. Qed.

Lemma not_slash_class c :
  char_matches false true (single "/") c = negb (Ascii.eqb c "/").
Proof. destruct c as [[] [] [] [] [] [] [] []]; vm_compute; reflexivity. Qed.

Lemma non_word_class c :
  char_matches false false non_word c = negb (in_cset word c).
Proof. destruct c as [[] [] [] [] [] [] [] []]; vm_compute; reflexivity. Qed.

(** The four shapes [preparseSource] refuses in a path. *)
Lemma invalid_start c s :
  Ascii.eqb c "/" = false -> test Route.invalidPathPattern (String c s) = true.
Proof.
  intros Hc. apply (test_found _ "" (String c s)).
  rewrite invalidPathPattern_tree. cbn [tree icase].
  apply alt_found_l. cbn -[single]. rewrite not_slash_class, Hc. discriminate.
Qed.

Lemma invalid_double_slash a b :
  test Route.invalidPathPattern (a +:+ "//" +:+ b) = true.
Proof.
  apply test_found. rewrite invalidPathPattern_tree. cbn [tree icase].
  apply alt_found_r, alt_found_l. vm_compute. discriminate.
Qed.

Lemma invalid_parentheses a b :
  test Route.invalidPathPattern (a +:+ "()" +:+ b) = true.
Proof.
  apply test_found. rewrite invalidPathPattern_tree. cbn [tree icase].
  apply alt_found_r, alt_found_r, alt_found_r. vm_compute. discriminate.
Qed.

Lemma invalid_name_end a :
  test Route.invalidPathPattern (a +:+ "/:") = true.
Proof.
  apply test_found. rewrite invalidPathPattern_tree. cbn [tree icase].
  apply alt_found_r, alt_found_r, alt_found_l. vm_compute. discriminate.
Qed.

Lemma seq_found ic a b bol s y :
  run ic a bol s = [y] ->
  run ic b (bol && Str.is_empty (matched y)) (rest y) <> [] ->
  run ic (Seq a b) bol s <> [].
Proof.
  intros Ha Hb. cbn [run]. rewrite Ha. cbn [flat_map]. rewrite app_nil_r.
  destruct (run ic b _ _); [congruence | discriminate].
Qed.

Lemma invalid_name a c b :
  in_cset word c = false ->
  test Route.invalidPathPattern (a +:+ "/:" +:+ String c b) = true.
Proof.
  intros Hc. apply test_found. rewrite invalidPathPattern_tree. cbn [tree icase].
  apply alt_found_r, alt_found_r, alt_found_l.
  eapply seq_found; [vm_compute; reflexivity|]. cbn [rest matched].
  eapply seq_found; [vm_compute; reflexivity|]. cbn [rest matched].
  apply alt_found_l. cbn [run]. rewrite non_word_class, Hc. discriminate.
Qed.

End SearchFacts.

(** X1.  The paths [preparseSource] lets pass: the path of every source
    it accepts is empty or starts with a slash, has no two slashes in a
    row and no empty pair of parentheses, and a colon right behind a
    slash is followed by a character of a name. *)
Theorem X1_accepted_paths (definition : value) (p : Route.preparsed) :
  Route.preparseSource definition = Ok p ->
  (Route.url p = "" \/ exists rest, Route.url p = String "/" rest)
  /\ (forall a b, Route.url p <> a +:+ "//" +:+ b)
  /\ (forall a b, Route.url p <> a +:+ "()" +:+ b)
  /\ (forall a b, Route.url p = a +:+ "/:" +:+ b ->
        exists c b', b = String c b' /\ RegExp.in_cset RegExp.word c = true).
Proof.
  unfold Route.preparseSource. intros H.
  apply bind_ok in H as ([type url] & _ & H).
  destruct type as [| | | |t| | | |]; try discriminate.
  destruct url as [| | | |u| | | |]; try discriminate.
  cbn [mbind res_bind] in H.
  destruct (RegExp.test Route.invalidPathPattern _) eqn:E; [discriminate|].
  injection H as <-. cbn [Route.url].
  match type of E with
  | RegExp.test _ ?text = false => set (url := text) in *; clearbody url
  end.
  split; [|split; [|split]].
  - destruct url as [|c rest]; [now left|]. right.
    destruct (Ascii.eqb_spec c "/") as [->|Hc]; [eauto|].
    apply Ascii.eqb_neq in Hc.
    rewrite (SearchFacts.invalid_start c rest Hc) in E. discriminate.
  - intros a b ->. rewrite SearchFacts.invalid_double_slash in E. discriminate.
  - intros a b ->. rewrite SearchFacts.invalid_parentheses in E. discriminate.
  - intros a b ->. destruct b as [|c b'].
    + rewrite SearchFacts.invalid_name_end in E. discriminate.
    + exists c, b'. split; [reflexivity|].
      destruct (RegExp.in_cset RegExp.word c) eqn:Hc; [reflexivity|].
      rewrite (SearchFacts.invalid_name a c b' Hc) in E. discriminate.
Qed.

Lemma X1_accepted_paths_witness :
  exists p,
    Route.preparseSource (VStr "get ~/user/:id/(.*)") = Ok p
    /\ Route.url p = "/user/:id/(.*)"
    /\ (forall a b, Route.url p <> a +:+ "//" +:+ b).
Proof.
  eexists. split; [vm_compute; reflexivity|]. split; [reflexivity|].
  apply (X1_accepted_paths (VStr "get ~/user/:id/(.*)")). vm_compute. reflexivity.
Defined.

Module TypeFacts.

Lemma upper_upper c : Str.upper (Str.upper c) = Str.upper c.
Proof. destruct c as [[] [] [] [] [] [] [] []]; vm_compute; reflexivity. Qed.

Lemma is_space_upper c : Str.is_space (Str.upper c) = Str.is_space c.
Proof. destruct c as [[] [] [] [] [] [] [] []]; vm_compute; reflexivity. Qed.

Lemma toUpperCase_again s : Str.toUpperCase (Str.toUpperCase s) = Str.toUpperCase s.
Proof.
  unfold Str.toUpperCase. induction s as [|c s IH]; [reflexivity|].
  cbn [Str.map]. now rewrite upper_upper, IH.
Qed.

Lemma is_empty_map f s : Str.is_empty (Str.map f s) = Str.is_empty s.
Proof. destruct s; reflexivity. Qed.

Lemma trimStart_upper s :
  Str.trimStart (Str.map Str.upper s) = Str.map Str.upper (Str.trimStart s).
Proof.
  induction s as [|c s IH]; [reflexivity|].
  cbn [Str.map Str.trimStart]. rewrite is_space_upper.
  destruct (Str.is_space c); [exact IH | reflexivity].
Qed.

Lemma trimEnd_upper s :
  Str.trimEnd (Str.map Str.upper s) = Str.map Str.upper (Str.trimEnd s).
Proof.
  induction s as [|c s IH]; [reflexivity|].
  cbn [Str.map Str.trimEnd]. rewrite is_space_upper, IH, is_empty_map.
  destruct (Str.is_space c && Str.is_empty (Str.trimEnd s)); reflexivity.
Qed.

Lemma trimStart_again s : Str.trimStart (Str.trimStart s) = Str.trimStart s.
Proof.
  induction s as [|c s IH]; [reflexivity|].
  cbn [Str.trimStart]. destruct (Str.is_space c) eqn:E; [exact IH|].
  cbn [Str.trimStart]. now rewrite E.
Qed.

Lemma trimEnd_again s : Str.trimEnd (Str.trimEnd s) = Str.trimEnd s.
Proof.
  induction s as [|c s IH]; [reflexivity|].
  cbn [Str.trimEnd].
  destruct (Str.is_space c && Str.is_empty (Str.trimEnd s)) eqn:E; [reflexivity|].
  cbn [Str.trimEnd]. rewrite IH, E. reflexivity.
Qed.

(** A text without white space at its head keeps its head when the
    white space at its end is cut. *)
Lemma trimStart_trimEnd s :
  Str.trimStart (Str.trimEnd (Str.trimStart s)) = Str.trimEnd (Str.trimStart s).
Proof.
  induction s as [|c s IH]; [reflexivity|].
  cbn [Str.trimStart]. destruct (Str.is_space c) eqn:E; [exact IH|].
  cbn [Str.trimEnd]. rewrite E. cbn [andb Str.trimStart]. now rewrite E.
Qed.

Lemma trim_again s : Str.trim (Str.trim s) = Str.trim s.
Proof.
  unfold Str.trim. rewrite trimStart_trimEnd. apply trimEnd_again.
Qed.

Lemma trim_upper s : Str.trim (Str.toUpperCase s) = Str.toUpperCase (Str.trim s).
Proof.
  unfold Str.trim, Str.toUpperCase. now rewrite trimStart_upper, trimEnd_upper.
Qed.

Lemma normalize_type_form t :
  let type := Route.normalize_type t in
  type <> "" /\ type <> "*"
  /\ Str.toUpperCase type = type /\ Str.trim type = type.
Proof.
  unfold Route.normalize_type.
  destruct (Str.is_empty (Str.toUpperCase (Str.trim t))) eqn:Ee;
    [cbn; repeat split; discriminate|].
  destruct (String.eqb_spec (Str.toUpperCase (Str.trim t)) "*") as [Es|Es];
    [cbn; repeat split; discriminate|].
  cbn [orb]. repeat split.
  - intros E. rewrite E in Ee. discriminate.
  - exact Es.
  - apply toUpperCase_again.
  - rewrite trim_upper, trim_again. reflexivity.
Qed.

Lemma preparseSource_type definition p :
  Route.preparseSource definition = Ok p ->
  exists t, Route.type p = Route.normalize_type t.
Proof.
  unfold Route.preparseSource. intros H.
  apply bind_ok in H as ([type url] & _ & H).
  destruct type as [| | | |t| | | |]; try discriminate.
  destruct url as [| | | |u| | | |]; try discriminate.
  cbn [mbind res_bind] in H.
  destruct (RegExp.test Route.invalidPathPattern _); [discriminate|].
  injection H as <-. exists t. reflexivity.
Qed.

End TypeFacts.

(** X2.  The method [preparseSource] gives: for every source it accepts,
    a string or an object, the method is not empty and not [*], it is in
    upper case and has no white space around it, so that normalising it
    again changes nothing. *)
Theorem X2_method_normal_form (definition : value) (p : Route.preparsed) :
  Route.preparseSource definition = Ok p ->
  Route.type p <> "" /\ Route.type p <> "*"
  /\ Str.toUpperCase (Route.type p) = Route.type p
  /\ Str.trim (Route.type p) = Route.type p
  /\ Route.normalize_type (Route.type p) = Route.type p.
Proof.
  intros H. apply TypeFacts.preparseSource_type in H as [t ->].
  destruct (TypeFacts.normalize_type_form t) as (Hn & Hs & Hu & Ht).
  repeat split; try assumption.
  unfold Route.normalize_type at 1. rewrite Ht, Hu.
  destruct (Route.normalize_type t) as [|c s] eqn:E; [congruence|].
  cbn [Str.is_empty orb].
  destruct (String.eqb_spec (String c s) "*") as [Es|Es]; [congruence | reflexivity].
Qed.

Lemma X2_method_normal_form_witness :
  exists p,
    Route.preparseSource (VObj [("type", VStr "  post "); ("url", VStr "/items")]) = Ok p
    /\ Route.type p = "POST"
    /\ Route.normalize_type (Route.type p) = Route.type p.
Proof.
  eexists. split; [vm_compute; reflexivity|]. split; [reflexivity|].
  apply (X2_method_normal_form
           (VObj [("type", VStr "  post "); ("url", VStr "/items")])).
  vm_compute. reflexivity.
Defined.

Module TargetFacts2.

Lemma selectTarget_direct target h :
  Route.selectTarget target = Ok (Route.Direct h) -> exists f, h = VFun f.
Proof.
  unfold Route.selectTarget.
  destruct target; cbn; try discriminate;
    try (intros [= <-]; eauto; fail);
    intros H; repeat case_match; discriminate.
Qed.

Lemma construct_args (Parser : parser_t) (Compiler : compiler_t) k2p c2p cls
    source target api imp r :
  Route.construct Parser Compiler k2p c2p cls source target api imp = Ok r ->
  exists ct,
    Route.parseTarget k2p c2p cls target api = Ok ct
    /\ Route.handler r = Route.ct_handler ct
    /\ Route.args r = Route.ct_args ct
    /\ Route.isValid r = JS.isFunction (Route.ct_handler ct)
    /\ Route.warning r = match Route.ct_warning ct with
                         | Some w => if Str.is_empty w then None else Some w
                         | None => None
                         end.
Proof.
  unfold Route.construct. intros H.
  apply bind_ok in H as (cs & Hcs & H).
  apply bind_ok in H as (ct & Hct & H).
  injection H as <-. exists ct. cbn. auto.
Qed.

(** What [parseTarget] returns: a function without a warning, or
    something else with a warning and without arguments. *)
Lemma parseTarget_shape k2p c2p cls target api ct :
  Route.parseTarget k2p c2p cls target api = Ok ct ->
  (JS.isFunction (Route.ct_handler ct) = true /\ Route.ct_warning ct = None)
  \/ (JS.isFunction (Route.ct_handler ct) = false
      /\ Route.ct_args ct = []
      /\ exists w, Route.ct_warning ct = Some w /\ Str.is_empty w = false).
Proof.
  unfold Route.parseTarget. destruct api as [rt|]; [|discriminate].
  intros H. apply bind_ok in H as (sel & Hsel & H).
  destruct sel as [h|module method args].
  - injection H as <-. left. apply selectTarget_direct in Hsel as [f ->]. auto.
  - apply bind_ok in H as (m & _ & H).
    apply bind_ok in H as (implementations & _ & H).
    cbv zeta in H.
    destruct (match Route.findImplementation k2p c2p implementations m with
              | Some n => if Str.is_empty n then None else implementations !! n
              | None => None
              end) as [impl|].
    + destruct (JS.isFunction (impl (JS.ToString method))) eqn:E;
        injection H as <-; cbn; [left; auto|right].
      repeat split; auto. eexists. split; reflexivity.
    + injection H as <-. right. cbn. repeat split. eexists. split; reflexivity.
Qed.

End TargetFacts2.

(** X3.  Validity and warning of a route: a route the constructor
    returns is valid exactly when it has no warning; a valid route has a
    function as its handler, and a route that is not valid has a warning
    that is not empty and no arguments for its handler. *)
Theorem X3_valid_or_warned (Parser : parser_t) (Compiler : compiler_t)
    (kebabToPascal camelToPascal : string -> string) (cls : Route.variant)
    (source target : value) (api : option Route.runtime) (isMatchingPrefix : bool)
    (r : Route.t) :
  Route.construct Parser Compiler kebabToPascal camelToPascal cls source target api
    isMatchingPrefix = Ok r ->
  (Route.isValid r = true <-> Route.warning r = None)
  /\ (Route.isValid r = true -> exists f, Route.handler r = VFun f)
  /\ (Route.isValid r = false ->
        Route.args r = []
        /\ exists w, Route.warning r = Some w /\ w <> "").
Proof.
  intros H.
  apply TargetFacts2.construct_args in H as (ct & Hct & Hh & Ha & Hv & Hw).
  rewrite Hv, Hw, Hh, Ha.
  apply TargetFacts2.parseTarget_shape in Hct
    as [[Hf Hn]|(Hf & Hargs & w & Hn & He)]; rewrite Hf, Hn.
  - split; [tauto|]. split; [|discriminate].
    intros _. destruct (Route.ct_handler ct); try discriminate. eauto.
  - rewrite He. split; [split; discriminate|]. split; [discriminate|].
    intros _. split; [exact Hargs|]. exists w. split; [reflexivity|].
    intros ->. discriminate.
Qed.

Lemma X3_valid_or_warned_witness :
  exists r,
    Examples.route Route.Terminal id id (VStr "GET /") (VStr "Custom::missing") = Ok r
    /\ Route.isValid r = false
    /\ Route.args r = []
    /\ exists w, Route.warning r = Some w /\ w <> "".
Proof.
  assert (H : exists r,
             Examples.route Route.Terminal id id (VStr "GET /") (VStr "Custom::missing")
             = Ok r /\ Route.isValid r = false).
  { eexists. split; [lazy -[PathToRegexp.render_tokens]; reflexivity | reflexivity]. }
  destruct H as (r & Hr & Hv).
  exists r. split; [exact Hr|]. split; [exact Hv|].
  apply (X3_valid_or_warned _ _ _ _ _ _ _ _ _ r Hr). exact Hv.
Defined.

(** X4.  A function as the target: with a runtime API at hand the
    function is the handler of the route as it is, without arguments and
    without a warning, whatever the collections hold; without the API
    every target is refused with the error of the API, a function too. *)
Theorem X4_function_target (kebabToPascal camelToPascal : string -> string)
    (cls : Route.variant) :
  (forall (f : nat) (rt : Route.runtime),
     Route.parseTarget kebabToPascal camelToPascal cls (VFun f) (Some rt)
     = Ok {| Route.ct_handler := VFun f; Route.ct_args := [];
             Route.ct_warning := None |})
  /\ (forall target : value,
        Route.parseTarget kebabToPascal camelToPascal cls target None
        = Throw InvalidApi)
  /\ (forall (Parser : parser_t) (Compiler : compiler_t) source f rt imp cs,
        Route.parseSource Parser Compiler source imp = Ok cs ->
        exists r,
          Route.construct Parser Compiler kebabToPascal camelToPascal cls source
            (VFun f) (Some rt) imp = Ok r
          /\ Route.isValid r = true /\ Route.handler r = VFun f
          /\ Route.args r = [] /\ Route.warning r = None)
  /\ (forall (Parser : parser_t) (Compiler : compiler_t) source target imp cs,
        Route.parseSource Parser Compiler source imp = Ok cs ->
        Route.construct Parser Compiler kebabToPascal camelToPascal cls source
          target None imp = Throw InvalidApi).
Proof.
  split; [reflexivity|]. split; [reflexivity|]. split.
  - intros Parser Compiler source f rt imp cs H. unfold Route.construct.
    rewrite H. cbn. eexists. split; [reflexivity|]. auto.
  - intros Parser Compiler source target imp cs H. unfold Route.construct.
    rewrite H. reflexivity.
Qed.

(** X5.  Targets that select nothing: with a runtime API at hand,
    [undefined], [null], a boolean, a number, an array, and an object
    that names no method or none of module, controller and policy are
    refused as descriptors; a string that is empty or blank is refused as
    a selector. *)
Theorem X5_malformed_targets (kebabToPascal camelToPascal : string -> string)
    (cls : Route.variant) (rt : Route.runtime) :
  (forall target,
     JS.typeof target <> JS.TString -> JS.typeof target <> JS.TFunction ->
     JS.typeof target <> JS.TObject ->
     Route.parseTarget kebabToPascal camelToPascal cls target (Some rt)
     = Throw InvalidTargetDescriptor)
  /\ Route.parseTarget kebabToPascal camelToPascal cls VNull (Some rt)
     = Throw InvalidTargetDescriptor
  /\ (forall items,
        Route.parseTarget kebabToPascal camelToPascal cls (VArr items) (Some rt)
        = Throw InvalidTargetDescriptor)
  /\ (forall props,
        JS.truthy (JS.get (VObj props) "method") = false ->
        Route.parseTarget kebabToPascal camelToPascal cls (VObj props) (Some rt)
        = Throw InvalidTargetDescriptor)
  /\ (forall props,
        JS.truthy (JS.get (VObj props) "module") = false ->
        JS.truthy (JS.get (VObj props) "controller") = false ->
        JS.truthy (JS.get (VObj props) "policy") = false ->
        Route.parseTarget kebabToPascal camelToPascal cls (VObj props) (Some rt)
        = Throw InvalidTargetDescriptor)
  /\ (forall s,
        Str.trim s = "" ->
        Route.parseTarget kebabToPascal camelToPascal cls (VStr s) (Some rt)
        = Throw InvalidTargetSelector).
Proof.
  unfold Route.parseTarget, Route.selectTarget.
  split; [|split; [|split; [|split; [|split]]]].
  - intros target H1 H2 H3. destruct target; cbn in *; congruence.
  - reflexivity.
  - reflexivity.
  - intros props H. cbn [JS.typeof]. rewrite H, andb_false_r. reflexivity.
  - intros props H1 H2 H3. cbn [JS.typeof].
    unfold JS.or. rewrite H1, H2, H3. cbn [JS.truthy andb]. reflexivity.
  - intros s H. cbn [JS.typeof]. rewrite H. reflexivity.
Qed.

Module TailFacts.
Import RegExp.

Lemma ascii_listed (c : ascii) : In c (List.map ascii_of_nat (seq 0 256)).
Proof.
  apply in_map_iff. exists (nat_of_ascii c). split; [apply ascii_nat_embedding|].
  apply in_seq. pose proof (nat_ascii_bounded c). lia.
Qed.

(** With the flag [i] a character matches a single one exactly when
    both are the same in upper case. *)
Lemma single_class_i x c :
  char_matches true false (single x) c = Ascii.eqb (Str.upper c) (Str.upper x).
Proof.
  assert (H : forallb (fun x =>
                forallb (fun c =>
                  Bool.eqb (char_matches true false (single x) c)
                    (Ascii.eqb (Str.upper c) (Str.upper x)))
                  (List.map ascii_of_nat (seq 0 256)))
                (List.map ascii_of_nat (seq 0 256)) = true).
  { vm_compute. reflexivity. }
  rewrite forallb_forall in H. specialize (H x (ascii_listed x)).
  rewrite forallb_forall in H. specialize (H c (ascii_listed c)).
  apply Bool.eqb_prop in H. exact H.
Qed.

Lemma tailPattern_tree cls :
  Route.tailPattern cls
  = {| tree := Tail.word (Tail.suffix cls); ngroups := 0; icase := true |}.
Proof. destruct cls; vm_compute; reflexivity. Qed.

Lemma toUpperCase_empty s : Str.toUpperCase s = "" -> s = "".
Proof. destruct s; [reflexivity | discriminate]. Qed.

Lemma length_toUpperCase s : String.length (Str.toUpperCase s) = String.length s.
Proof.
  unfold Str.toUpperCase. induction s as [|c s IH]; [reflexivity|].
  cbn. now rewrite IH.
Qed.

(** A word and the end of the text match the texts that are the word
    in upper case, and consume them whole. *)
Lemma run_word w bol s :
  run true (Tail.word w) bol s
  = if String.eqb (Str.toUpperCase s) (Str.toUpperCase w)
    then [{| matched := s; rest := ""; caps := [] |}] else [].
Proof.
  revert bol s. induction w as [|x w IH]; intros bol s.
  - cbn [Tail.word run]. destruct s; reflexivity.
  - cbn [Tail.word run]. destruct s as [|c s]; [reflexivity|].
    rewrite single_class_i. cbn [Str.toUpperCase Str.map String.eqb].
    destruct (Ascii.eqb (Str.upper c) (Str.upper x)); [|reflexivity].
    cbn [flat_map rest matched]. rewrite IH, app_nil_r.
    fold (Str.toUpperCase s). fold (Str.toUpperCase w).
    destruct (String.eqb (Str.toUpperCase s) (Str.toUpperCase w)); reflexivity.
Qed.

Lemma exec_from_suffix w i name suffix :
  Str.toUpperCase suffix = Str.toUpperCase w ->
  exec_from {| tree := Tail.word w; ngroups := 0; icase := true |} i (name +:+ suffix)
  = Some {| index := i + String.length name; whole := suffix; submatches := [] |}.
Proof.
  intros Hs. revert i. induction name as [|x name IH]; intros i.
  - cbn [String.append String.length]. rewrite Nat.add_0_r.
    destruct suffix; cbn [exec_from tree icase ngroups];
      rewrite run_word, Hs, String.eqb_refl; reflexivity.
  - cbn [String.append exec_from tree icase ngroups]. rewrite run_word.
    destruct (String.eqb_spec (Str.toUpperCase (String x (name +:+ suffix)))
                (Str.toUpperCase w)) as [E|_].
    + exfalso. apply (f_equal String.length) in E.
      rewrite <- Hs, !length_toUpperCase in E.
      cbn [String.length] in E. rewrite StrFacts.length_app in E. lia.
    + rewrite IH. cbn [String.length]. now rewrite Nat.add_succ_r.
Qed.

Lemma exec_from_no_suffix w i s :
  (forall a b, s = a +:+ b -> Str.toUpperCase b <> Str.toUpperCase w) ->
  exec_from {| tree := Tail.word w; ngroups := 0; icase := true |} i s = None.
Proof.
  revert i. induction s as [|x s IH]; intros i H.
  - cbn [exec_from tree icase]. rewrite run_word.
    destruct (String.eqb_spec (Str.toUpperCase "") (Str.toUpperCase w)) as [E|_];
      [|reflexivity].
    exfalso. exact (H "" "" eq_refl E).
  - cbn [exec_from tree icase]. rewrite run_word.
    destruct (String.eqb_spec (Str.toUpperCase (String x s)) (Str.toUpperCase w))
      as [E|_].
    + exfalso. exact (H "" (String x s) eq_refl E).
    + apply IH. intros a b ->. apply (H (String x a) b). reflexivity.
Qed.

Lemma remove_suffix cls name suffix :
  Str.toUpperCase suffix = Str.toUpperCase (Tail.suffix cls) ->
  remove_first (Route.tailPattern cls) (name +:+ suffix) = name.
Proof.
  intros Hs. unfold remove_first, exec. rewrite tailPattern_tree.
  rewrite (exec_from_suffix _ 0 name suffix Hs). cbn [index whole Nat.add].
  rewrite PrefixFacts3.take_app_length.
  replace (String.length name + String.length suffix)
    with (String.length (name +:+ suffix)) by apply StrFacts.length_app.
  rewrite <- (StrFacts.app_nil_r (name +:+ suffix)) at 2.
  rewrite PrefixFacts3.drop_app_length. apply StrFacts.app_nil_r.
Qed.

Lemma keep_name cls name :
  (forall a b, name = a +:+ b ->
     Str.toUpperCase b <> Str.toUpperCase (Tail.suffix cls)) ->
  remove_first (Route.tailPattern cls) name = name.
Proof.
  intros H. unfold remove_first, exec. rewrite tailPattern_tree.
  now rewrite exec_from_no_suffix.
Qed.

End TailFacts.

(** X6.  The suffix of a component name: a name that ends with the
    suffix of the class ([Controller], or [Policy] for a policy route),
    in upper or lower case, selects the component as the name without
    the suffix does; only a suffix at the very end is dropped, and a
    name without the suffix is left as it is. *)
Theorem X6_component_suffix (cls : Route.variant) (name suffix : string) :
  Str.toUpperCase suffix = Str.toUpperCase (Tail.suffix cls) ->
  RegExp.remove_first (Route.tailPattern cls) (name +:+ suffix) = name
  /\ ((forall a b, name = a +:+ b ->
         Str.toUpperCase b <> Str.toUpperCase (Tail.suffix cls)) ->
      RegExp.remove_first (Route.tailPattern cls) name = name
      /\ (name <> "" ->
          forall kebabToPascal camelToPascal rt method,
            Route.parseTarget kebabToPascal camelToPascal cls
              (VObj [("module", VStr (name +:+ suffix)); ("method", method)]) (Some rt)
            = Route.parseTarget kebabToPascal camelToPascal cls
                (VObj [("module", VStr name); ("method", method)]) (Some rt))).
Proof.
  intros Hs. split; [now apply TailFacts.remove_suffix|].
  intros Hn. split; [now apply TailFacts.keep_name|].
  intros Hne k2p c2p rt method.
  destruct name as [|c name]; [congruence|].
  unfold Route.parseTarget, Route.selectTarget.
  cbn -[RegExp.remove_first Route.tailPattern].
  destruct (JS.truthy method); [|reflexivity].
  cbn -[RegExp.remove_first Route.tailPattern].
  change (String c (name +:+ suffix)) with (String c name +:+ suffix).
  rewrite TailFacts.remove_suffix by exact Hs.
  rewrite TailFacts.keep_name by exact Hn. reflexivity.
Qed.

Lemma X6_component_suffix_witness :
  RegExp.remove_first (Route.tailPattern Route.Terminal) ("User" +:+ "CONTROLLER")
  = "User"
  /\ RegExp.remove_first (Route.tailPattern Route.Policy) ("Session" +:+ "policy")
     = "Session".
Proof.
  split.
  - exact (proj1 (X6_component_suffix Route.Terminal "User" "CONTROLLER" eq_refl)).
  - exact (proj1 (X6_component_suffix Route.Policy "Session" "policy" eq_refl)).
Defined.

Module ExampleFacts2.

Lemma cardinality_single customValues o p :
  Route.minLengthOnly o = true \/ Route.maxLengthOnly o = true ->
  Route.cardinality (Route.count_parameter customValues o p) = 1%Z.
Proof.
  intros H. unfold Route.count_parameter, Route.cardinality. cbv zeta.
  destruct (Route.minLengthOnly o); [cbn [Route.c_max Route.c_min]; lia|].
  destruct H as [H|H]; [discriminate|]. rewrite H.
  cbn [Route.c_max Route.c_min]. lia.
Qed.

Lemma count_single customValues o ps :
  Route.minLengthOnly o = true \/ Route.maxLengthOnly o = true ->
  Route.count_examples (List.map (Route.count_parameter customValues o) ps) = 1%Z.
Proof.
  intros H. unfold Route.count_examples. rewrite ExampleFacts.count_from.
  induction ps as [|p ps IH]; [reflexivity|].
  cbn [List.map fold_right]. rewrite cardinality_single by exact H. lia.
Qed.

Lemma advance_custom overflow cs :
  Forall (fun c => Route.c_hasCustom c = true) cs ->
  Forall (fun c => Route.c_hasCustom c = true) (Route.advance overflow cs).
Proof.
  revert overflow. induction cs as [|c cs IH]; intros overflow H; [constructor|].
  apply List.Forall_cons_iff in H as [Hc H].
  cbn [Route.advance].
  destruct (Route.c_max c <? (if overflow then Route.c_next c + 1 else Route.c_next c))%Z;
    constructor; auto; apply IH; assumption.
Qed.

Lemma example_values_custom random random' cs values k :
  Forall (fun c => Route.c_hasCustom c = true) cs ->
  Route.example_values random cs values k = Route.example_values random' cs values k
  /\ snd (Route.example_values random cs values k) = k.
Proof.
  revert values k. induction cs as [|c cs IH]; intros values k H; [split; reflexivity|].
  apply List.Forall_cons_iff in H as [Hc H].
  cbn [Route.example_values]. rewrite Hc.
  destruct (Route.c_next c =? 0)%Z; apply IH; assumption.
Qed.

Lemma examples_loop_custom random random' render n cs k :
  Forall (fun c => Route.c_hasCustom c = true) cs ->
  Route.examples_loop random render n cs k = Route.examples_loop random' render n cs k.
Proof.
  revert cs k. induction n as [|n IH]; intros cs k H; [reflexivity|].
  cbn [Route.examples_loop].
  destruct (example_values_custom random random' cs [] k H) as [E Hk].
  rewrite <- E.
  destruct (Route.example_values random cs [] k) as [values k'].
  destruct (render (VObj values)); [|reflexivity]. cbn [mbind res_bind].
  rewrite (IH (Route.advance true cs) k' (advance_custom true cs H)). reflexivity.
Qed.

Lemma custom_rev cs : Forall (fun c => Route.c_hasCustom c = true) cs ->
  Forall (fun c => Route.c_hasCustom c = true) (rev cs).
Proof. intros H. apply List.Forall_rev. exact H. Qed.

End ExampleFacts2.

(** X7.  One example on request: with [minLengthOnly] or
    [maxLengthOnly] the list [generateExamples] returns has exactly one
    example, whatever the parameters of the route, the custom values and
    the other options are. *)
Theorem X7_single_example (random : nat -> nat) (route : Route.t)
    (customValues : list (string * value)) (o : Route.example_options)
    (examples : list string) :
  Route.minLengthOnly o = true \/ Route.maxLengthOnly o = true ->
  Route.generateExamples random route customValues o = Ok examples ->
  length examples = 1.
Proof.
  intros Hflag H. unfold Route.generateExamples in H.
  apply ExampleFacts.examples_loop_length in H. rewrite H.
  rewrite ExampleFacts2.count_single by exact Hflag. reflexivity.
Qed.

Lemma X7_single_example_witness :
  exists route,
    Examples.route Route.Terminal id id (VStr "/list/:ids*/:page?") (VFun 0) = Ok route
    /\ Route.generateExamples (fun _ => 0) route []
         {| Route.fixValue := VNull; Route.useNames := false;
            Route.minLengthOnly := false; Route.maxLengthOnly := true |}
       = Ok ["/list/a/a/a/a"]
    /\ length ["/list/a/a/a/a"] = 1.
Proof.
  assert (H : exists route,
             Examples.route Route.Terminal id id (VStr "/list/:ids*/:page?") (VFun 0)
             = Ok route
             /\ Route.generateExamples (fun _ => 0) route []
                  {| Route.fixValue := VNull; Route.useNames := false;
                     Route.minLengthOnly := false; Route.maxLengthOnly := true |}
                = Ok ["/list/a/a/a/a"]).
  { eexists. split; [lazy -[PathToRegexp.render_tokens]; reflexivity|].
    vm_compute. reflexivity. }
  destruct H as (route & Hroute & Hexamples).
  exists route. split; [exact Hroute|]. split; [exact Hexamples|].
  exact (X7_single_example (fun _ => 0) route []
           {| Route.fixValue := VNull; Route.useNames := false;
              Route.minLengthOnly := false; Route.maxLengthOnly := true |}
           _ (or_intror eq_refl) Hexamples).
Defined.

(** X8.  Examples without chance: with [useNames], with a [fixValue]
    that is not empty, and when every parameter of the route has a custom
    value, [generateExamples] never asks the random generator: two
    generators give the same result. *)
Theorem X8_examples_without_chance (random random' : nat -> nat) (route : Route.t)
    (customValues : list (string * value)) (o : Route.example_options) :
  Route.useNames o = true
  \/ JS.truthy (Route.fixValue o) = true
  \/ (forall p, In p (Route.parameters route) ->
        JS.hasOwnProperty (VObj customValues) (Key.to_string (Key.name p)) = true) ->
  Route.generateExamples random route customValues o
  = Route.generateExamples random' route customValues o.
Proof.
  intros H. unfold Route.generateExamples.
  apply ExampleFacts2.examples_loop_custom, ExampleFacts2.custom_rev.
  apply List.Forall_forall. intros c Hc.
  apply in_map_iff in Hc as (p & <- & Hp).
  unfold Route.count_parameter. cbv zeta.
  assert (E : Route.useNames o || JS.truthy (Route.fixValue o)
              || JS.hasOwnProperty (VObj customValues) (Key.to_string (Key.name p))
              = true).
  { destruct H as [H|[H|H]].
    - rewrite H. reflexivity.
    - rewrite H. apply orb_true_iff. left. apply orb_true_r.
    - rewrite (H p Hp). apply orb_true_r. }
  rewrite E.
  destruct (Route.minLengthOnly o); [reflexivity|].
  destruct (Route.maxLengthOnly o); reflexivity.
Qed.

Lemma X8_examples_without_chance_witness :
  exists route,
    Examples.route Route.Terminal id id (VStr "/user/:id/:tab?") (VFun 0) = Ok route
    /\ Route.generateExamples (fun k => k) route []
         {| Route.fixValue := VNull; Route.useNames := true;
            Route.minLengthOnly := false; Route.maxLengthOnly := false |}
       = Route.generateExamples (fun _ => 7) route []
           {| Route.fixValue := VNull; Route.useNames := true;
              Route.minLengthOnly := false; Route.maxLengthOnly := false |}.
Proof.
  assert (H : exists route,
             Examples.route Route.Terminal id id (VStr "/user/:id/:tab?") (VFun 0)
             = Ok route).
  { eexists. lazy -[PathToRegexp.render_tokens]. reflexivity. }
  destruct H as (route & Hroute).
  exists route. split; [exact Hroute|].
  apply X8_examples_without_chance. left. reflexivity.
Defined.

Module CoverFacts2.

Lemma existsb_permutation {A : Type} (f : A -> bool) (l l' : list A) :
  Permutation l l' -> existsb f l = existsb f l'.
Proof.
  intros H. apply eq_true_iff_eq. rewrite !List.existsb_exists.
  split; intros (x & Hx & Hf); exists x; split; auto.
  - eapply Permutation_in; eauto.
  - eapply Permutation_in; [symmetry|]; eauto.
Qed.

(** What the analysis returns, entry by entry. *)
Lemma select_lookup (Parser : parser_t) route items covered :
  Route.selectProbablyCoveredPrefixes Parser route (VArr items) = Ok covered ->
  existsb Route.invalid_option items = false
  /\ exists myPattern,
       Route.coveringPattern Parser route = Ok myPattern
       /\ forall c,
            covered !! c
            = match RegExp.exec myPattern c with
              | Some m =>
                  if existsb (Shape.is_candidate c) items
                     && negb (String.eqb c "__proto__")
                  then Some (Shape.indicator m c) else None
              | None => None
              end.
Proof.
  unfold Route.selectProbablyCoveredPrefixes.
  destruct (existsb Route.invalid_option items) eqn:Hv; [discriminate|].
  intros H. apply bind_ok in H as (myPattern & Hp & H). injection H as <-.
  split; [reflexivity|]. exists myPattern. split; [exact Hp|].
  intros c. rewrite (CoverFacts.fold_cover myPattern items ∅ c
                       (CoverFacts.valid_options items Hv)).
  rewrite lookup_empty. destruct (RegExp.exec myPattern c); [|reflexivity].
  destruct (_ && _); reflexivity.
Qed.

Lemma select_of_lookup (Parser : parser_t) route items myPattern
    (covered : gmap string nat) :
  existsb Route.invalid_option items = false ->
  Route.coveringPattern Parser route = Ok myPattern ->
  (forall c,
     covered !! c
     = match RegExp.exec myPattern c with
       | Some m =>
           if existsb (Shape.is_candidate c) items
              && negb (String.eqb c "__proto__")
           then Some (Shape.indicator m c) else None
       | None => None
       end) ->
  Route.selectProbablyCoveredPrefixes Parser route (VArr items) = Ok covered.
Proof.
  intros Hv Hp Hl. unfold Route.selectProbablyCoveredPrefixes.
  rewrite Hv, Hp. cbn [mbind res_bind]. f_equal. apply map_eq. intros c.
  rewrite Hl, (CoverFacts.fold_cover myPattern items ∅ c
                 (CoverFacts.valid_options items Hv)).
  rewrite lookup_empty. destruct (RegExp.exec myPattern c); [|reflexivity].
  destruct (_ && _); reflexivity.
Qed.

End CoverFacts2.

(** X9.  The analysis of covered prefixes candidate by candidate: the
    result for two lists of candidates put together, in any order, is
    the union of the results for each list; every entry of a result
    belongs to a candidate of the list and is one of the two indicators
    [MATCH_PARTIAL] and [MATCH_FULL]. *)
Theorem X9_covering_composes (Parser : parser_t) (route : Route.t)
    (a b : list value) (ca cb : gmap string nat) :
  Route.selectProbablyCoveredPrefixes Parser route (VArr a) = Ok ca ->
  Route.selectProbablyCoveredPrefixes Parser route (VArr b) = Ok cb ->
  Route.selectProbablyCoveredPrefixes Parser route (VArr (a ++ b)) = Ok (ca ∪ cb)
  /\ (forall items,
        Permutation items (a ++ b) ->
        Route.selectProbablyCoveredPrefixes Parser route (VArr items) = Ok (ca ∪ cb))
  /\ (forall c n,
        ca !! c = Some n ->
        In (VStr c) a /\ (n = Route.MATCH_PARTIAL \/ n = Route.MATCH_FULL)).
Proof.
  intros Ha Hb.
  apply CoverFacts2.select_lookup in Ha as (Hva & pa & Hpa & Hla).
  apply CoverFacts2.select_lookup in Hb as (Hvb & pb & Hpb & Hlb).
  assert (pb = pa) as -> by congruence.
  assert (Hperm : forall items,
            Permutation items (a ++ b) ->
            Route.selectProbablyCoveredPrefixes Parser route (VArr items)
            = Ok (ca ∪ cb)).
  { intros items Hperm.
    apply (CoverFacts2.select_of_lookup Parser route items pa); [|exact Hpa|].
    - rewrite (CoverFacts2.existsb_permutation _ _ _ Hperm), existsb_app, Hva, Hvb.
      reflexivity.
    - intros c. rewrite lookup_union, Hla, Hlb.
      rewrite (CoverFacts2.existsb_permutation _ _ _ Hperm), existsb_app.
      destruct (RegExp.exec pa c) as [m|]; [|reflexivity].
      destruct (existsb (Shape.is_candidate c) a),
        (existsb (Shape.is_candidate c) b),
        (String.eqb c "__proto__"); reflexivity. }
  split; [apply Hperm; reflexivity|]. split; [exact Hperm|].
  intros c n Hc. rewrite Hla in Hc.
  destruct (RegExp.exec pa c) as [m|]; [|discriminate].
  destruct (existsb (Shape.is_candidate c) a) eqn:E; [|discriminate].
  destruct (negb (String.eqb c "__proto__")); [|discriminate].
  injection Hc as <-. split.
  - apply CoverFacts.is_candidate_In. exact E.
  - unfold Shape.indicator. destruct (String.eqb _ _); auto.
Qed.

Lemma X9_covering_composes_witness :
  exists r,
    Examples.route Route.Terminal id id (VStr "/test") (VFun 0) = Ok r
    /\ Route.selectProbablyCoveredPrefixes PathToRegexp.pathToRegexp r
         (VArr ([VStr "/test/name"; VStr "/other"] ++ [VStr "/test"]))
       = Ok ({[ "/test/name" := Route.MATCH_PARTIAL ]}
             ∪ {[ "/test" := Route.MATCH_FULL ]}).
Proof.
  assert (H : exists r,
             Examples.route Route.Terminal id id (VStr "/test") (VFun 0) = Ok r
             /\ Route.selectProbablyCoveredPrefixes PathToRegexp.pathToRegexp r
                  (VArr [VStr "/test/name"; VStr "/other"])
                = Ok {[ "/test/name" := Route.MATCH_PARTIAL ]}
             /\ Route.selectProbablyCoveredPrefixes PathToRegexp.pathToRegexp r
                  (VArr [VStr "/test"])
                = Ok {[ "/test" := Route.MATCH_FULL ]}).
  { eexists. split; [lazy -[PathToRegexp.render_tokens]; reflexivity|].
    split; vm_compute; reflexivity. }
  destruct H as (r & Hr & Ha & Hb).
  exists r. split; [exact Hr|].
  exact (proj1 (X9_covering_composes PathToRegexp.pathToRegexp r
                  [VStr "/test/name"; VStr "/other"] [VStr "/test"] _ _ Ha Hb)).
Defined.

Module NormalizeFacts2.
Import Normalize.

Lemma normalizeSet_is_map raw m :
  _normalizeSet raw = Ok m -> Tables.is_map m = true.
Proof.
  unfold _normalizeSet. destruct (negb (JS.truthy raw)); [intros [= <-]; reflexivity|].
  destruct raw; try discriminate.
  - intros H. apply bind_ok in H as (mapping & _ & [= <-]). reflexivity.
  - intros H. apply bind_ok in H as (mapping & _ & [= <-]). reflexivity.
  - intros [= <-]. reflexivity.
Qed.

Lemma normalizeSet_of_map m :
  Tables.is_map m = true -> _normalizeSet m = Ok m.
Proof. destruct m; try discriminate. reflexivity. Qed.

Lemma stage_is_map raw name m : stage raw name = Ok m -> Tables.is_map m = true.
Proof.
  unfold stage. destruct (JS.hasOwnProperty raw name); [apply normalizeSet_is_map|].
  intros [= <-]. reflexivity.
Qed.

Lemma implicit_shape sa sl raw t :
  implicit sa sl raw = Ok t ->
  forallb Tables.is_map (Tables.sets t) = true
  /\ match t with
     | Staged4 _ _ _ _ => sa = true /\ sl = true
     | Staged2 _ _ => sa = true /\ sl = false
     | Flat _ => sa = false
     end.
Proof.
  unfold implicit. destruct sa, sl; intros H;
    apply bind_ok in H as (m & Hm & [= <-]);
    apply normalizeSet_is_map in Hm; cbn; rewrite Hm; auto.
Qed.

(** The shape of a normalised definition follows the normaliser, and
    its sets are maps. *)
Lemma definition_shape sa sl raw t :
  _normalizeDefinition sa sl raw = Ok t ->
  forallb Tables.is_map (Tables.sets t) = true
  /\ match t with
     | Staged4 _ _ _ _ => sa = true /\ sl = true
     | Staged2 _ _ => sa = true /\ sl = false
     | Flat _ => sa = false
     end.
Proof.
  unfold _normalizeDefinition.
  destruct (JS.typeof raw); try discriminate; [apply implicit_shape|].
  destruct (JS.truthy raw && negb (JS.isArray raw)); [|apply implicit_shape].
  cbv zeta.
  destruct (sa && foundExplicit _ && negb (explicit _)); [discriminate|].
  destruct (negb (explicit _)) eqn:Ex; [apply implicit_shape|].
  destruct (unexpectedStages _); [discriminate|].
  destruct sa.
  - destruct sl; intros H.
    + apply bind_ok in H as (e & He & H). apply bind_ok in H as (b & Hb & H).
      apply bind_ok in H as (a & Ha & H). apply bind_ok in H as (l & Hl & [= <-]).
      apply stage_is_map in He, Hb, Ha, Hl. cbn. rewrite He, Hb, Ha, Hl. auto.
    + apply bind_ok in H as (b & Hb & H). apply bind_ok in H as (a & Ha & [= <-]).
      apply stage_is_map in Hb, Ha. cbn. rewrite Hb, Ha. auto.
  - discriminate.
Qed.

End NormalizeFacts2.

(** X10.  Normalising twice: the value a normaliser returns is taken by
    the same normaliser as it is; this holds for the three normalisers
    of the module and for a single set of routes, whose result is always
    a map. *)
Theorem X10_normalised_is_fixed (supportAnyStage supportAllStages : bool)
    (rawDefinition : value) (t : Normalize.tables) :
  Normalize._normalizeDefinition supportAnyStage supportAllStages rawDefinition = Ok t ->
  Normalize._normalizeDefinition supportAnyStage supportAllStages (Tables.to_value t)
  = Ok t
  /\ forallb Tables.is_map (Tables.sets t) = true
  /\ (forall set, In set (Tables.sets t) -> Normalize._normalizeSet set = Ok set).
Proof.
  intros H. apply NormalizeFacts2.definition_shape in H as [Hmaps Hshape].
  split; [|split; [exact Hmaps|]].
  - destruct t as [e b a l|b a|m]; cbn [Tables.sets forallb] in Hmaps.
    + destruct Hshape as [-> ->].
      apply andb_true_iff in Hmaps as [He Hmaps].
      apply andb_true_iff in Hmaps as [Hb Hmaps].
      apply andb_true_iff in Hmaps as [Ha Hmaps].
      apply andb_true_iff in Hmaps as [Hl _].
      destruct e, b, a, l; try discriminate. reflexivity.
    + destruct Hshape as [-> ->].
      apply andb_true_iff in Hmaps as [Hb Hmaps].
      apply andb_true_iff in Hmaps as [Ha _].
      destruct b, a; try discriminate. reflexivity.
    + subst supportAnyStage.
      apply andb_true_iff in Hmaps as [Hm _].
      destruct m; try discriminate. destruct supportAllStages; reflexivity.
  - intros set Hin. apply NormalizeFacts2.normalizeSet_of_map.
    rewrite forallb_forall in Hmaps. auto.
Qed.

Lemma X10_normalised_is_fixed_witness :
  exists t,
    Normalize.Custom
      (VObj [("early", VObj [("get /a", VStr "A::x")]);
             ("after", VArr [VArr [VStr "/b"; VFun 1]])]) = Ok t
    /\ Normalize.Custom (Tables.to_value t) = Ok t.
Proof.
  eexists. split; [vm_compute; reflexivity|].
  refine (proj1 (X10_normalised_is_fixed true true
            (VObj [("early", VObj [("get /a", VStr "A::x")]);
                   ("after", VArr [VArr [VStr "/b"; VFun 1]])]) _ _)).
  vm_compute. reflexivity.
Defined.

Module PairFacts.
Import Normalize.

Lemma map_get_missing (key : string) (pairs : list (string * value)) :
  ~ In key (List.map fst pairs) ->
  JS.map_get (VStr key) (List.map (fun p => (VStr (fst p), snd p)) pairs) = None.
Proof.
  induction pairs as [|[k t] pairs IH]; intros H; [reflexivity|].
  cbn in *. destruct (String.eqb_spec k key) as [->|_]; [tauto|].
  apply IH. tauto.
Qed.

Lemma map_set_missing (key : string) (t : value) (pairs : list (string * value)) :
  ~ In key (List.map fst pairs) ->
  JS.map_set (VStr key) t (List.map (fun p => (VStr (fst p), snd p)) pairs)
  = List.map (fun p => (VStr (fst p), snd p)) (pairs ++ [(key, t)]).
Proof.
  induction pairs as [|[k t'] pairs IH]; intros H; [reflexivity|].
  cbn in *. destruct (String.eqb_spec k key) as [->|_]; [tauto|].
  rewrite IH by tauto. reflexivity.
Qed.

Lemma add_pairs (done pairs : list (string * value)) :
  List.NoDup (List.map fst (done ++ pairs)) ->
  add_routes (List.map (fun p => (VStr (fst p), snd p)) done)
    (List.map (fun p => VArr [VStr (fst p); snd p]) pairs)
  = Ok (List.map (fun p => (VStr (fst p), snd p)) (done ++ pairs)).
Proof.
  revert done. induction pairs as [|[k t] pairs IH]; intros done H.
  - now rewrite app_nil_r.
  - cbn [List.map add_routes add_route fst snd mbind res_bind].
    assert (Hk : ~ In k (List.map fst done)).
    { rewrite map_app in H. cbn in H. apply NoDup_remove_2 in H.
      intros Hin. apply H. apply in_or_app. now left. }
    rewrite map_get_missing by exact Hk. rewrite map_set_missing by exact Hk.
    cbn [mbind res_bind].
    rewrite (IH (done ++ [(k, t)])) by now rewrite <- app_assoc.
    now rewrite <- app_assoc.
Qed.

Lemma map_get_array items mapping : JS.map_get (VArr items) mapping = None.
Proof.
  induction mapping as [|[k v] mapping IH]; [reflexivity|].
  cbn [JS.map_get]. destruct k; exact IH.
Qed.

(** A pair that is no pair stops the loop. *)
Lemma add_routes_bad_pair mapping routes :
  Forall (fun route => JS.isArray route = true) routes ->
  Exists (fun route => forall source target, route <> VArr [source; target]) routes ->
  add_routes mapping routes = Throw InvalidArrayRoute.
Proof.
  revert mapping. induction routes as [|route routes IH]; intros mapping Hall Hex.
  - inversion Hex.
  - apply List.Forall_cons_iff in Hall as [Ha Hall].
    destruct route as [| | | | | |items| |]; try discriminate.
    cbn [add_routes]. unfold add_route.
    destruct items as [|s [|t [|x items]]]; try reflexivity.
    cbn [mbind res_bind].
    apply List.Exists_cons in Hex as [Hbad|Hex]; [exfalso; eapply Hbad; reflexivity|].
    destruct (JS.map_get s mapping) as [existing|] eqn:Eg.
    + destruct (JS.isArray s) eqn:Es.
      * destruct s; try discriminate. rewrite map_get_array in Eg. discriminate.
      * cbn [mbind res_bind]. apply IH; assumption.
    + cbn [mbind res_bind]. apply IH; assumption.
Qed.

End PairFacts.

(** X11.  Pairs of a source and a target: an array of pairs whose
    sources are strings that differ from each other becomes the map of
    these sources, as they are given, to their targets, in the order of
    the array; no source is read as a route and no target is looked
    at. *)
Theorem X11_pairs_become_entries (pairs : list (string * value)) :
  List.NoDup (List.map fst pairs) ->
  Normalize._normalizeSet (VArr (List.map (fun p => VArr [VStr (fst p); snd p]) pairs))
  = Ok (VMap (List.map (fun p => (VStr (fst p), snd p)) pairs))
  /\ (forall key target,
        In (key, target) pairs ->
        JS.map_get (VStr key) (List.map (fun p => (VStr (fst p), snd p)) pairs)
        = Some target).
Proof.
  intros H. split.
  - unfold Normalize._normalizeSet. cbn [JS.truthy negb].
    pose proof (PairFacts.add_pairs [] pairs H) as E.
    cbn [List.map app] in E. rewrite E. reflexivity.
  - induction pairs as [|[k t] pairs IH]; intros key target Hin; [destruct Hin|].
    cbn [List.map fst snd JS.map_get JS.sameValueZero].
    cbn [List.map fst] in H. apply NoDup_cons_iff in H as [Hk H].
    destruct Hin as [[= -> ->]|Hin].
    + now rewrite String.eqb_refl.
    + destruct (String.eqb_spec k key) as [->|_]; [|now apply IH].
      exfalso. apply Hk. apply in_map_iff. exists (key, target). auto.
Qed.

Lemma X11_pairs_become_entries_witness :
  Normalize._normalizeSet
    (VArr (List.map (fun p => VArr [VStr (fst p); snd p])
             [("get /a", VStr "A::x"); ("GET /a", VFun 1)]))
  = Ok (VMap [(VStr "get /a", VStr "A::x"); (VStr "GET /a", VFun 1)]).
Proof.
  refine (proj1 (X11_pairs_become_entries
                   [("get /a", VStr "A::x"); ("GET /a", VFun 1)] _)).
  repeat constructor; cbn; intuition discriminate.
Defined.

(** X12.  What a set of routes must be: [undefined], [null], [false],
    [0] and the empty string give the empty map; a number, [true], a
    string and a function that are not of these are refused as a list of
    routes; an array of arrays one of which has not two elements is
    refused. *)
Theorem X12_sets_refused (routes : list value) :
  Forall (fun route => JS.isArray route = true) routes ->
  Exists (fun route => forall source target, route <> VArr [source; target]) routes ->
  Normalize._normalizeSet (VArr routes) = Throw InvalidArrayRoute
  /\ (forall raw, JS.truthy raw = false ->
        Normalize._normalizeSet raw = Ok Normalize.emptyMap)
  /\ (forall raw, JS.truthy raw = true ->
        JS.typeof raw <> JS.TObject ->
        Normalize._normalizeSet raw = Throw InvalidRawList).
Proof.
  intros Hall Hex. split; [|split].
  - unfold Normalize._normalizeSet. cbn [JS.truthy negb].
    now rewrite (PairFacts.add_routes_bad_pair [] routes Hall Hex).
  - intros raw H. unfold Normalize._normalizeSet. now rewrite H.
  - intros raw H Ht. unfold Normalize._normalizeSet. rewrite H. cbn [negb].
    destruct raw; cbn in *; congruence.
Qed.

Lemma X12_sets_refused_witness :
  Normalize._normalizeSet
    (VArr [VArr [VStr "/a"; VFun 1]; VArr [VStr "/b"; VFun 2; VFun 3]])
  = Throw InvalidArrayRoute.
Proof.
  refine (proj1 (X12_sets_refused
                   [VArr [VStr "/a"; VFun 1]; VArr [VStr "/b"; VFun 2; VFun 3]] _ _)).
  - repeat constructor.
  - right. left. intros source target. discriminate.
Defined.

Module StageFacts.
Import Normalize.

(** The loop over names none of which is the name of a stage: it only
    learns that the definition is not explicit. *)
Lemma scan_no_stage sl names toCheck st :
  forallb (fun n => negb (Spec.is_stage_name n)) (firstn toCheck names) = true ->
  scan_names sl names toCheck st
  = {| explicit := explicit st && match firstn toCheck names with
                                  | [] => true
                                  | _ => false
                                  end;
       foundExplicit := foundExplicit st;
       unexpectedStages := unexpectedStages st |}.
Proof.
  revert toCheck st. induction names as [|n names IH]; intros toCheck st H.
  - destruct toCheck, st as [[] ? ?]; reflexivity.
  - destruct toCheck as [|toCheck]; [destruct st as [[] ? ?]; reflexivity|].
    cbn [firstn forallb] in H. apply andb_true_iff in H as [Hn H].
    cbn [scan_names firstn]. rewrite IH by exact H.
    unfold scan_name, Spec.is_stage_name in *. cbn [existsb] in Hn.
    destruct (String.eqb n "early"), (String.eqb n "late"),
             (String.eqb n "before"), (String.eqb n "after");
      try discriminate.
    cbn. now rewrite andb_false_r.
Qed.

Lemma scan_supported sl names toCheck st :
  (sl = false ->
   forallb (fun n => negb (String.eqb n "early" || String.eqb n "late"))
     (firstn toCheck names) = true) ->
  unexpectedStages (scan_names sl names toCheck st) = unexpectedStages st.
Proof.
  revert toCheck st. induction names as [|n names IH]; intros toCheck st H.
  - destruct toCheck; reflexivity.
  - destruct toCheck as [|toCheck]; [reflexivity|].
    cbn [scan_names]. rewrite IH.
    + unfold scan_name. destruct sl.
      * destruct (String.eqb n "early" || String.eqb n "late"),
          (String.eqb n "before" || String.eqb n "after"); reflexivity.
      * specialize (H eq_refl). cbn [firstn forallb] in H.
        apply andb_true_iff in H as [Hn _]. apply negb_true_iff in Hn. rewrite Hn.
        destruct (String.eqb n "before" || String.eqb n "after"); reflexivity.
    + intros ->. specialize (H eq_refl). cbn [firstn forallb] in H.
      now apply andb_true_iff in H as [_ H].
Qed.

End StageFacts.

(** X13.  What a definition must be: a normaliser refuses every value
    that is neither an object nor [undefined], a number, a string, a
    boolean and a function, with the error of an invalid definition;
    [undefined] and [null] give the empty tables of the normaliser; and
    a normaliser with stages finds no stage in a map and gives empty
    tables for it, where the normaliser without stages returns the
    map. *)
Theorem X13_kinds_of_definitions (supportAnyStage supportAllStages : bool) :
  (forall raw,
     JS.typeof raw <> JS.TObject -> JS.typeof raw <> JS.TUndefined ->
     Normalize._normalizeDefinition supportAnyStage supportAllStages raw
     = Throw InvalidRouteDefinition)
  /\ (forall raw,
        raw = VUndefined \/ raw = VNull ->
        Normalize.Plugin raw = Ok (Normalize.Staged2 Normalize.emptyMap Normalize.emptyMap)
        /\ Normalize.Custom raw
           = Ok (Normalize.Staged4 Normalize.emptyMap Normalize.emptyMap
                   Normalize.emptyMap Normalize.emptyMap)
        /\ Normalize.Blueprint raw = Ok (Normalize.Flat Normalize.emptyMap))
  /\ (forall entries,
        Normalize.Plugin (VMap entries)
        = Ok (Normalize.Staged2 Normalize.emptyMap Normalize.emptyMap)
        /\ Normalize.Custom (VMap entries)
           = Ok (Normalize.Staged4 Normalize.emptyMap Normalize.emptyMap
                   Normalize.emptyMap Normalize.emptyMap)
        /\ Normalize.Blueprint (VMap entries) = Ok (Normalize.Flat (VMap entries))).
Proof.
  split; [|split].
  - intros raw H1 H2. unfold Normalize._normalizeDefinition.
    destruct (JS.typeof raw); congruence.
  - intros raw [->| ->]; repeat split; reflexivity.
  - intros entries. repeat split; reflexivity.
Qed.

(** X14.  Routes without stages: an array of routes, and an object none
    of whose first five names is the name of a stage, is one set of
    routes; a normaliser with stages puts the whole set into the stage
    [before] and leaves the other stages empty, and fails when the set
    fails.  The normaliser without stages takes every object as one set,
    names of stages included. *)
Theorem X14_routes_without_stages (supportAllStages : bool) (raw : value) :
  (exists items, raw = VArr items)
  \/ (exists props,
        raw = VObj props
        /\ forallb (fun n => negb (Spec.is_stage_name n))
             (firstn 5 (List.map fst props)) = true) ->
  Normalize._normalizeDefinition true supportAllStages raw
  = (before ← Normalize._normalizeSet raw;
     Ok (if supportAllStages
         then Normalize.Staged4 Normalize.emptyMap before
                Normalize.emptyMap Normalize.emptyMap
         else Normalize.Staged2 before Normalize.emptyMap))
  /\ Normalize._normalizeDefinition false supportAllStages raw
     = (set ← Normalize._normalizeSet raw; Ok (Normalize.Flat set)).
Proof.
  intros [[items ->]|(props & -> & Hnames)].
  - split; [destruct supportAllStages|]; reflexivity.
  - split.
    + unfold Normalize._normalizeDefinition.
      cbn [JS.typeof JS.truthy JS.isArray negb andb Normalize.own_names].
      rewrite (StageFacts.scan_no_stage _ _ _ _ Hnames).
      cbn [Normalize.explicit Normalize.foundExplicit Normalize.unexpectedStages andb].
      destruct props as [|[n v] props].
      * destruct supportAllStages; reflexivity.
      * cbn [List.map firstn negb]. unfold Normalize.implicit.
        cbn [JS.or JS.truthy]. destruct supportAllStages; reflexivity.
    + reflexivity.
Qed.

Lemma X14_routes_without_stages_witness :
  Normalize.Plugin (VObj [("GET /a", VStr "A::x"); ("post /a", VFun 1)])
  = Ok (Normalize.Staged2
          (VMap [(VStr "GET /a", VStr "A::x"); (VStr "POST /a", VFun 1)])
          Normalize.emptyMap).
Proof.
  unfold Normalize.Plugin.
  rewrite (proj1 (X14_routes_without_stages false
                    (VObj [("GET /a", VStr "A::x"); ("post /a", VFun 1)])
                    (or_intror (ex_intro _ _ (conj eq_refl eq_refl))))).
  vm_compute. reflexivity.
Defined.

(** X15.  A definition by stages: an object whose own names are names
    of stages the normaliser supports is normalised stage by stage; a
    stage the object does not name is empty, and the definition fails
    when one of its stages fails. *)
Theorem X15_stage_by_stage (supportAllStages : bool) (props : list (string * value)) :
  List.NoDup (List.map fst props) ->
  forallb Spec.is_stage_name (List.map fst props) = true ->
  (supportAllStages = false ->
   forallb (fun n => negb (String.eqb n "early" || String.eqb n "late"))
     (List.map fst props) = true) ->
  Normalize._normalizeDefinition true supportAllStages (VObj props)
  = if supportAllStages then
      early ← Normalize.stage (VObj props) "early";
      before ← Normalize.stage (VObj props) "before";
      after ← Normalize.stage (VObj props) "after";
      late ← Normalize.stage (VObj props) "late";
      Ok (Normalize.Staged4 early before after late)
    else
      before ← Normalize.stage (VObj props) "before";
      after ← Normalize.stage (VObj props) "after";
      Ok (Normalize.Staged2 before after).
Proof.
  intros Hnd Hall Hsupported.
  assert (Hfew : firstn 5 (List.map fst props) = List.map fst props).
  { apply firstn_all2. pose proof (NormalizeFacts.stage_names_few _ Hnd Hall). lia. }
  unfold Normalize._normalizeDefinition.
  cbn [JS.typeof JS.truthy JS.isArray negb andb Normalize.own_names].
  set (st := Normalize.scan_names _ _ _ _).
  assert (He : Normalize.explicit st = true).
  { unfold st. rewrite NormalizeFacts.scan_names_explicit; [reflexivity|].
    now rewrite Hfew. }
  assert (Hu : Normalize.unexpectedStages st = false).
  { unfold st. rewrite StageFacts.scan_supported; [reflexivity|].
    intros E. rewrite Hfew. auto. }
  rewrite He, Hu, andb_false_r. cbn [negb]. reflexivity.
Qed.

Lemma X15_stage_by_stage_witness :
  Normalize.Plugin
    (VObj [("after", VObj [("/b", VFun 2)]); ("before", VObj [("get /a", VFun 1)])])
  = Ok (Normalize.Staged2 (VMap [(VStr "GET /a", VFun 1)])
          (VMap [(VStr "ALL /b", VFun 2)])).
Proof.
  unfold Normalize.Plugin.
  rewrite (X15_stage_by_stage false
             [("after", VObj [("/b", VFun 2)]); ("before", VObj [("get /a", VFun 1)])]).
  - vm_compute. reflexivity.
  - repeat constructor; cbn; intuition discriminate.
  - reflexivity.
  - reflexivity.
Defined.

Module PrefixFacts4.

Lemma accepted_url definition p :
  Route.preparseSource definition = Ok p ->
  RegExp.test Route.invalidPathPattern (Route.url p) = false.
Proof.
  unfold Route.preparseSource. intros H.
  apply bind_ok in H as ([type url] & _ & H).
  destruct type as [| | | |t| | | |]; try discriminate.
  destruct url as [| | | |u| | | |]; try discriminate.
  cbn [mbind res_bind] in H.
  destruct (RegExp.test Route.invalidPathPattern _) eqn:E; [discriminate|].
  injection H as <-. exact E.
Qed.

(** The text without its final slash, and the slash or nothing. *)
Lemma stripFinalSlash_split r :
  (r = Spec.stripFinalSlash r +:+ "/")
  \/ (r = Spec.stripFinalSlash r /\ forall t, r <> t +:+ "/").
Proof.
  induction r as [|c r IH].
  - right. split; [reflexivity|]. intros [|x t]; discriminate.
  - cbn [Spec.stripFinalSlash].
    destruct (Ascii.eqb c "/" && Str.is_empty r) eqn:Ec.
    + apply andb_true_iff in Ec as [Ec Er]. apply Ascii.eqb_eq in Ec as ->.
      destruct r; [|discriminate]. now left.
    + destruct IH as [IH|[IH Hno]].
      * left. cbn [String.append]. now rewrite <- IH.
      * right. rewrite <- IH. split; [reflexivity|].
        intros [|x t] E; cbn [String.append] in E.
        -- injection E as -> ->. discriminate.
        -- injection E as _ E. exact (Hno t E).
Qed.

Lemma all_app p a b : Str.all p (a +:+ b) = Str.all p a && Str.all p b.
Proof.
  induction a as [|c a IH]; [reflexivity|].
  cbn [String.append Str.all]. now rewrite IH, andb_assoc.
Qed.

Lemma unsnoc_app s i l : Spec.unsnoc s = Some (i, l) -> s = i +:+ String l "".
Proof.
  revert i l. induction s as [|c s IH]; intros i l H; [discriminate|].
  cbn [Spec.unsnoc] in H. destruct (Spec.unsnoc s) as [[i' l']|] eqn:Eu.
  - injection H as <- <-. cbn [String.append]. f_equal. now apply IH.
  - injection H as <- <-. destruct s as [|d s]; [reflexivity|].
    cbn [Spec.unsnoc] in Eu. destruct (Spec.unsnoc s) as [[? ?]|]; discriminate.
Qed.

(** The prefix comes from a head of the path made of literal
    characters. *)
Lemma amended_prefix_head url prefix :
  Spec.amended_prefix url = Ok prefix ->
  exists r rest,
    url = r +:+ rest /\ Str.all Spec.is_literal r = true /\ prefix = Spec.finish r.
Proof.
  unfold Spec.amended_prefix.
  pose proof (StrFacts.span_app Spec.is_literal url) as Happ.
  pose proof (StrFacts.span_all Spec.is_literal url) as Hall.
  destruct (Str.span Spec.is_literal url) as [run rest]. cbn [fst snd] in *.
  destruct (Spec.closes_prefix rest).
  - intros [= <-]. exists run, rest. auto.
  - destruct (Spec.unsnoc run) as [[run' x]|] eqn:Eu; [|discriminate].
    destruct (Str.is_line_terminator x); [discriminate|].
    intros [= <-]. apply unsnoc_app in Eu. subst run.
    exists run', (String x "" +:+ rest). rewrite <- StrFacts.app_assoc.
    rewrite all_app in Hall. apply andb_true_iff in Hall as [Hall _]. auto.
Qed.

Lemma finish_facts r :
  Spec.finish r <> ""
  /\ (Str.all Spec.is_literal r = true -> Str.all Spec.is_literal (Spec.finish r) = true)
  /\ (forall rest c url, r +:+ rest = String c url -> c = "/"%char ->
        exists rest', String c url = Spec.finish r +:+ rest')
  /\ ((forall a b, r <> a +:+ "//" +:+ b) ->
      forall t, Spec.finish r = t +:+ "/" -> t = "").
Proof.
  unfold Spec.finish.
  destruct (stripFinalSlash_split r) as [E|[E Hno]];
    destruct (Spec.stripFinalSlash r) as [|d s] eqn:Es; cbn [Str.is_empty].
  - split; [discriminate|]. split; [reflexivity|]. split.
    + intros rest c url H ->. exists url. reflexivity.
    + intros _ [|x t] H; [reflexivity|]. injection H as _ H. destruct t; discriminate.
  - split; [discriminate|]. split; [|split].
    + intros H. rewrite E, all_app in H. now apply andb_true_iff in H as [H _].
    + intros rest c url H _. rewrite <- H. exists ("/" +:+ rest).
      transitivity ((String d s +:+ "/") +:+ rest); [f_equal; exact E|].
      apply StrFacts.app_assoc.
    + intros Hd t Ht. exfalso. apply (Hd t ""). rewrite E, Ht.
      now rewrite StrFacts.app_assoc.
  - split; [discriminate|]. split; [reflexivity|]. split.
    + intros rest c url H ->. exists url. reflexivity.
    + intros _ [|x t] H; [reflexivity|]. injection H as _ H. destruct t; discriminate.
  - split; [discriminate|]. split; [|split].
    + intros H. now rewrite <- E.
    + intros rest c url H _. rewrite <- H. exists rest. f_equal. exact E.
    + intros _ t Ht. exfalso. apply (Hno t). now rewrite <- Ht.
Qed.

End PrefixFacts4.

(** X16.  The static prefix of a compiled source: it is never empty, it
    has none of the characters [* + ? ( : [ {], it is a head of the path
    (when the path is not empty), and it ends with a slash only when it
    is the slash alone. *)
Theorem X16_static_prefix_invariants (Parser : parser_t) (Compiler : compiler_t)
    (source : value) (isMatchingPrefix : bool) (c : Route.compiledSource) :
  Route.parseSource Parser Compiler source isMatchingPrefix = Ok c ->
  Route.cs_prefix c <> ""
  /\ Str.all Spec.is_literal (Route.cs_prefix c) = true
  /\ (Route.cs_definition c <> "" ->
      exists rest, Route.cs_definition c = Route.cs_prefix c +:+ rest)
  /\ (forall t, Route.cs_prefix c = t +:+ "/" -> t = "").
Proof.
  intros H.
  apply RouteFacts.parseSource_ok in H as (p & render & Hp & _ & Hprefix & _ & Hd & _).
  rewrite Hd. rewrite PrefixFacts3.extractPrefix_spec in Hprefix.
  apply PrefixFacts4.amended_prefix_head in Hprefix as (r & rest & Hurl & Hall & ->).
  pose proof (PrefixFacts4.accepted_url _ _ Hp) as Hok.
  destruct (PrefixFacts4.finish_facts r) as (Hne & Hlit & Hhead & Hslash).
  split; [exact Hne|]. split; [auto|]. split.
  - intros Hnonempty. destruct (Route.url p) as [|x url] eqn:Eu; [congruence|].
    apply (Hhead rest x url); [now rewrite <- Hurl|].
    destruct (Ascii.eqb_spec x "/") as [->|Hx]; [reflexivity|].
    apply Ascii.eqb_neq in Hx.
    rewrite (SearchFacts.invalid_start x url Hx) in Hok. discriminate.
  - apply Hslash. intros a b ->.
    rewrite Hurl, !StrFacts.app_assoc in Hok.
    rewrite (SearchFacts.invalid_double_slash a (b +:+ rest)) in Hok. discriminate.
Qed.

Lemma X16_static_prefix_invariants_witness :
  exists c,
    Route.parseSource PathToRegexp.pathToRegexp PathToRegexp.compile
      (VStr "GET /api/user/:id") false = Ok c
    /\ Route.cs_prefix c = "/api/user"
    /\ Str.all Spec.is_literal (Route.cs_prefix c) = true.
Proof.
  assert (H : exists c,
             Route.parseSource PathToRegexp.pathToRegexp PathToRegexp.compile
               (VStr "GET /api/user/:id") false = Ok c
             /\ Route.cs_prefix c = "/api/user").
  { eexists. split; [lazy -[PathToRegexp.render_tokens]; reflexivity | reflexivity]. }
  destruct H as (c & Hc & Hp).
  exists c. split; [exact Hc|]. split; [exact Hp|].
  exact (proj1 (proj2 (X16_static_prefix_invariants _ _ _ _ c Hc))).
Defined.

Module SelectorFacts.
Import RegExp Trees RegExpFacts PrefixFacts PrefixFacts2.

Lemma targetPattern_tree :
  Route.targetPattern = {| tree := Selector.targetTree; ngroups := 2; icase := false |}.
Proof. reflexivity. Qed.

Lemma name_class c :
  char_matches false true (set_of ".:#") c = Selector.is_name_char c.
Proof. PrefixFacts.by_cases c. Qed.

Lemma equals_class c : char_matches false false (set_of "=") c = Ascii.eqb c "=".
Proof. PrefixFacts.by_cases c. Qed.

Lemma greater_class c : char_matches false false (set_of ">") c = Ascii.eqb c ">".
Proof. PrefixFacts.by_cases c. Qed.

Lemma flat_map_nil {A B : Type} (f : A -> list B) (l : list A) :
  (forall y, In y l -> f y = []) -> flat_map f l = [].
Proof.
  induction l as [|x l IH]; intros H; [reflexivity|].
  cbn [flat_map]. rewrite (H x (or_introl eq_refl)), IH; [reflexivity|].
  intros y Hy. apply H. now right.
Qed.

Lemma has_arrow_app a b : Selector.has_arrow (a +:+ String "=" (String ">" b)) = true.
Proof.
  induction a as [|c a IH]; [reflexivity|].
  cbn [String.append Selector.has_arrow]. rewrite IH. apply orb_true_r.
Qed.

(** A text without an arrow has no lead. *)
Lemma no_lead bol s :
  Selector.has_arrow s = false -> run false Selector.leadTree bol s = [].
Proof.
  intros H. unfold Selector.leadTree. rewrite run_seq. apply flat_map_nil.
  intros y Hy. apply run_split in Hy.
  destruct (rest y) as [|c [|d r]] eqn:Er; cbn [run flat_map List.map app]; try reflexivity.
  - rewrite equals_class. destruct (Ascii.eqb c "="); reflexivity.
  - rewrite equals_class. destruct (Ascii.eqb_spec c "=") as [->|]; [|reflexivity].
    cbn [flat_map List.map app andb matched rest Str.is_empty].
    rewrite greater_class. destruct (Ascii.eqb_spec d ">") as [->|]; [|reflexivity].
    rewrite Hy, has_arrow_app in H. discriminate.
Qed.

Lemma optional_skipped ic r bol s :
  run ic r bol s = [] ->
  run ic (Quant 0 (Some 1) true r) bol s = [here s].
Proof.
  intros H. rewrite run_quant.
  destruct (0 + String.length s); cbn [repeat Nat.eqb]; [|rewrite H]; reflexivity.
Qed.

Lemma optional_first ic r bol c s y l :
  run ic r bol (String c s) = y :: l -> matched y <> "" ->
  exists l',
    run ic (Quant 0 (Some 1) true r) bol (String c s)
    = {| matched := matched y +:+ "";
         rest := rest y;
         caps := List.map (fun n => (n, @None string)) (groups_of r) ++ caps y ++ [] |}
      :: l'.
Proof.
  intros H Hy. rewrite run_quant.
  cbn [String.length Nat.add repeat Nat.eqb andb]. rewrite H.
  cbn [flat_map]. destruct (matched y) as [|d m] eqn:Em; [congruence|].
  cbn [Str.is_empty]. destruct (String.length s); cbn; eauto.
Qed.

Lemma greedy_first p m r :
  Str.all p m = true ->
  match r with EmptyString => True | String d _ => p d = false end ->
  exists l, greedy_chars p (m +:+ r) = {| matched := m; rest := r; caps := [] |} :: l.
Proof.
  intros Hm Hr. induction m as [|c m IH].
  - cbn [String.append]. destruct r as [|d r]; cbn [greedy_chars]; [eauto|].
    rewrite Hr. eauto.
  - cbn [Str.all] in Hm. apply andb_true_iff in Hm as [Hc Hm].
    destruct (IH Hm) as (l & E).
    cbn [String.append greedy_chars]. rewrite Hc, E. cbn. eauto.
Qed.

Lemma repeat_plus_step body resets fuel bol s :
  repeat body resets true (S fuel) 1 None bol s
  = flat_map (fun y =>
      List.map (fun z =>
        {| matched := matched y +:+ matched z;
           rest := rest z;
           caps := resets ++ caps y ++ caps z |})
        (repeat body resets true fuel 0 None (bol && Str.is_empty (matched y)) (rest y)))
      (body bol s).
Proof. reflexivity. Qed.

Lemma run_chars_cons ic neg cs bol c s :
  char_matches ic neg cs c = true ->
  run ic (Chars neg cs) bol (String c s)
  = [{| matched := String c ""; rest := s; caps := [] |}].
Proof. intros H. cbn [run]. rewrite H. reflexivity. Qed.

(** The longest run of characters of a class comes first. *)
Lemma plus_first ic neg cs m r bol :
  m <> "" ->
  Str.all (char_matches ic neg cs) m = true ->
  match r with
  | EmptyString => True
  | String d _ => char_matches ic neg cs d = false
  end ->
  exists l,
    run ic (Quant 1 None true (Chars neg cs)) bol (m +:+ r)
    = {| matched := m; rest := r; caps := [] |} :: l.
Proof.
  intros Hne Hm Hr. destruct m as [|c m]; [congruence|].
  cbn [Str.all] in Hm. apply andb_true_iff in Hm as [Hc Hm].
  rewrite run_quant. cbn [groups_of List.map String.append].
  change (1 + ?n) with (S n). rewrite repeat_plus_step.
  rewrite (run_chars_cons _ _ _ _ _ _ Hc). cbn [flat_map matched rest].
  rewrite app_nil_r, repeat_chars by (cbn [String.length]; lia).
  destruct (greedy_first _ m r Hm Hr) as (l & E). rewrite E. cbn. eauto.
Qed.

Lemma first_seq ic a b bol s y l z l' :
  run ic a bol s = y :: l ->
  run ic b (bol && Str.is_empty (matched y)) (rest y) = z :: l' ->
  exists l'', run ic (Seq a b) bol s = after y z :: l''.
Proof. intros Ha Hb. rewrite run_seq, Ha. cbn [flat_map]. rewrite Hb. cbn. eauto. Qed.

Lemma run_separator bol sep x :
  In sep Selector.separators ->
  run false Selector.separatorTree bol (sep +:+ x)
  = [{| matched := sep; rest := x; caps := [] |}].
Proof.
  intros [<-|[<-|[<-|[]]]]; destruct bol; vm_compute; reflexivity.
Qed.

Lemma separator_head sep x :
  In sep Selector.separators ->
  sep <> ""
  /\ match sep +:+ x with
     | EmptyString => True
     | String d _ => Selector.is_name_char d = false
     end.
Proof. intros [<-|[<-|[<-|[]]]]; split; try discriminate; reflexivity. Qed.

Lemma run_method bol x :
  x <> "" -> Str.all Selector.no_break x = true ->
  exists l,
    run false (Group 2 Selector.methodTree) bol x
    = {| matched := x; rest := ""; caps := [(2, Some x)] |} :: l.
Proof.
  intros Hx Hall. unfold Selector.methodTree.
  destruct (plus_first false true line_terminators x "" bol Hx) as (l & E).
  - rewrite (SourceFacts.all_ext _ Selector.no_break)
      by (intros c; apply dot_class).
    exact Hall.
  - exact I.
  - rewrite StrFacts.app_nil_r in E. rewrite run_group, E. cbn. eauto.
Qed.

Lemma run_module bol m r :
  m <> "" -> Str.all Selector.is_name_char m = true ->
  match r with
  | EmptyString => True
  | String d _ => Selector.is_name_char d = false
  end ->
  exists l,
    run false (Group 1 Selector.moduleTree) bol (m +:+ r)
    = {| matched := m; rest := r; caps := [(1, Some m)] |} :: l.
Proof.
  intros Hm Hall Hr. unfold Selector.moduleTree.
  destruct (plus_first false true (set_of ".:#") m r bol Hm) as (l & E).
  - rewrite (SourceFacts.all_ext _ Selector.is_name_char)
      by (intros c; apply name_class).
    exact Hall.
  - destruct r as [|d r]; [exact I|]. now rewrite name_class.
  - rewrite run_group, E. cbn. eauto.
Qed.

(** The method of a selector, when it is there. *)
Lemma run_tail_method bol sep x :
  In sep Selector.separators ->
  x <> "" -> Str.all Selector.no_break x = true ->
  exists l,
    run false
      (Seq (Quant 0 (Some 1) true (Seq Selector.separatorTree (Group 2 Selector.methodTree)))
           Eol) bol (sep +:+ x)
    = {| matched := sep +:+ x; rest := ""; caps := [(2, None); (2, Some x)] |} :: l.
Proof.
  intros Hsep Hx Hall.
  destruct (run_method (bol && Str.is_empty sep) x Hx Hall) as (l1 & E1).
  destruct (first_seq false Selector.separatorTree (Group 2 Selector.methodTree) bol (sep +:+ x)
              _ [] _ l1 (run_separator bol sep x Hsep) E1) as (l2 & E2).
  destruct (separator_head sep x Hsep) as [Hne _].
  destruct (sep +:+ x) as [|c s] eqn:Es; [destruct sep; [congruence|discriminate]|].
  edestruct (optional_first false (Seq Selector.separatorTree (Group 2 Selector.methodTree))
               bol c s _ l2 E2) as (l3 & E3).
  { unfold after. cbn [matched]. destruct sep; [congruence|discriminate]. }
  destruct (first_seq _ _ Eol _ _ _ _ (here "") [] E3 eq_refl) as (l4 & E4).
  rewrite E4. unfold after, here. cbn [matched rest caps app groups_of List.map].
  rewrite !StrFacts.app_nil_r, Es. eexists. reflexivity.
Qed.

(** The end of a selector without a method. *)
Lemma run_tail_plain bol :
  run false
    (Seq (Quant 0 (Some 1) true (Seq Selector.separatorTree (Group 2 Selector.methodTree)))
         Eol) bol ""
  = [here ""].
Proof. destruct bol; reflexivity. Qed.

Lemma run_target s m r y l :
  s = m +:+ r ->
  m <> "" -> Str.all Selector.is_name_char m = true ->
  match r with
  | EmptyString => True
  | String d _ => Selector.is_name_char d = false
  end ->
  Selector.has_arrow s = false ->
  run false
    (Seq (Quant 0 (Some 1) true (Seq Selector.separatorTree (Group 2 Selector.methodTree)))
         Eol) (true && Str.is_empty "" && Str.is_empty m) r = y :: l ->
  exists r',
    exec Route.targetPattern s = Some r'
    /\ sub r' 1 = capture 1 ((1, Some m) :: caps y)
    /\ sub r' 2 = capture 2 ((1, Some m) :: caps y).
Proof.
  intros -> Hm Hall Hr Harrow Htail.
  destruct (run_module (true && Str.is_empty "") m r Hm Hall Hr) as (l1 & E1).
  eapply first_seq in E1 as (l2 & E2); [|exact Htail].
  assert (E0 : run false (Quant 0 (Some 1) true Selector.leadTree) true (m +:+ r)
               = [here (m +:+ r)]).
  { apply optional_skipped, no_lead, Harrow. }
  eapply first_seq in E0 as (l3 & E3); [|exact E2].
  assert (EB : run false Bol true (m +:+ r) = [here (m +:+ r)]) by reflexivity.
  eapply first_seq in EB as (l4 & E4); [|exact E3].
  rewrite targetPattern_tree. unfold exec.
  destruct (m +:+ r) as [|c s] eqn:Es;
    cbn [exec_from tree icase ngroups Nat.eqb]; unfold Selector.targetTree;
    rewrite E4; eexists; (split; [reflexivity|]); split; reflexivity.
Qed.

End SelectorFacts.

(** X17.  A selector and the descriptor it stands for: a string target
    [module.method], [module::method] or [module#method], with white
    space around it or not, selects what the descriptor object with this
    module and this method selects, and a string that is the name of a
    module alone selects its method [index].  The name of the module has
    none of the characters [. : #], the method has no line break, and the
    string has no arrow [=>] in it. *)
Theorem X17_selector_as_descriptor (kebabToPascal camelToPascal : string -> string)
    (cls : Route.variant) (api : option Route.runtime) (selector module : string) :
  module <> "" ->
  Str.all Selector.is_name_char module = true ->
  Selector.has_arrow (Str.trim selector) = false ->
  (Str.trim selector = module ->
   Route.parseTarget kebabToPascal camelToPascal cls (VStr selector) api
   = Route.parseTarget kebabToPascal camelToPascal cls
       (VObj [("module", VStr module); ("method", VStr "index")]) api)
  /\ (forall separator method,
        In separator Selector.separators ->
        method <> "" ->
        Str.all Selector.no_break method = true ->
        Str.trim selector = module +:+ separator +:+ method ->
        Route.parseTarget kebabToPascal camelToPascal cls (VStr selector) api
        = Route.parseTarget kebabToPascal camelToPascal cls
            (VObj [("module", VStr module); ("method", VStr method)]) api).
Proof.
  intros Hm Hall Harrow.
  assert (Hobj : forall method, method <> "" ->
            Route.selectTarget (VObj [("module", VStr module); ("method", VStr method)])
            = Ok (Route.Selected (VStr module) (VStr method) None)).
  { intros method Hx. destruct module; [congruence|]. destruct method; [congruence|].
    reflexivity. }
  split.
  - intros Hs. destruct api as [rt|]; [|reflexivity].
    unfold Route.parseTarget. rewrite Hobj by discriminate.
    unfold Route.selectTarget. cbn [JS.typeof].
    destruct (SelectorFacts.run_target (Str.trim selector) module "" (RegExp.here "") []
                (eq_sym (eq_trans (StrFacts.app_nil_r module) (eq_sym Hs)))
                Hm Hall I Harrow (SelectorFacts.run_tail_plain _))
      as (r & -> & -> & ->).
    reflexivity.
  - intros separator method Hsep Hx Hmethod Hs. destruct api as [rt|]; [|reflexivity].
    unfold Route.parseTarget. rewrite Hobj by exact Hx.
    unfold Route.selectTarget. cbn [JS.typeof].
    destruct (SelectorFacts.run_tail_method
                (true && Str.is_empty "" && Str.is_empty module) separator method
                Hsep Hx Hmethod) as (l & Etail).
    destruct (SelectorFacts.run_target (Str.trim selector) module (separator +:+ method)
                _ l Hs Hm Hall (proj2 (SelectorFacts.separator_head separator method Hsep))
                Harrow Etail)
      as (r & -> & -> & ->).
    cbn. destruct method; [congruence|]. reflexivity.
Qed.

Lemma X17_selector_as_descriptor_witness :
  Route.parseTarget id id Route.Terminal (VStr "  CustomController::index ")
    Examples.api
  = Route.parseTarget id id Route.Terminal
      (VObj [("module", VStr "CustomController"); ("method", VStr "index")])
      Examples.api.
Proof.
  exact (proj2 (X17_selector_as_descriptor id id Route.Terminal Examples.api
                  "  CustomController::index " "CustomController"
                  ltac:(discriminate) eq_refl eq_refl)
           "::" "index" ltac:(right; left; reflexivity) ltac:(discriminate)
           eq_refl eq_refl).
Defined.

Module SourceFacts3.
Import RegExp Trees RegExpFacts PrefixFacts PrefixFacts2 SelectorFacts.

Lemma letter_class_eq c : char_matches true false [range 97 122] c = Source.is_letter c.
Proof. PrefixFacts.by_cases c. Qed.

Lemma token_class_eq c :
  char_matches true false [range 45 45; range 97 122] c = Source.is_token_char c.
Proof. PrefixFacts.by_cases c. Qed.

Lemma star_class_eq c : char_matches true false (set_of "*") c = Ascii.eqb c "*".
Proof. PrefixFacts.by_cases c. Qed.

Lemma mark_class_eq c : char_matches true false (set_of "=~") c = Spec.one_of "=~" c.
Proof. PrefixFacts.by_cases c. Qed.

Lemma slash_class_eq c : char_matches true false (set_of "/") c = Ascii.eqb c "/".
Proof. PrefixFacts.by_cases c. Qed.

Lemma dot_class_i c :
  char_matches true true line_terminators c = Selector.no_break c.
Proof. PrefixFacts.by_cases c. Qed.

Lemma equals_class_i c : char_matches true false (set_of "=") c = Ascii.eqb c "=".
Proof. PrefixFacts.by_cases c. Qed.

Lemma greater_class_i c : char_matches true false (set_of ">") c = Ascii.eqb c ">".
Proof. PrefixFacts.by_cases c. Qed.

Lemma letter_not_star c : Source.is_letter c = true -> Ascii.eqb c "*" = false.
Proof. destruct c as [[] [] [] [] [] [] [] []]; vm_compute; congruence. Qed.

Lemma space_not_token c : Str.is_space c = true -> Source.is_token_char c = false.
Proof. destruct c as [[] [] [] [] [] [] [] []]; vm_compute; congruence. Qed.

Lemma flat_map_map {A B C : Type} (f : B -> list C) (g : A -> B) (l : list A) :
  flat_map f (List.map g l) = flat_map (fun x => f (g x)) l.
Proof. induction l as [|x l IH]; [reflexivity|]. cbn. now rewrite IH. Qed.

Lemma has_arrow_suffix a b :
  Selector.has_arrow (a +:+ b) = false -> Selector.has_arrow b = false.
Proof.
  induction a as [|c a IH]; [auto|].
  cbn [String.append Selector.has_arrow]. intros H.
  apply orb_false_iff in H as [_ H]. auto.
Qed.

(** A text without an arrow has no arrow tail. *)
Lemma no_arrow bol s :
  Selector.has_arrow s = false -> run true arrowTree bol s = [].
Proof.
  intros H. unfold arrowTree. rewrite run_seq. apply flat_map_nil.
  intros y Hy. apply run_split in Hy.
  destruct (rest y) as [|c [|d r]] eqn:Er; cbn [run flat_map List.map app]; try reflexivity.
  - rewrite equals_class_i. destruct (Ascii.eqb c "="); reflexivity.
  - rewrite equals_class_i. destruct (Ascii.eqb_spec c "=") as [->|]; [|reflexivity].
    cbn [flat_map List.map app andb matched rest Str.is_empty].
    rewrite greater_class_i. destruct (Ascii.eqb_spec d ">") as [->|]; [|reflexivity].
    rewrite Hy, has_arrow_app in H. discriminate.
Qed.

(** Behind a text without an arrow only the end of the text closes a
    source. *)
Lemma run_tail_rest bol s :
  Selector.has_arrow s = false ->
  run true Source.tailTree bol s = if Str.is_empty s then [here s] else [].
Proof.
  intros H. unfold Source.tailTree.
  rewrite run_seq, (optional_skipped _ _ _ _ (no_arrow bol s H)).
  cbn [flat_map rest here run]. destruct s; reflexivity.
Qed.

(** A reluctant run of characters of a class, all of the class, before
    something that takes the end of the text only. *)
Lemma lazy_all {B : Type} ic neg cs (f : mres -> list B) s :
  Str.all (char_matches ic neg cs) s = true ->
  (forall a c b, s = a +:+ String c b ->
     f {| matched := a; rest := String c b; caps := [] |} = []) ->
  forall fuel bol, String.length s <= fuel ->
  flat_map f (repeat (run ic (Chars neg cs)) [] false fuel 0 None bol s)
  = f {| matched := s; rest := ""; caps := [] |}.
Proof.
  revert f. induction s as [|c s IH]; intros f Hall Hf fuel bol Hfuel.
  - destruct fuel; cbn; now rewrite app_nil_r.
  - destruct fuel as [|fuel]; [cbn in Hfuel; lia|].
    cbn [Str.all] in Hall. apply andb_true_iff in Hall as [Hc Hall].
    cbn [repeat Nat.eqb]. rewrite (run_chars_cons _ _ _ _ _ _ Hc).
    cbn [flat_map andb matched rest caps Str.is_empty Nat.pred fmap option_fmap option_map app].
    rewrite app_nil_r. unfold here at 1. rewrite (Hf "" c s eq_refl). cbn [app].
    rewrite flat_map_map. rewrite IH.
    + reflexivity.
    + exact Hall.
    + intros a d b ->. cbn [matched rest caps app String.append].
      apply (Hf (String c a) d b). reflexivity.
    + cbn in Hfuel. lia.
Qed.

Lemma flat_map_seq {B : Type} ic a b (f : mres -> list B) bol s :
  flat_map f (run ic (Seq a b) bol s)
  = flat_map (fun y =>
      flat_map (fun z => f (after y z))
        (run ic b (bol && Str.is_empty (matched y)) (rest y)))
      (run ic a bol s).
Proof.
  rewrite run_seq. induction (run ic a bol s) as [|y l IH]; [reflexivity|].
  cbn [flat_map]. rewrite flat_map_app, IH, flat_map_map. reflexivity.
Qed.

Lemma run_mark bol mark path :
  In mark Source.marks ->
  run true (Quant 0 (Some 1) true (Chars false (set_of "=~"))) bol
    (mark +:+ String "/" path)
  = if Str.is_empty mark then [here (String "/" path)]
    else [{| matched := mark; rest := String "/" path; caps := [] |};
          here (mark +:+ String "/" path)].
Proof. intros [<-|[<-|[<-|[]]]]; destruct bol; vm_compute; reflexivity. Qed.

Lemma flat_map_unit {A : Type} (l : list A) : flat_map (fun y => [y]) l = l.
Proof. induction l as [|x l IH]; [reflexivity|]. cbn. now rewrite IH. Qed.

Lemma run_slash bol path :
  run true (Chars false (set_of "/")) bol (String "/" path)
  = [{| matched := "/"; rest := path; caps := [] |}].
Proof. reflexivity. Qed.

Lemma slash_missed r bol c s :
  Ascii.eqb c "/" = false ->
  run true (Seq (Chars false (set_of "/")) r) bol (String c s) = [].
Proof. intros H. rewrite run_seq. cbn [run]. rewrite slash_class_eq, H. reflexivity. Qed.

(** A slash and what follows it, to the end of the text. *)
Lemma slash_and_rest {B : Type} (f : mres -> list B) bol path :
  Str.all Selector.no_break path = true ->
  (forall a c s, path = a +:+ String c s ->
     f {| matched := String "/" a; rest := String c s; caps := [] |} = []) ->
  flat_map f
    (run true (Seq (Chars false (set_of "/"))
                   (Quant 0 None false (Chars true line_terminators))) bol
       (String "/" path))
  = f {| matched := String "/" path; rest := ""; caps := [] |}.
Proof.
  intros Hall Hf. rewrite flat_map_seq, run_slash. cbn [flat_map matched rest].
  rewrite app_nil_r, run_quant. cbn [groups_of List.map].
  rewrite lazy_all.
  - reflexivity.
  - rewrite (SourceFacts.all_ext _ Selector.no_break)
      by (intros c; apply dot_class_i).
    exact Hall.
  - intros a c s Hs. unfold after. cbn [matched rest caps app String.append]. auto.
  - lia.
Qed.

(** The address of a source text: its mark, its slash and what follows,
    to the end of the text. *)
Lemma run_address bol mark path :
  In mark Source.marks ->
  Str.all Selector.no_break path = true ->
  Selector.has_arrow path = false ->
  run true (Seq (Group 2 urlTree) Source.tailTree) bol (mark +:+ String "/" path)
  = [{| matched := mark +:+ String "/" path; rest := "";
        caps := [(2, Some (mark +:+ String "/" path))] |}].
Proof.
  intros Hmark Hall Harrow.
  rewrite <- (flat_map_unit (run _ _ _ _)).
  rewrite flat_map_seq, run_group, flat_map_map. unfold urlTree.
  rewrite flat_map_seq, (run_mark bol mark path Hmark).
  assert (Hshort : forall a c s, path = a +:+ String c s ->
            Selector.has_arrow (String c s) = false).
  { intros a c s Hs. rewrite Hs in Harrow. exact (has_arrow_suffix _ _ Harrow). }
  destruct Hmark as [<-|[<-|[<-|[]]]];
    cbn [Str.is_empty flat_map here matched rest String.append];
    rewrite ?slash_missed by reflexivity;
    cbn [flat_map]; rewrite ?app_nil_r;
    (rewrite slash_and_rest;
     [ unfold after; cbn [matched rest caps app String.append];
       rewrite run_tail_rest by reflexivity;
       cbn [Str.is_empty flat_map]; unfold here; cbn [matched rest caps app];
       rewrite ?app_nil_r, ?StrFacts.app_nil_r; reflexivity
     | exact Hall
     | intros a c s Hs; unfold after; cbn [matched rest caps app String.append];
       rewrite run_tail_rest by exact (Hshort a c s Hs); reflexivity ]).
Qed.

Lemma run_alt ic a b bol s : run ic (Alt a b) bol s = run ic a bol s ++ run ic b bol s.
Proof. reflexivity. Qed.

(** The method of a source text, in front of something that is no part
    of it. *)
Lemma run_token bol method r :
  Source.is_method method = true ->
  match r with
  | EmptyString => True
  | String d _ => Source.is_token_char d = false
  end ->
  exists l,
    run true methodTree bol (method +:+ r)
    = {| matched := method; rest := r; caps := [] |} :: l.
Proof.
  intros Hm Hr. unfold Source.is_method in Hm. apply orb_true_iff in Hm as [Hm|Hm].
  - apply String.eqb_eq in Hm as ->. unfold methodTree. rewrite run_alt.
    cbn [String.append run]. rewrite star_class_eq. cbn. eauto.
  - destruct method as [|c m]; [discriminate|].
    apply andb_true_iff in Hm as [Hm Hall]. apply andb_true_iff in Hm as [Hc Hne].
    unfold methodTree. rewrite run_alt. cbn [String.append].
    assert (E : run true (Chars false (set_of "*")) bol (String c (m +:+ r)) = []).
    { cbn [run]. now rewrite star_class_eq, (letter_not_star c Hc). }
    rewrite E. cbn [app].
    destruct (plus_first true false [range 45 45; range 97 122] m r
                (bol && Str.is_empty (String c ""))) as (l & El).
    + destruct m; [discriminate|discriminate].
    + rewrite (SourceFacts.all_ext _ Source.is_token_char)
        by (intros d; apply token_class_eq).
      exact Hall.
    + destruct r as [|d r]; [exact I|]. now rewrite token_class_eq.
    + destruct (first_seq true (Chars false [range 97 122])
                  (Quant 1 None true (Chars false [range 45 45; range 97 122]))
                  bol (String c (m +:+ r)) _ [] _ l
                  (run_chars_cons true false _ bol c _
                     (eq_trans (letter_class_eq c) Hc)) El) as (l' & E').
      rewrite E'. unfold after. cbn [matched rest caps app String.append]. eauto.
Qed.

(** The method of a source text and the white space behind it. *)
Lemma run_method_gap bol method gap r :
  Source.is_method method = true ->
  gap <> "" -> Str.all Str.is_space gap = true ->
  match r with
  | EmptyString => True
  | String d _ => Str.is_space d = false
  end ->
  exists l,
    run true (Seq (Group 1 methodTree) (Quant 1 None true (Chars false spaces))) bol
      (method +:+ gap +:+ r)
    = {| matched := method +:+ gap; rest := r; caps := [(1, Some method)] |} :: l.
Proof.
  intros Hm Hgap Hall Hr.
  destruct (run_token bol method (gap +:+ r) Hm) as (l1 & E1).
  { destruct gap as [|g gap]; [congruence|]. cbn [String.append].
    cbn [Str.all] in Hall. apply andb_true_iff in Hall as [Hg _].
    exact (space_not_token g Hg). }
  destruct (plus_first true false spaces gap r (bol && Str.is_empty method) Hgap)
    as (l2 & E2).
  { rewrite (SourceFacts.all_ext _ Str.is_space)
      by (intros d; apply SourceFacts.space_class).
    exact Hall. }
  { destruct r as [|d r]; [exact I|]. now rewrite SourceFacts.space_class. }
  assert (E1' : run true (Group 1 methodTree) bol (method +:+ gap +:+ r)
                = {| matched := method; rest := gap +:+ r; caps := [(1, Some method)] |}
                  :: List.map (fun y => {| matched := matched y; rest := rest y;
                                            caps := caps y ++ [(1, Some (matched y))] |}) l1).
  { rewrite run_group, E1. reflexivity. }
  destruct (first_seq true _ _ _ _ _ _ _ _ E1' E2) as (l3 & E3).
  rewrite E3. unfold after. cbn [matched rest caps app]. eauto.
Qed.

Lemma method_not_empty method : Source.is_method method = true -> method <> "".
Proof. intros H ->. discriminate. Qed.

(** What [sourcePattern] finds in a method, white space, an address and
    what follows, when the address and what follows match from the
    address on. *)
Lemma exec_source_text method gap mark more u :
  (forall bol, exists z l,
     run true (Seq (Group 2 urlTree) Source.tailTree) bol (mark +:+ String "/" more)
     = z :: l /\ caps z = [(2, Some u)]) ->
  Source.is_method method = true ->
  gap <> "" -> Str.all Str.is_space gap = true ->
  In mark Source.marks ->
  exists m,
    exec Route.sourcePattern (method +:+ gap +:+ mark +:+ String "/" more) = Some m
    /\ sub m 1 = Some method
    /\ sub m 2 = Some u.
Proof.
  intros Hrun Hm Hgap Hspaces Hmark.
  destruct (run_method_gap true method gap (mark +:+ String "/" more) Hm Hgap Hspaces)
    as (l1 & E1).
  { destruct Hmark as [<-|[<-|[<-|[]]]]; reflexivity. }
  pose proof (method_not_empty method Hm) as Hne.
  destruct method as [|c method]; [congruence|]. cbn [String.append] in E1 |- *.
  destruct (optional_first true _ true c _ _ l1 E1) as (l2 & E2); [discriminate|].
  cbn [matched rest caps groups_of List.map app methodTree] in E2.
  destruct (Hrun (true && Str.is_empty ((String c method +:+ gap) +:+ "")))
    as (z & l & Ez & Hcaps).
  destruct (first_seq true _ (Seq (Group 2 urlTree) Source.tailTree) _ _ _ _ _ _
              E2 Ez) as (l3 & E3).
  destruct (first_seq true Bol _ true _ (here _) [] _ l3 eq_refl E3) as (l4 & E4).
  rewrite SourceFacts.sourcePattern_tree. unfold exec.
  cbn [exec_from tree icase ngroups Nat.eqb]. unfold sourceTree.
  change (Seq (Quant 0 (Some 1) true arrowTree) Eol) with Source.tailTree.
  rewrite E4. eexists. split; [reflexivity|].
  unfold sub, after, here. cbn [submatches seq List.map nth_error Nat.pred caps app].
  rewrite Hcaps. split; reflexivity.
Qed.

(** What [sourcePattern] finds in an address and what follows. *)
Lemma exec_source_address mark more u :
  (forall bol, exists z l,
     run true (Seq (Group 2 urlTree) Source.tailTree) bol (mark +:+ String "/" more)
     = z :: l /\ caps z = [(2, Some u)]) ->
  In mark Source.marks ->
  exists m,
    exec Route.sourcePattern (mark +:+ String "/" more) = Some m
    /\ sub m 1 = None
    /\ sub m 2 = Some u.
Proof.
  intros Hrun Hmark.
  assert (E0 : run true (Seq (Group 1 methodTree) (Quant 1 None true (Chars false spaces)))
                 true (mark +:+ String "/" more) = []).
  { destruct Hmark as [<-|[<-|[<-|[]]]]; vm_compute; reflexivity. }
  apply optional_skipped in E0.
  destruct (Hrun (true && Str.is_empty "")) as (z & l & Ez & Hcaps).
  destruct (first_seq true _ (Seq (Group 2 urlTree) Source.tailTree) _ _ _ _ _ _
              E0 Ez) as (l3 & E3).
  destruct (first_seq true Bol _ true _ (here _) [] _ l3 eq_refl E3) as (l4 & E4).
  rewrite SourceFacts.sourcePattern_tree. unfold exec.
  assert (Hs : exists c s, mark +:+ String "/" more = String c s).
  { destruct Hmark as [<-|[<-|[<-|[]]]]; cbn; eauto. }
  destruct Hs as (c & s & Hs). rewrite Hs in *.
  cbn [exec_from tree icase ngroups Nat.eqb]. unfold sourceTree.
  change (Seq (Quant 0 (Some 1) true arrowTree) Eol) with Source.tailTree.
  rewrite E4. eexists. split; [reflexivity|].
  unfold sub, after, here. cbn [submatches seq List.map nth_error Nat.pred caps app].
  rewrite Hcaps. split; reflexivity.
Qed.

(** An address to the end of the text. *)
Lemma address_alone mark path :
  In mark Source.marks ->
  Str.all Selector.no_break path = true ->
  Selector.has_arrow path = false ->
  forall bol, exists z l,
    run true (Seq (Group 2 urlTree) Source.tailTree) bol (mark +:+ String "/" path)
    = z :: l /\ caps z = [(2, Some (mark +:+ String "/" path))].
Proof.
  intros Hmark Hall Harrow bol. rewrite (run_address bol mark path Hmark Hall Harrow).
  eexists _, _. split; reflexivity.
Qed.

Lemma address_not_blank mark path :
  In mark Source.marks ->
  (0 <? String.length (Str.trim (mark +:+ String "/" path))) = true.
Proof. intros [<-|[<-|[<-|[]]]]; reflexivity. Qed.

End SourceFacts3.

(** X18.  A source text and the object it stands for: a text made of a
    method, white space and an address (a path or a path behind one of
    the marks [=] and [~]), with white space around it or not, is
    read by [preparseSource] as the object with this [type] and this
    [url] is, with the same result or the same error; a text that is an
    address alone is read as the object with this [url] and no [type].
    The method is [*] or a letter followed by letters and hyphens, the
    address has no line break and no arrow [=>] behind its slash. *)
Theorem X18_source_text_as_object (source method gap mark path : string) :
  In mark Source.marks ->
  Str.all Selector.no_break path = true ->
  Selector.has_arrow path = false ->
  (Str.trim source = mark +:+ String "/" path ->
   Route.preparseSource (VStr source)
   = Route.preparseSource (VObj [("url", VStr (mark +:+ String "/" path))]))
  /\ (Source.is_method method = true ->
      gap <> "" -> Str.all Str.is_space gap = true ->
      Str.trim source = method +:+ gap +:+ mark +:+ String "/" path ->
      Route.preparseSource (VStr source)
      = Route.preparseSource
          (VObj [("type", VStr method); ("url", VStr (mark +:+ String "/" path))])).
Proof.
  intros Hmark Hall Harrow. split.
  - intros Hs.
    destruct (SourceFacts3.exec_source_address mark path _
                (SourceFacts3.address_alone mark path Hmark Hall Harrow) Hmark)
      as (m & Em & E1 & E2).
    unfold Route.preparseSource, Route.read_source.
    cbn [JS.typeof JS.truthy JS.get JS.assoc String.eqb Ascii.eqb Bool.eqb
         JS.hasOwnProperty].
    rewrite Hs, Em, E1, E2, (SourceFacts3.address_not_blank mark path Hmark).
    reflexivity.
  - intros Hm Hgap Hspaces Hs.
    destruct (SourceFacts3.exec_source_text method gap mark path _
                (SourceFacts3.address_alone mark path Hmark Hall Harrow)
                Hm Hgap Hspaces Hmark) as (m & Em & E1 & E2).
    unfold Route.preparseSource, Route.read_source.
    cbn [JS.typeof JS.truthy JS.get JS.assoc String.eqb Ascii.eqb Bool.eqb
         JS.hasOwnProperty].
    rewrite Hs, Em, E1, E2, (SourceFacts3.address_not_blank mark path Hmark).
    reflexivity.
Qed.

Lemma X18_source_text_as_object_witness :
  Route.preparseSource (VStr "  post   ~/api/user ")
  = Route.preparseSource (VObj [("type", VStr "post"); ("url", VStr "~/api/user")]).
Proof.
  exact (proj2 (X18_source_text_as_object "  post   ~/api/user " "post" "   " "~" "api/user"
                  ltac:(right; right; left; reflexivity) eq_refl eq_refl)
           eq_refl ltac:(discriminate) eq_refl eq_refl).
Defined.

Module ArrowFacts.
Import RegExp Trees RegExpFacts PrefixFacts PrefixFacts2 SelectorFacts SourceFacts3.

(** A reluctant run of characters of a class, up to the first place
    where what follows goes on. *)
Lemma lazy_until {B : Type} ic neg cs (f : mres -> list B) (P : B -> Prop) a0 b0 :
  Str.all (char_matches ic neg cs) a0 = true ->
  (forall a c b, a0 = a +:+ String c b ->
     f {| matched := a; rest := String c b +:+ b0; caps := [] |} = []) ->
  (exists z l, f {| matched := a0; rest := b0; caps := [] |} = z :: l /\ P z) ->
  forall fuel bol, String.length (a0 +:+ b0) <= fuel ->
  exists z l',
    flat_map f (repeat (run ic (Chars neg cs)) [] false fuel 0 None bol (a0 +:+ b0))
    = z :: l' /\ P z.
Proof.
  revert f. induction a0 as [|c a IH]; intros f Hall Hshort (z & l & Hz & HP) fuel bol Hfuel.
  - cbn [String.append]. destruct fuel; cbn [repeat Nat.eqb flat_map];
      unfold here; rewrite Hz; cbn; eauto.
  - destruct fuel as [|fuel]; [cbn in Hfuel; lia|].
    cbn [Str.all] in Hall. apply andb_true_iff in Hall as [Hc Hall].
    cbn [String.append repeat Nat.eqb]. rewrite (run_chars_cons _ _ _ _ _ _ Hc).
    cbn [flat_map andb matched rest caps Str.is_empty Nat.pred fmap option_fmap option_map app].
    rewrite app_nil_r. unfold here at 1.
    pose proof (Hshort "" c a eq_refl) as H0. cbn [String.append] in H0.
    rewrite H0. cbn [app]. rewrite flat_map_map.
    apply IH.
    + exact Hall.
    + intros a' d b ->. cbn [matched rest caps app String.append].
      apply (Hshort (String c a') d b). reflexivity.
    + exists z, l. cbn [matched rest caps app String.append]. auto.
    + cbn in Hfuel. lia.
Qed.

Lemma star_first ic neg cs m r bol :
  Str.all (char_matches ic neg cs) m = true ->
  match r with
  | EmptyString => True
  | String d _ => char_matches ic neg cs d = false
  end ->
  exists l,
    run ic (Quant 0 None true (Chars neg cs)) bol (m +:+ r)
    = {| matched := m; rest := r; caps := [] |} :: l.
Proof.
  intros Hm Hr. rewrite run_quant. cbn [groups_of List.map].
  rewrite repeat_chars by lia. exact (greedy_first _ m r Hm Hr).
Qed.

(** The arrow of a source text and what stands behind it. *)
Lemma run_arrow bol ws comment :
  Str.all Str.is_space ws = true ->
  comment <> "" -> Str.all Selector.no_break comment = true ->
  exists l,
    run true Source.tailTree bol (ws +:+ String "=" (String ">" comment))
    = {| matched := ws +:+ String "=" (String ">" comment); rest := ""; caps := [] |} :: l.
Proof.
  intros Hws Hne Hall.
  destruct (star_first true false spaces ws (String "=" (String ">" comment)) bol)
    as (l1 & E1); [|reflexivity|].
  { rewrite (SourceFacts.all_ext _ Str.is_space)
      by (intros d; apply SourceFacts.space_class).
    exact Hws. }
  destruct (plus_first true true line_terminators comment ""
              (bol && Str.is_empty ws && Str.is_empty "=" && Str.is_empty ">") Hne)
    as (l2 & E2); [|exact I|].
  { rewrite (SourceFacts.all_ext _ Selector.no_break)
      by (intros d; apply dot_class_i).
    exact Hall. }
  rewrite StrFacts.app_nil_r in E2.
  destruct (first_seq true (Chars false (set_of ">")) _ (bol && Str.is_empty ws && Str.is_empty "=")
              (String ">" comment) _ [] _ l2 (run_chars_cons true false (set_of ">") _ ">" comment eq_refl) E2)
    as (l3 & E3).
  destruct (first_seq true (Chars false (set_of "=")) _ (bol && Str.is_empty ws)
              (String "=" (String ">" comment)) _ [] _ l3
              (run_chars_cons true false (set_of "=") _ "=" _ eq_refl) E3)
    as (l4 & E4).
  destruct (first_seq true _ _ _ _ _ _ _ _ E1 E4) as (l5 & E5).
  change (Seq (Quant 0 None true (Chars false spaces))
            (Seq (Chars false (set_of "="))
               (Seq (Chars false (set_of ">"))
                  (Quant 1 None true (Chars true line_terminators)))))
    with arrowTree in E5.
  unfold after in E5. cbn [matched rest caps app String.append] in E5.
  destruct (ws +:+ String "=" (String ">" comment)) as [|c s] eqn:Es.
  { destruct ws; discriminate. }
  destruct (optional_first true arrowTree bol c s _ l5 E5) as (l6 & E6).
  { cbn [matched]. destruct ws; discriminate. }
  cbn [matched rest caps groups_of arrowTree List.map app] in E6.
  destruct (first_seq true _ Eol _ _ _ _ (here "") [] E6 eq_refl) as (l7 & E7).
  unfold Source.tailTree. rewrite E7. unfold after, here. cbn [matched rest caps app].
  rewrite !StrFacts.app_nil_r. eauto.
Qed.

(** A character of a path closes no source. *)
Lemma tail_closed bol c s :
  Source.is_path_char c = true -> run true Source.tailTree bol (String c s) = [].
Proof.
  intros Hc. unfold Source.is_path_char in Hc.
  apply andb_true_iff in Hc as [Hsp Heq].
  apply negb_true_iff in Hsp. apply negb_true_iff in Heq.
  unfold Source.tailTree. rewrite run_seq, optional_skipped; [reflexivity|].
  unfold arrowTree. rewrite run_seq, run_quant. cbn [groups_of List.map].
  rewrite repeat_chars by lia. cbn [greedy_chars].
  rewrite SourceFacts.space_class, Hsp. cbn [flat_map here matched rest].
  rewrite run_seq. cbn [run]. rewrite equals_class_i, Heq. reflexivity.
Qed.

Lemma path_char_no_break c :
  Source.is_path_char c = true -> Selector.no_break c = true.
Proof. destruct c as [[] [] [] [] [] [] [] []]; vm_compute; congruence. Qed.

(** A slash and what follows it, up to the first place where what
    follows goes on. *)
Lemma slash_until {B : Type} (f : mres -> list B) (P : B -> Prop) bol path tail :
  Str.all Selector.no_break path = true ->
  (forall a c s, path = a +:+ String c s ->
     f {| matched := String "/" a; rest := String c s +:+ tail; caps := [] |} = []) ->
  (exists z l,
     f {| matched := String "/" path; rest := tail; caps := [] |} = z :: l /\ P z) ->
  exists z l',
    flat_map f
      (run true (Seq (Chars false (set_of "/"))
                     (Quant 0 None false (Chars true line_terminators))) bol
         (String "/" (path +:+ tail)))
    = z :: l' /\ P z.
Proof.
  intros Hall Hshort Hz. rewrite flat_map_seq, run_slash.
  cbn [flat_map matched rest]. rewrite app_nil_r, run_quant. cbn [groups_of List.map].
  apply lazy_until.
  - rewrite (SourceFacts.all_ext _ Selector.no_break)
      by (intros c; apply dot_class_i).
    exact Hall.
  - intros a c s Hs. unfold after. cbn [matched rest caps app String.append].
    exact (Hshort a c s Hs).
  - exact Hz.
  - lia.
Qed.

(** The address of a source text in front of an arrow. *)
Lemma address_and_arrow mark path ws comment :
  In mark Source.marks ->
  Str.all Source.is_path_char path = true ->
  Str.all Str.is_space ws = true ->
  comment <> "" -> Str.all Selector.no_break comment = true ->
  forall bol, exists z l,
    run true (Seq (Group 2 urlTree) Source.tailTree) bol
      (mark +:+ String "/" (path +:+ ws +:+ String "=" (String ">" comment)))
    = z :: l /\ caps z = [(2, Some (mark +:+ String "/" path))].
Proof.
  intros Hmark Hall Hws Hne Hcomment bol.
  rewrite <- (flat_map_unit (run _ _ _ _)).
  rewrite flat_map_seq, run_group, flat_map_map. unfold urlTree.
  rewrite flat_map_seq, (run_mark bol mark _ Hmark).
  assert (Hbreak : Str.all Selector.no_break path = true).
  { revert Hall. apply SourceFacts.all_impl. exact path_char_no_break. }
  assert (Hshort : forall a c s, path = a +:+ String c s -> Source.is_path_char c = true).
  { intros a c s Hs. rewrite Hs in Hall. clear Hs Hbreak.
    induction a as [|d a IH]; cbn [String.append Str.all] in Hall;
      apply andb_true_iff in Hall as [H1 H2]; auto. }
  destruct Hmark as [<-|[<-|[<-|[]]]];
    cbn [Str.is_empty flat_map here matched rest String.append];
    rewrite ?slash_missed by reflexivity;
    cbn [flat_map]; rewrite ?app_nil_r;
    (apply slash_until;
     [ exact Hbreak
     | intros a c s Hs; unfold after; cbn [matched rest caps app String.append];
       rewrite (tail_closed _ c _ (Hshort a c s Hs)); reflexivity
     | unfold after; cbn [matched rest caps app String.append];
       edestruct run_arrow as (l & E); [exact Hws | exact Hne | exact Hcomment |];
       rewrite E; cbn [flat_map app]; eexists _, _; split; [reflexivity|];
       unfold here; cbn [caps app]; reflexivity ]).
Qed.

End ArrowFacts.

(** X19.  The text behind an arrow: [preparseSource] reads a source text
    that goes on with white space or not, the arrow [=>] and some text on
    the same line as it reads the object with the method and the address
    in front of the arrow; what stands behind the arrow is left out.
    The path of the address has no white space and no equals sign. *)
Theorem X19_text_behind_arrow (source method gap mark path ws comment : string) :
  In mark Source.marks ->
  Str.all Source.is_path_char path = true ->
  Str.all Str.is_space ws = true ->
  comment <> "" ->
  Str.all Selector.no_break comment = true ->
  (Str.trim source = mark +:+ String "/" (path +:+ ws +:+ "=>" +:+ comment) ->
   Route.preparseSource (VStr source)
   = Route.preparseSource (VObj [("url", VStr (mark +:+ String "/" path))]))
  /\ (Source.is_method method = true ->
      gap <> "" -> Str.all Str.is_space gap = true ->
      Str.trim source
      = method +:+ gap +:+ mark +:+ String "/" (path +:+ ws +:+ "=>" +:+ comment) ->
      Route.preparseSource (VStr source)
      = Route.preparseSource
          (VObj [("type", VStr method); ("url", VStr (mark +:+ String "/" path))])).
Proof.
  intros Hmark Hall Hws Hne Hcomment.
  pose proof (ArrowFacts.address_and_arrow mark path ws comment Hmark Hall Hws Hne Hcomment)
    as Hrun.
  split.
  - intros Hs. cbn [String.append] in Hs.
    destruct (SourceFacts3.exec_source_address mark _ _ Hrun Hmark) as (m & Em & E1 & E2).
    unfold Route.preparseSource, Route.read_source.
    cbn [JS.typeof JS.truthy JS.get JS.assoc String.eqb Ascii.eqb Bool.eqb
         JS.hasOwnProperty].
    rewrite Hs, Em, E1, E2, (SourceFacts3.address_not_blank mark path Hmark).
    reflexivity.
  - intros Hm Hgap Hspaces Hs. cbn [String.append] in Hs.
    destruct (SourceFacts3.exec_source_text method gap mark _ _ Hrun Hm Hgap Hspaces Hmark)
      as (m & Em & E1 & E2).
    unfold Route.preparseSource, Route.read_source.
    cbn [JS.typeof JS.truthy JS.get JS.assoc String.eqb Ascii.eqb Bool.eqb
         JS.hasOwnProperty].
    rewrite Hs, Em, E1, E2, (SourceFacts3.address_not_blank mark path Hmark).
    reflexivity.
Qed.

Lemma X19_text_behind_arrow_witness :
  Route.preparseSource (VStr "GET /api/user => UserController.list")
  = Route.preparseSource (VObj [("type", VStr "GET"); ("url", VStr "/api/user")]).
Proof.
  exact (proj2 (X19_text_behind_arrow "GET /api/user => UserController.list"
                  "GET" " " "" "api/user" " " " UserController.list"
                  ltac:(left; reflexivity) eq_refl eq_refl ltac:(discriminate) eq_refl)
           eq_refl ltac:(discriminate) eq_refl eq_refl).
Defined.

Module LeadFacts.
Import RegExp Trees RegExpFacts PrefixFacts PrefixFacts2 SelectorFacts SourceFacts3 ArrowFacts.

Lemma reluctant_step body resets fuel bol s :
  repeat body resets false (S fuel) 1 None bol s
  = flat_map (fun y =>
      List.map (fun z =>
        {| matched := matched y +:+ matched z;
           rest := rest z;
           caps := resets ++ caps y ++ caps z |})
        (repeat body resets false fuel 0 None (bol && Str.is_empty (matched y)) (rest y)))
      (body bol s).
Proof. reflexivity. Qed.

Lemma space_class_s c : char_matches false false spaces c = Str.is_space c.
Proof. PrefixFacts.by_cases c. Qed.

Lemma run_chars_miss ic neg cs bol c s :
  char_matches ic neg cs c = false -> run ic (Chars neg cs) bol (String c s) = [].
Proof. intros H. cbn [run]. rewrite H. reflexivity. Qed.

(** No arrow where the text has none. *)
Lemma arrow_missed r bol c b t :
  Selector.has_arrow (String c b) = false ->
  run false (Seq (Chars false (set_of "=")) (Seq (Chars false (set_of ">")) r)) bol
    (String c b +:+ String "=" t)
  = [].
Proof.
  intros H. cbn [Selector.has_arrow] in H. apply orb_false_iff in H as [H _].
  rewrite run_seq. cbn [String.append].
  destruct (Ascii.eqb c "=") eqn:Ec.
  - rewrite (run_chars_cons false false _ bol c _) by (now rewrite equals_class).
    cbn [flat_map matched rest]. rewrite app_nil_r, run_seq.
    destruct b as [|d b]; cbn [String.append].
    + rewrite run_chars_miss by reflexivity. reflexivity.
    + cbn [andb] in H. rewrite run_chars_miss by (now rewrite greater_class).
      reflexivity.
  - rewrite run_chars_miss by (now rewrite equals_class). reflexivity.
Qed.

(** One or more characters of a line, as few as can be, up to the
    first place where what follows goes on. *)
Lemma some_until {B : Type} (f : mres -> list B) (P : B -> Prop) bol c0 lead tail :
  Str.all Selector.no_break (String c0 lead) = true ->
  (forall a c s, lead = a +:+ String c s ->
     f {| matched := String c0 a; rest := String c s +:+ tail; caps := [] |} = []) ->
  (exists z l, f {| matched := String c0 lead; rest := tail; caps := [] |} = z :: l /\ P z) ->
  exists z l',
    flat_map f
      (run false (Quant 1 None false (Chars true line_terminators)) bol
         (String c0 (lead +:+ tail)))
    = z :: l' /\ P z.
Proof.
  intros Hall Hshort Hz. cbn [Str.all] in Hall. apply andb_true_iff in Hall as [Hc Hall].
  rewrite run_quant. cbn [groups_of List.map]. change (1 + ?n) with (S n).
  rewrite reluctant_step, (run_chars_cons false true line_terminators bol c0 _).
  2:{ now rewrite dot_class. }
  cbn [flat_map matched rest caps]. rewrite app_nil_r, flat_map_map.
  apply lazy_until.
  - rewrite (SourceFacts.all_ext _ Selector.no_break)
      by (intros c; apply dot_class).
    exact Hall.
  - intros a c s Hs. cbn [matched rest caps app String.append].
    exact (Hshort a c s Hs).
  - destruct Hz as (z & l & Hz & HP). exists z, l.
    cbn [matched rest caps app String.append]. auto.
  - cbn [String.length]. lia.
Qed.

(** The lead of a target: the text in front of its first arrow, the
    arrow and the white space behind it. *)
Lemma run_lead bol lead ws sel :
  lead <> "" ->
  Str.all Selector.no_break lead = true ->
  Selector.has_arrow lead = false ->
  Str.all Str.is_space ws = true ->
  Selector.starts_word sel = true ->
  exists z l,
    run false Selector.leadTree bol (lead +:+ String "=" (String ">" (ws +:+ sel)))
    = z :: l
    /\ (matched z <> "" /\ rest z = sel /\ caps z = []).
Proof.
  intros Hne Hall Harrow Hws Hsel.
  destruct lead as [|c0 lead]; [congruence|]. cbn [String.append].
  rewrite <- (flat_map_unit (run _ _ _ _)). unfold Selector.leadTree.
  rewrite flat_map_seq. apply some_until.
  - exact Hall.
  - intros a c s Hs. cbn [matched rest].
    rewrite arrow_missed; [reflexivity|].
    rewrite Hs in Harrow.
    exact (has_arrow_suffix (String c0 a) (String c s) Harrow).
  - cbn [matched rest].
    destruct (star_first false false spaces ws sel
                (bol && Str.is_empty (String c0 lead) && Str.is_empty "=" && Str.is_empty ">"))
      as (l1 & E1).
    { rewrite (SourceFacts.all_ext _ Str.is_space)
        by (intros d; apply space_class_s).
      exact Hws. }
    { destruct sel as [|d sel]; [exact I|]. rewrite space_class_s.
      cbn [Selector.starts_word] in Hsel. now apply negb_true_iff in Hsel. }
    destruct (first_seq false (Chars false (set_of ">")) _
                (bol && Str.is_empty (String c0 lead) && Str.is_empty "=")
                (String ">" (ws +:+ sel)) _ [] _ l1
                (run_chars_cons false false (set_of ">") _ ">" _ eq_refl) E1)
      as (l2 & E2).
    destruct (first_seq false (Chars false (set_of "=")) _
                (bol && Str.is_empty (String c0 lead))
                (String "=" (String ">" (ws +:+ sel))) _ [] _ l2
                (run_chars_cons false false (set_of "=") _ "=" _ eq_refl) E2)
      as (l3 & E3).
    rewrite E3. cbn [flat_map app]. eexists _, _. split; [reflexivity|].
    unfold after. cbn [matched rest caps app String.append].
    split; [discriminate|]. split; reflexivity.
Qed.

(** What [targetPattern] finds behind a lead. *)
Lemma exec_behind_lead s y0 l0 m r ct :
  run false (Quant 0 (Some 1) true Selector.leadTree) true s = y0 :: l0 ->
  caps y0 = [] -> rest y0 = m +:+ r ->
  m <> "" -> Str.all Selector.is_name_char m = true ->
  match r with
  | EmptyString => True
  | String d _ => Selector.is_name_char d = false
  end ->
  (forall bol, exists y l,
     run false
       (Seq (Quant 0 (Some 1) true (Seq Selector.separatorTree (Group 2 Selector.methodTree)))
            Eol) bol r = y :: l /\ caps y = ct) ->
  exists r',
    exec Route.targetPattern s = Some r'
    /\ sub r' 1 = capture 1 ((1, Some m) :: ct)
    /\ sub r' 2 = capture 2 ((1, Some m) :: ct).
Proof.
  intros E0 Hcaps0 Hrest Hm Hall Hr Htail.
  destruct (run_module (true && Str.is_empty "" && Str.is_empty (matched y0)) m r Hm Hall Hr)
    as (l1 & E1).
  rewrite <- Hrest in E1.
  destruct (Htail (true && Str.is_empty "" && Str.is_empty (matched y0) && Str.is_empty m))
    as (y & l & Ey & Hcaps).
  destruct (first_seq false (Group 1 Selector.moduleTree) _ _ _ _ _ _ _ E1 Ey) as (l2 & E2).
  destruct (first_seq false _ _ (true && Str.is_empty "") _ _ _ _ _ E0 E2) as (l3 & E3).
  destruct (first_seq false Bol _ true s (here s) [] _ l3 eq_refl E3) as (l4 & E4).
  rewrite targetPattern_tree. unfold exec.
  destruct s as [|c s];
    cbn [exec_from tree icase ngroups Nat.eqb]; unfold Selector.targetTree;
    rewrite E4; eexists; (split; [reflexivity|]);
    unfold sub, after, here; cbn [submatches seq List.map nth_error Nat.pred caps app];
    rewrite Hcaps0, Hcaps; split; reflexivity.
Qed.

End LeadFacts.

(** X20.  The text in front of an arrow: [parseTarget] reads a string
    target that has, on one line, some text without an arrow, the arrow
    [=>], white space or not, and a selector, as it reads the descriptor
    object of the selector; what stands in front of the arrow is left
    out.  The selector is the name of a module, without the characters
    [. : #], alone or with one of the separators and a method behind
    it. *)
Theorem X20_text_before_arrow (kebabToPascal camelToPascal : string -> string)
    (cls : Route.variant) (api : option Route.runtime) (target lead ws module : string) :
  lead <> "" ->
  Str.all Selector.no_break lead = true ->
  Selector.has_arrow lead = false ->
  Str.all Str.is_space ws = true ->
  Selector.starts_word module = true ->
  Str.all Selector.is_name_char module = true ->
  (Str.trim target = lead +:+ "=>" +:+ ws +:+ module ->
   Route.parseTarget kebabToPascal camelToPascal cls (VStr target) api
   = Route.parseTarget kebabToPascal camelToPascal cls
       (VObj [("module", VStr module); ("method", VStr "index")]) api)
  /\ (forall separator method,
        In separator Selector.separators ->
        method <> "" ->
        Str.all Selector.no_break method = true ->
        Str.trim target = lead +:+ "=>" +:+ ws +:+ module +:+ separator +:+ method ->
        Route.parseTarget kebabToPascal camelToPascal cls (VStr target) api
        = Route.parseTarget kebabToPascal camelToPascal cls
            (VObj [("module", VStr module); ("method", VStr method)]) api).
Proof.
  intros Hlead Hline Harrow Hws Hword Hall.
  assert (Hm : module <> "") by (intros ->; discriminate).
  assert (Hobj : forall method, method <> "" ->
            Route.selectTarget (VObj [("module", VStr module); ("method", VStr method)])
            = Ok (Route.Selected (VStr module) (VStr method) None)).
  { intros method Hx. destruct module; [congruence|]. destruct method; [congruence|].
    reflexivity. }
  assert (Hfound : forall r ct,
            match r with
            | EmptyString => True
            | String d _ => Selector.is_name_char d = false
            end ->
            (forall bol, exists y l,
               RegExp.run false
                 (RegExp.Seq
                    (RegExp.Quant 0 (Some 1) true
                       (RegExp.Seq Selector.separatorTree
                          (RegExp.Group 2 Selector.methodTree)))
                    RegExp.Eol) bol r = y :: l /\ RegExp.caps y = ct) ->
            exists r',
              RegExp.exec Route.targetPattern
                (lead +:+ String "=" (String ">" (ws +:+ module +:+ r))) = Some r'
              /\ RegExp.sub r' 1 = RegExp.capture 1 ((1, Some module) :: ct)
              /\ RegExp.sub r' 2 = RegExp.capture 2 ((1, Some module) :: ct)).
  { intros r ct Hr Htail.
    destruct (LeadFacts.run_lead true lead ws (module +:+ r) Hlead Hline Harrow Hws)
      as (z & l & Ez & Hz & Hrest & Hcaps).
    { destruct module; [congruence|]. exact Hword. }
    destruct (lead +:+ String "=" (String ">" (ws +:+ module +:+ r))) as [|c s] eqn:Es.
    { destruct lead; discriminate. }
    destruct (SelectorFacts.optional_first false Selector.leadTree true c s z l Ez Hz)
      as (l' & E0).
    eapply LeadFacts.exec_behind_lead; [exact E0 | | exact Hrest | exact Hm | exact Hall
                                        | exact Hr | exact Htail].
    cbn [RegExp.caps]. rewrite Hcaps. reflexivity. }
  split.
  - intros Hs. destruct api as [rt|]; [|reflexivity].
    unfold Route.parseTarget. rewrite Hobj by discriminate.
    unfold Route.selectTarget. cbn [JS.typeof]. cbn [String.append] in Hs.
    destruct (Hfound "" [] I) as (r & Er & E1 & E2).
    { intros bol. rewrite SelectorFacts.run_tail_plain. eexists _, _.
      split; reflexivity. }
    rewrite StrFacts.app_nil_r in Er. rewrite Hs, Er, E1, E2. reflexivity.
  - intros separator method Hsep Hx Hmethod Hs. destruct api as [rt|]; [|reflexivity].
    unfold Route.parseTarget. rewrite Hobj by exact Hx.
    unfold Route.selectTarget. cbn [JS.typeof]. cbn [String.append] in Hs.
    destruct (Hfound (separator +:+ method) [(2, None); (2, Some method)]
                (proj2 (SelectorFacts.separator_head separator method Hsep)))
      as (r & Er & E1 & E2).
    { intros bol.
      destruct (SelectorFacts.run_tail_method bol separator method Hsep Hx Hmethod)
        as (l & E).
      rewrite E. eexists _, _. split; reflexivity. }
    rewrite Hs, Er, E1, E2. cbn. destruct method; [congruence|]. reflexivity.
Qed.

Lemma X20_text_before_arrow_witness :
  Route.parseTarget id id Route.Terminal (VStr "GET /api/user => CustomController.index")
    Examples.api
  = Route.parseTarget id id Route.Terminal
      (VObj [("module", VStr "CustomController"); ("method", VStr "index")])
      Examples.api.
Proof.
  exact (proj2 (X20_text_before_arrow id id Route.Terminal Examples.api
                  "GET /api/user => CustomController.index"
                  "GET /api/user " " " "CustomController"
                  ltac:(discriminate) eq_refl eq_refl eq_refl eq_refl eq_refl)
           "." "index" ltac:(left; reflexivity) ltac:(discriminate) eq_refl eq_refl).
Defined.
